(** * Jensen_Alpha: the Streamlit dashboard [jensen_streamlit.py]

    A shallow embedding of the script: the return transform
    ([pct_change], the date join and [dropna]), the excess-return
    regression ([add_constant], [OLS(...).fit()]), the interpretation
    rules, the rounding of the displayed metrics, and the page the
    script renders inside its top-level [try]/[except].

    Numbers.  The script computes on binary64 floats; here a finite
    float is a real number of [R] and a NaN is [None] of [value].
    Rounding error of the float operations is not part of the model.
    Prices are the positive reals of the data model; a quotient by a
    zero price is outside the model. *)

From Stdlib Require Import Reals Lra Lia ZArith List String Bool Permutation Sorted.
Import ListNotations.

Open Scope string_scope.
Open Scope list_scope.
Open Scope R_scope.

(** ** Values, series and frames *)

(** A date of a [DatetimeIndex], as a day number. *)
Definition date := Z.

(** A cell of a float column: [None] is NaN. *)
Definition value := option R.

(** A pandas [Series] of floats: index labels with their cells, in
    index order. *)
Definition Series := list (date * value).

(** A price column as the provider returns it: no missing cell. *)
Definition PriceSeries := list (date * R).

(** The frame [yf.download] returns: named columns. *)
Definition Frame := list (string * PriceSeries).

(** ** Exceptions and the rendering monad *)

Inductive exn : Type :=
| KeyError (key : string)
| ValueError (msg : string)
| IndexError (msg : string)
| ProviderError (msg : string).

(** [str(e)] as the [except] clause prints it. *)
Definition str (e : exn) : string :=
  match e with
  | KeyError k => String.append "'" (String.append k "'")
  | ValueError m => m
  | IndexError m => m
  | ProviderError m => m
  end.

Inductive outcome (A : Type) : Type :=
| Ok (a : A)
| Raise (e : exn).
Arguments Ok {A} a.
Arguments Raise {A} e.

(** A fragment of an f-string: literal text, or a float printed with
    the [.4f] format. *)
Inductive frag : Type :=
| Lit (s : string)
| Num4 (x : R).

(** The ["ols"] trendline of a scatter plot: none, or the fit plotly
    made, which has two parameters (constant and slope) or one. *)
Inductive trendline : Type :=
| NoTrendline
| TwoParams (intercept slope : R)
| OneParam (coef : R).

Record scatter_fig : Type := mk_scatter {
  sc_x : list R;
  sc_y : list R;
  sc_trendline : trendline;
  sc_title : list frag;
  sc_xaxis_title : list frag;
  sc_yaxis_title : list frag
}.

Record bar_fig : Type := mk_bar {
  bar_x : list date;
  bar_traces : list (string * list R);
  bar_title : string;
  bar_xaxis_title : string;
  bar_yaxis_title : string
}.

Inductive figure : Type :=
| Scatter (f : scatter_fig)
| GroupedBar (f : bar_fig).

(** What a Streamlit call puts on the page. *)
Inductive widget : Type :=
| St_title (s : string)
| St_markdown (s : string)
| St_sidebar_header (s : string)
| St_columns (n : nat)
| St_subheader (t : list frag)
| St_metric (label : string) (v : value)
| St_write (t : list frag)
| St_plotly_chart (f : figure)
| St_error (t : list frag).

Definition Page := list widget.

(** The script is a sequence of statements that render widgets and may
    raise: a state-and-error monad over the page rendered so far.  The
    widgets rendered before an exception stay on the page. *)
Definition St (A : Type) : Type := Page -> Page * outcome A.

Definition ret {A} (a : A) : St A := fun p => (p, Ok a).

Definition bind {A B} (m : St A) (k : A -> St B) : St B :=
  fun p => match m p with
           | (p', Ok a) => k a p'
           | (p', Raise e) => (p', Raise e)
           end.

Definition emit (w : widget) : St unit := fun p => (p ++ [w], Ok tt).

Definition lift {A} (o : outcome A) : St A := fun p => (p, o).

(** [try: body except Exception as e: handler e]. *)
Definition try_except (body : St unit) (handler : exn -> St unit) : St unit :=
  fun p => match body p with
           | (p', Ok tt) => (p', Ok tt)
           | (p', Raise e) => handler e p'
           end.

Notation "x <- m ;; k" := (bind m (fun x => k))
  (at level 61, m at next level, right associativity).
Notation "m ;;; k" := (bind m (fun _ => k))
  (at level 61, right associativity).

(** ** Sidebar inputs (lines 21-43) *)

Inductive market_index : Type := SP500 | NASDAQ100 | DowJones | Russell2000.

(** The keys of [market_indices]. *)
Definition index_name (i : market_index) : string :=
  match i with
  | SP500 => "S&P 500"
  | NASDAQ100 => "NASDAQ 100"
  | DowJones => "Dow Jones"
  | Russell2000 => "Russell 2000"
  end.

(** [market_indices[selected_index]]. *)
Definition market_indices (i : market_index) : string :=
  match i with
  | SP500 => "^GSPC"
  | NASDAQ100 => "^NDX"
  | DowJones => "^DJI"
  | Russell2000 => "^RUT"
  end.

Record Inputs : Type := mk_inputs {
  stock_symbol : string;
  selected_index : market_index;
  start_date : date;
  end_date : date;
  risk_free_rate : R             (* number_input, min 0.0, max 20.0 *)
}.

(** The market-data provider behind [yf.download]: a frame, or an
    exception. *)
Definition Provider := string -> date -> date -> outcome Frame.

(** [fetch_data] (lines 47-49); [st.cache_data] memoises it and does
    not change what it returns. *)
Definition fetch_data (yf_download : Provider) (symbol : string)
    (start stop : date) : outcome Frame :=
  yf_download symbol start stop.

(** [frame[key]]. *)
Fixpoint getitem (f : Frame) (key : string) : outcome PriceSeries :=
  match f with
  | [] => Raise (KeyError key)
  | (k, col) :: f' => if String.eqb k key then Ok col else getitem f' key
  end.

(** ** Return transform (lines 55-62) *)

(** [Series.pct_change()]: [data / data.shift(1) - 1]; the first cell
    has no predecessor and is NaN. *)
Fixpoint pct_change_from (prev : R) (s : PriceSeries) : Series :=
  match s with
  | [] => []
  | (d, p) :: s' => (d, Some (p / prev - 1)) :: pct_change_from p s'
  end.

Definition pct_change (s : PriceSeries) : Series :=
  match s with
  | [] => []
  | (d, p) :: s' => (d, None) :: pct_change_from p s'
  end.

(** [series * k]: NaN stays NaN. *)
Definition series_mul (s : Series) (k : R) : Series :=
  map (fun c => (fst c, option_map (fun x => x * k) (snd c))) s.

(** [frame['Adj Close'].pct_change() * 100] (lines 55 and 56). *)
Definition Return (adj_close : PriceSeries) : Series :=
  series_mul (pct_change adj_close) 100.

(** Insertion of a label into a sorted index without repetition. *)
Fixpoint insert_date (d : date) (idx : list date) : list date :=
  match idx with
  | [] => [d]
  | e :: idx' =>
      if (d <? e)%Z then d :: idx
      else if (d =? e)%Z then idx
      else e :: insert_date d idx'
  end.

(** [Index.equals]: the same labels in the same order. *)
Fixpoint index_equals (a b : list date) : bool :=
  match a, b with
  | [], [] => true
  | d :: a', e :: b' => (d =? e)%Z && index_equals a' b'
  | _, _ => false
  end.

(** The union of two indexes, on which [pd.DataFrame] aligns the
    columns of a dict of series: equal indexes are kept as they are, an
    empty index gives the other one, and otherwise the union is
    sorted. *)
Definition index_union (a b : list date) : list date :=
  if index_equals a b then a
  else match a, b with
       | [], _ => b
       | _, [] => a
       | _, _ => fold_right insert_date (fold_right insert_date [] b) a
       end.

(** The cell of a series at a label; a label the series does not have
    gives NaN (reindexing). *)
Fixpoint at_label (s : Series) (d : date) : value :=
  match s with
  | [] => None
  | (e, v) :: s' => if (d =? e)%Z then v else at_label s' d
  end.

(** A row of the two-column frame before [dropna]. *)
Definition RawRow := (date * (value * value))%type.

(** [pd.DataFrame({"Stock_Return": s, "Market_Return": m})]. *)
Definition DataFrame (s m : Series) : list RawRow :=
  map (fun d => (d, (at_label s d, at_label m d)))
      (index_union (map fst s) (map fst m)).

(** A row of [returns_df]: an Aligned Return Pair. *)
Record Row : Type := mk_row {
  row_date : date;
  Stock_Return : R;
  Market_Return : R
}.

(** [.dropna()]: rows with a NaN in any column are dropped. *)
Fixpoint dropna (rows : list RawRow) : list Row :=
  match rows with
  | [] => []
  | (d, (Some s, Some m)) :: rows' => mk_row d s m :: dropna rows'
  | _ :: rows' => dropna rows'
  end.

(** [returns_df] (lines 59-62). *)
Definition returns_df_of (stock_adj market_adj : PriceSeries) : list Row :=
  dropna (DataFrame (Return stock_adj) (Return market_adj)).

(** ** Excess-return regression (lines 65-71) *)

(** Line 65: [(1 + risk_free_rate / 100) ** (1 / 12) - 1]. *)
Definition risk_free_rate_monthly (rfr : R) : R :=
  Rpower (1 + rfr / 100) (1 / 12) - 1.

(** Lines 68 and 69: the two excess-return columns. *)
Definition X_of (rfr : R) (df : list Row) : list R :=
  map (fun r => Market_Return r - risk_free_rate_monthly rfr * 100) df.

Definition y_of (rfr : R) (df : list Row) : list R :=
  map (fun r => Stock_Return r - risk_free_rate_monthly rfr * 100) df.

Definition sum (l : list R) : R := fold_right Rplus 0 l.

Definition mean (l : list R) : R := sum l / INR (List.length l).

Fixpoint zip (x y : list R) : list (R * R) :=
  match x, y with
  | a :: x', b :: y' => (a, b) :: zip x' y'
  | _, _ => []
  end.

Definition Req_bool (a b : R) : bool :=
  if Req_dec_T a b then true else false.

Fixpoint list_max (a : R) (l : list R) : R :=
  match l with
  | [] => a
  | b :: l' => list_max (Rmax a b) l'
  end.

Fixpoint list_min (a : R) (l : list R) : R :=
  match l with
  | [] => a
  | b :: l' => list_min (Rmin a b) l'
  end.

Definition zero_size_msg : string :=
  "zero-size array to reduction operation maximum which has no identity".

(** [np.ptp]: maximum minus minimum; a zero-size array has neither. *)
Definition np_ptp (x : list R) : outcome R :=
  match x with
  | [] => Raise (ValueError zero_size_msg)
  | a :: l => Ok (list_max a l - list_min a l)
  end.

(** statsmodels' test for a column that is already a constant: its
    range is zero and it is not the zero column.  On a pandas column
    the test is wrapped so that an exception answers [False]. *)
Definition is_nonzero_const (x : list R) : bool :=
  match np_ptp x with
  | Ok p => Req_bool p 0 && existsb (fun v => negb (Req_bool v 0)) x
  | Raise _ => false
  end.

(** The design matrix of the regression: the named columns of [exog]. *)
Definition Exog := list (string * list R).

Definition ones (n : nat) : list R := repeat 1 n.

(** [sm.add_constant(X)] with its default [has_constant='skip']: a
    column ["const"] of ones is prepended, unless the data already has
    a non-zero constant column, in which case the data is returned as
    it is. *)
Definition add_constant (name : string) (x : list R) : Exog :=
  if is_nonzero_const x then [(name, x)]
  else [("const", ones (List.length x)); (name, x)].

(** The fitted model: [params] by column name, and [rsquared]. *)
Record RegressionResults : Type := mk_results {
  params : list (string * R);
  rsquared : value
}.

(** Residual sum of squares of the line [a + b * x]. *)
Definition ssr_line (a b : R) (x y : list R) : R :=
  sum (map (fun p => (snd p - a - b * fst p) ^ 2) (zip x y)).

(** Sum of squares of [y] about its mean. *)
Definition centered_tss (y : list R) : R :=
  sum (map (fun v => (v - mean y) ^ 2) y).

Definition Sxx (x : list R) : R :=
  sum (map (fun v => (v - mean x) ^ 2) x).

Definition Sxy (x y : list R) : R :=
  sum (map (fun p => (fst p - mean x) * (snd p - mean y)) (zip x y)).

(** [1 - ssr / centered_tss]; [0 / 0] is NaN. *)
Definition rsquared_of (ssr : R) (y : list R) : value :=
  if Req_dec_T (centered_tss y) 0 then None
  else Some (1 - ssr / centered_tss y).

(** [sm.OLS(y, X).fit()] on the designs [add_constant] produces.  The
    fit is the pseudo-inverse solution of the least-squares problem:
    - no row: the constructor raises [ValueError];
    - columns [const, x] of full rank: slope [Sxy / Sxx] and
      intercept [mean y - slope * mean x];
    - columns [const, x] with [x] constant (rank one): the solution of
      least norm among the minimisers;
    - the single column [x]: the line through the origin.
    No other design reaches it in this program. *)
Definition OLS_fit (y : list R) (exog : Exog) : outcome RegressionResults :=
  match y with
  | [] => Raise (ValueError zero_size_msg)
  | _ :: _ =>
      match exog with
      | [(kc, _); (kx, x)] =>
          let '(a, b) :=
            if Req_dec_T (Sxx x) 0
            then (mean y / (1 + mean x ^ 2), mean x * mean y / (1 + mean x ^ 2))
            else (mean y - Sxy x y / Sxx x * mean x, Sxy x y / Sxx x) in
          Ok (mk_results [(kc, a); (kx, b)] (rsquared_of (ssr_line a b x y) y))
      | [(kx, x)] =>
          let b :=
            if Req_dec_T (sum (map (fun v => v ^ 2) x)) 0 then 0
            else sum (map (fun p => fst p * snd p) (zip x y))
                 / sum (map (fun v => v ^ 2) x) in
          Ok (mk_results [(kx, b)] (rsquared_of (ssr_line 0 b x y) y))
      | _ => Raise (ValueError "exog is not a design of this program")
      end
  end.

(** [model.params[key]]. *)
Fixpoint params_getitem (ps : list (string * R)) (key : string) : outcome R :=
  match ps with
  | [] => Raise (KeyError key)
  | (k, v) :: ps' => if String.eqb k key then Ok v else params_getitem ps' key
  end.

(** Lines 65-71: the fitted model of the excess returns. *)
Definition fit_model (rfr : R) (df : list Row) : outcome RegressionResults :=
  OLS_fit (y_of rfr df) (add_constant "Market_Return" (X_of rfr df)).

(** ** Displayed metrics and interpretation (lines 74-105) *)

(** Round half to even, to an integer. *)
Definition rint (x : R) : Z :=
  let f := Zfloor x in
  let d := x - IZR f in
  if Rlt_dec d (1 / 2) then f
  else if Rlt_dec (1 / 2) d then (f + 1)%Z
  else if Z.even f then f else (f + 1)%Z.

(** [round(x, 4)] on a float: [rint(x * 10**4) / 10**4]. *)
Definition round4 (x : R) : R := IZR (rint (x * 10 ^ 4)) / 10 ^ 4.

(** Lines 92-96. *)
Definition beta_interpretation (beta : R) : string :=
  if Rlt_dec 1 beta then "🔥 **Aggressive**"
  else if Rlt_dec beta 1 then "❄️ **Defensive**"
  else "➡️ **Neutral**".

(** Lines 98-102. *)
Definition alpha_interpretation (alpha : R) : string :=
  if Rlt_dec 0 alpha then "📈 **Outperforming**"
  else if Rlt_dec alpha 0 then "📉 **Underperforming**"
  else "➡️ **Neutral**".

(** [needle in s], to read the word a label carries. *)
Fixpoint contains (needle s : string) : bool :=
  String.prefix needle s
  || match s with
     | EmptyString => false
     | String _ s' => contains needle s'
     end.

(** ** Charts (lines 111-146) *)

(** The ["ols"] trendline of [px.scatter]: plotly fits
    [sm.OLS(y, sm.add_constant(x))] on the plotted columns and tells a
    fit of two parameters, [params[0]] and [params[1]], from a fit of
    one, [params[0]].  On the non-empty columns that reach it, the
    array and the pandas versions of the constant test agree. *)
Definition trendline_ols (x y : list R) : outcome trendline :=
  match OLS_fit y (add_constant "x1" x) with
  | Raise e => Raise e
  | Ok fit =>
      match params fit with
      | [(_, c0); (_, c1)] => Ok (TwoParams c0 c1)
      | (_, c0) :: _ => Ok (OneParam c0)
      | [] => Raise (IndexError "index 0 is out of bounds for axis 0 with size 0")
      end
  end.

(** The value the trendline plots at [x]: the prediction of the fit. *)
Definition trend_value (t : trendline) (x : R) : option R :=
  match t with
  | NoTrendline => None
  | TwoParams intercept slope => Some (intercept + slope * x)
  | OneParam coef => Some (coef * x)
  end.

(** Lines 111-120: [px.scatter(returns_df, x="Market_Return",
    y="Stock_Return", trendline="ols", ...)].  plotly fits the
    trendline only when the trace has more than one point. *)
Definition fig2_of (inp : Inputs) (returns_df : list Row) : outcome scatter_fig :=
  let xs := map Market_Return returns_df in
  let ys := map Stock_Return returns_df in
  let fig line :=
    mk_scatter xs ys line
      [Lit (stock_symbol inp); Lit " Returns vs ";
       Lit (index_name (selected_index inp)); Lit " Returns"]
      [Lit (index_name (selected_index inp)); Lit " Returns (%)"]
      [Lit (stock_symbol inp); Lit " Returns (%)"] in
  if (List.length returns_df <=? 1)%nat then Ok (fig NoTrendline)
  else match trendline_ols xs ys with
       | Raise e => Raise e
       | Ok line => Ok (fig line)
       end.

(** Lines 124-145. *)
Definition fig3_of (inp : Inputs) (returns_df : list Row) : bar_fig :=
  mk_bar (map row_date returns_df)
         [(stock_symbol inp, map Stock_Return returns_df);
          (index_name (selected_index inp), map Market_Return returns_df)]
         "Monthly Returns Comparison" "Date" "Return (%)".

(** ** The page (lines 11-19 and 45-150) *)

Definition page_title : string := "Stock Beta & Jensen's Alpha Calculator".

Definition page_description : string :=
  "
This app calculates the Beta coefficient and Jensen's Alpha for a selected stock against a market index.
* **Beta** measures the stock's volatility relative to the market
* **Jensen's Alpha** measures the stock's excess return relative to the market
".

Definition hint : string :=
  "Please check if the stock symbol is valid and try again.".

(** Lines 84-85: one [st.metric] per entry of [metrics]. *)
Fixpoint show_metrics (metrics : list (string * value)) : St unit :=
  match metrics with
  | [] => ret tt
  | (metric, v) :: rest => emit (St_metric metric v) ;;; show_metrics rest
  end.

(** The body of the [try] (lines 46-146). *)
Definition try_body (yf_download : Provider) (inp : Inputs) : St unit :=
  stock_data <- lift (fetch_data yf_download (stock_symbol inp)
                        (start_date inp) (end_date inp)) ;;
  market_data <- lift (fetch_data yf_download
                         (market_indices (selected_index inp))
                         (start_date inp) (end_date inp)) ;;
  stock_adj <- lift (getitem stock_data "Adj Close") ;;
  market_adj <- lift (getitem market_data "Adj Close") ;;
  let returns_df := returns_df_of stock_adj market_adj in
  model <- lift (fit_model (risk_free_rate inp) returns_df) ;;
  emit (St_columns 2) ;;;
  emit (St_subheader [Lit (stock_symbol inp); Lit " Statistical Results"]) ;;;
  m_beta <- lift (params_getitem (params model) "Market_Return") ;;
  m_alpha <- lift (params_getitem (params model) "const") ;;
  show_metrics [("Beta", Some (round4 m_beta));
                ("Jensen's Alpha", Some (round4 m_alpha));
                ("R-squared", option_map round4 (rsquared model))] ;;;
  emit (St_subheader [Lit "Interpretation"]) ;;;
  beta <- lift (params_getitem (params model) "Market_Return") ;;
  alpha <- lift (params_getitem (params model) "const") ;;
  emit (St_write [Lit "**Beta ("; Num4 (round4 beta);
                  Lit "):** This stock is "; Lit (beta_interpretation beta);
                  Lit " compared to the ";
                  Lit (index_name (selected_index inp))]) ;;;
  emit (St_write [Lit "**Alpha ("; Num4 (round4 alpha);
                  Lit "):** This stock is "; Lit (alpha_interpretation alpha);
                  Lit " the market on a risk-adjusted basis"]) ;;;
  emit (St_subheader [Lit "Visualizations"]) ;;;
  fig2 <- lift (fig2_of inp returns_df) ;;
  emit (St_plotly_chart (Scatter fig2)) ;;;
  emit (St_plotly_chart (GroupedBar (fig3_of inp returns_df))).

(** Lines 148-150. *)
Definition except_handler (e : exn) : St unit :=
  emit (St_error [Lit "An error occurred: "; Lit (str e)]) ;;;
  emit (St_write [Lit hint]).

(** One pass of the script. *)
Definition script (yf_download : Provider) (inp : Inputs) : St unit :=
  emit (St_title page_title) ;;;
  emit (St_markdown page_description) ;;;
  emit (St_sidebar_header "Input Parameters") ;;;
  try_except (try_body yf_download inp) except_handler.

(** The page a pass renders, and whether an exception escaped it. *)
Definition render (yf_download : Provider) (inp : Inputs) : Page * outcome unit :=
  script yf_download inp [].

(** ** Vocabulary of the properties *)

(** The raw return columns of [returns_df], row by row. *)
Definition pairs_of (df : list Row) : list (R * R) :=
  map (fun row => (Market_Return row, Stock_Return row)) df.

(** Both columns less the same constant. *)
Definition shift_pairs (c : R) (l : list (R * R)) : list (R * R) :=
  map (fun p => (fst p - c, snd p - c)) l.

(** Slope and intercept of the fit when the market column is not
    constant, in terms of the raw returns and the shift [c]. *)
Definition raw_slope (df : list Row) : R :=
  Sxy (map Market_Return df) (map Stock_Return df) / Sxx (map Market_Return df).

Definition raw_intercept (c : R) (df : list Row) : R :=
  (mean (map Stock_Return df) - c)
  - raw_slope df * (mean (map Market_Return df) - c).

(** The non-missing cells of a return series: its Return Points. *)
Fixpoint Return_Points (s : Series) : list (date * R) :=
  match s with
  | [] => []
  | (d, Some v) :: s' => (d, v) :: Return_Points s'
  | (_, None) :: s' => Return_Points s'
  end.

(** The dates on which a series has a return. *)
Definition defined_dates (s : Series) : list date := map fst (Return_Points s).

(** The dates of one list that are also in another. *)
Definition date_inter (a b : list date) : list date :=
  filter (fun d => existsb (Z.eqb d) b) a.

(** What every pass renders before the [try]. *)
Definition page_header : Page :=
  [St_title page_title; St_markdown page_description;
   St_sidebar_header "Input Parameters"].

(** What the [except] clause renders. *)
Definition error_report (e : exn) : Page :=
  [St_error [Lit "An error occurred: "; Lit (str e)]; St_write [Lit hint]].

(** The widgets that show a result of the pass: a metric, an
    interpretation sentence, a chart. *)
Definition is_result (w : widget) : bool :=
  match w with
  | St_metric _ _ => true
  | St_plotly_chart _ => true
  | St_write [Lit s] => negb (String.eqb s hint)
  | St_write _ => true
  | _ => false
  end.

(** The error message of the [except] clause. *)
Definition is_error (w : widget) : bool :=
  match w with
  | St_error _ => true
  | _ => false
  end.

(** An exception raised by the fetch, by the return transform or by
    the regression of a pass. *)
Inductive raises_in_stage (yf_download : Provider) (inp : Inputs) (e : exn) : Prop :=
| raises_fetch_stock :
    fetch_data yf_download (stock_symbol inp) (start_date inp) (end_date inp)
    = Raise e ->
    raises_in_stage yf_download inp e
| raises_fetch_market (stock_data : Frame) :
    fetch_data yf_download (stock_symbol inp) (start_date inp) (end_date inp)
    = Ok stock_data ->
    fetch_data yf_download (market_indices (selected_index inp))
      (start_date inp) (end_date inp) = Raise e ->
    raises_in_stage yf_download inp e
| raises_transform_stock (stock_data market_data : Frame) :
    fetch_data yf_download (stock_symbol inp) (start_date inp) (end_date inp)
    = Ok stock_data ->
    fetch_data yf_download (market_indices (selected_index inp))
      (start_date inp) (end_date inp) = Ok market_data ->
    getitem stock_data "Adj Close" = Raise e ->
    raises_in_stage yf_download inp e
| raises_transform_market (stock_data market_data : Frame) (stock_adj : PriceSeries) :
    fetch_data yf_download (stock_symbol inp) (start_date inp) (end_date inp)
    = Ok stock_data ->
    fetch_data yf_download (market_indices (selected_index inp))
      (start_date inp) (end_date inp) = Ok market_data ->
    getitem stock_data "Adj Close" = Ok stock_adj ->
    getitem market_data "Adj Close" = Raise e ->
    raises_in_stage yf_download inp e
| raises_regression_fit (stock_data market_data : Frame)
    (stock_adj market_adj : PriceSeries) :
    fetch_data yf_download (stock_symbol inp) (start_date inp) (end_date inp)
    = Ok stock_data ->
    fetch_data yf_download (market_indices (selected_index inp))
      (start_date inp) (end_date inp) = Ok market_data ->
    getitem stock_data "Adj Close" = Ok stock_adj ->
    getitem market_data "Adj Close" = Ok market_adj ->
    fit_model (risk_free_rate inp) (returns_df_of stock_adj market_adj) = Raise e ->
    raises_in_stage yf_download inp e
| raises_regression_params (stock_data market_data : Frame)
    (stock_adj market_adj : PriceSeries) (model : RegressionResults) :
    fetch_data yf_download (stock_symbol inp) (start_date inp) (end_date inp)
    = Ok stock_data ->
    fetch_data yf_download (market_indices (selected_index inp))
      (start_date inp) (end_date inp) = Ok market_data ->
    getitem stock_data "Adj Close" = Ok stock_adj ->
    getitem market_data "Adj Close" = Ok market_adj ->
    fit_model (risk_free_rate inp) (returns_df_of stock_adj market_adj) = Ok model ->
    (params_getitem (params model) "Market_Return" = Raise e
     \/ ((exists b, params_getitem (params model) "Market_Return" = Ok b)
         /\ params_getitem (params model) "const" = Raise e)) ->
    raises_in_stage yf_download inp e.

(** What is on the page when the metrics are read. *)
Definition results_heading (inp : Inputs) : Page :=
  [St_columns 2;
   St_subheader [Lit (stock_symbol inp); Lit " Statistical Results"]].

(** The metrics and the two interpretation sentences of a model whose
    parameters are [beta] and [alpha]. *)
Definition results_panel (inp : Inputs) (model : RegressionResults)
    (beta alpha : R) : Page :=
  results_heading inp ++
  [St_metric "Beta" (Some (round4 beta));
   St_metric "Jensen's Alpha" (Some (round4 alpha));
   St_metric "R-squared" (option_map round4 (rsquared model));
   St_subheader [Lit "Interpretation"];
   St_write [Lit "**Beta ("; Num4 (round4 beta);
             Lit "):** This stock is "; Lit (beta_interpretation beta);
             Lit " compared to the ";
             Lit (index_name (selected_index inp))];
   St_write [Lit "**Alpha ("; Num4 (round4 alpha);
             Lit "):** This stock is "; Lit (alpha_interpretation alpha);
             Lit " the market on a risk-adjusted basis"];
   St_subheader [Lit "Visualizations"]].

(** The scatter figure of such a pass. *)
Definition full_rank_fig2 (inp : Inputs) (df : list Row) : scatter_fig :=
  mk_scatter (map Market_Return df) (map Stock_Return df)
    (TwoParams
       (mean (map Stock_Return df) - raw_slope df * mean (map Market_Return df))
       (raw_slope df))
    [Lit (stock_symbol inp); Lit " Returns vs ";
     Lit (index_name (selected_index inp)); Lit " Returns"]
    [Lit (index_name (selected_index inp)); Lit " Returns (%)"]
    [Lit (stock_symbol inp); Lit " Returns (%)"].

(** The fitted model of such a pass. *)
Definition full_rank_model (rfr : R) (df : list Row) : RegressionResults :=
  let c := risk_free_rate_monthly rfr * 100 in
  mk_results [("const", raw_intercept c df); ("Market_Return", raw_slope df)]
    (rsquared_of (ssr_line (raw_intercept c df) (raw_slope df)
                    (X_of rfr df) (y_of rfr df))
                 (y_of rfr df)).

(** ** Sample inputs *)

(** A provider that answers one symbol with a frame of the stock
    prices and any other ticker with a frame of the market prices. *)
Definition two_series_provider (symbol : string) (stock market : PriceSeries)
  : Provider :=
  fun s _ _ =>
    if String.eqb s symbol then Ok [("Adj Close", stock)]
    else Ok [("Adj Close", market)].

(** A provider that fails on every request. *)
Definition failing_provider : Provider :=
  fun _ _ _ => Raise (ProviderError "No data found, symbol may be delisted").

Definition sample_inputs (rfr : R) : Inputs := mk_inputs "AAPL" SP500 0%Z 3%Z rfr.

(** The example of the specification: four prices of the stock and of
    the market on the same four dates. *)
Definition sample_stock : PriceSeries :=
  [(0%Z, 100); (1%Z, 102); (2%Z, 101); (3%Z, 105)].

Definition sample_market : PriceSeries :=
  [(0%Z, 1000); (1%Z, 1010); (2%Z, 1005); (3%Z, 1020)].

Definition sample_returns_df : list Row :=
  [mk_row 1%Z ((102 / 100 - 1) * 100) ((1010 / 1000 - 1) * 100);
   mk_row 2%Z ((101 / 102 - 1) * 100) ((1005 / 1010 - 1) * 100);
   mk_row 3%Z ((105 / 101 - 1) * 100) ((1020 / 1005 - 1) * 100)].

(** Market prices on later dates only. *)
Definition late_market : PriceSeries :=
  [(10%Z, 1000); (11%Z, 1010); (12%Z, 1005)].

(** Two Aligned Return Pairs with the same market return. *)
Definition flat_df : list Row := [mk_row 1%Z 2 1; mk_row 2%Z (-1) 1].

(** Market prices with the returns 1 and 2, and stock prices whose
    returns are 0.00001 + 1.00001 times these. *)
Definition near_one_market : PriceSeries :=
  [(0%Z, 100); (1%Z, 101); (2%Z, 103.02)].

Definition near_zero_stock : PriceSeries :=
  [(0%Z, 100); (1%Z, 101.00002); (2%Z, 103.020050700006)].

Definition near_zero_returns_df : list Row :=
  [mk_row 1%Z ((101.00002 / 100 - 1) * 100) ((101 / 100 - 1) * 100);
   mk_row 2%Z ((103.020050700006 / 101.00002 - 1) * 100)
            ((103.02 / 101 - 1) * 100)].

(** Market prices that begin and end two dates after [sample_stock]:
    the two return series have the one date 3 in common. *)
Definition overlapping_market : PriceSeries :=
  [(2%Z, 1005); (3%Z, 1020); (4%Z, 1030)].

(** Two prices each, the market price unchanged: one Aligned Return
    Pair, with a market return of 0. *)
Definition one_pair_stock : PriceSeries := [(0%Z, 100); (1%Z, 150)].

Definition one_pair_market : PriceSeries := [(0%Z, 100); (1%Z, 100)].

Definition one_pair_returns_df : list Row :=
  [mk_row 1%Z ((150 / 100 - 1) * 100) ((100 / 100 - 1) * 100)].

(** ** The memoised fetch (line 47) *)

(** The arguments of [fetch_data], by which [st.cache_data] keys its
    entries. *)
Definition CacheKey := (string * (date * date))%type.

Definition key_eqb (k k' : CacheKey) : bool :=
  String.eqb (fst k) (fst k')
  && (Z.eqb (fst (snd k)) (fst (snd k')) && Z.eqb (snd (snd k)) (snd (snd k'))).

(** The stored return values, latest first. *)
Definition Cache := list (CacheKey * Frame).

Fixpoint cache_lookup (c : Cache) (k : CacheKey) : option Frame :=
  match c with
  | [] => None
  | (k', f) :: c' => if key_eqb k k' then Some f else cache_lookup c' k
  end.

(** [fetch_data] under [@st.cache_data]: a stored value is returned
    without running the body; otherwise the body runs, its return value
    is stored, and an exception it raises is stored nowhere. *)
Definition cached_fetch_data (yf_download : Provider) (c : Cache)
    (symbol : string) (start stop : date) : Cache * outcome Frame :=
  match cache_lookup c (symbol, (start, stop)) with
  | Some f => (c, Ok f)
  | None =>
      match fetch_data yf_download symbol start stop with
      | Ok f => (((symbol, (start, stop)), f) :: c, Ok f)
      | Raise e => (c, Raise e)
      end
  end.

(** A cache whose every entry is what the provider returns. *)
Definition cache_agrees (yf_download : Provider) (c : Cache) : Prop :=
  forall symbol start stop f,
    cache_lookup c (symbol, (start, stop)) = Some f ->
    fetch_data yf_download symbol start stop = Ok f.

(** ** Further vocabulary *)

(** Every price of a series times [k]: another unit of price. *)
Definition scale_prices (k : R) (s : PriceSeries) : PriceSeries :=
  map (fun c => (fst c, k * snd c)) s.

(** All prices of a series are positive. *)
Definition positive_prices (s : PriceSeries) : Prop :=
  forall d p, In (d, p) s -> 0 < p.

(** The residual of a row about the line [a + b * x] of the excess
    returns at the shift [c]. *)
Definition residual (c a b : R) (row : Row) : R :=
  (Stock_Return row - c) - a - b * (Market_Return row - c).

(** What a completed pass renders after the header. *)
Definition completed_body (inp : Inputs) (model : RegressionResults)
    (beta alpha : R) (fig2 : scatter_fig) (returns_df : list Row) : Page :=
  results_panel inp model beta alpha
  ++ [St_plotly_chart (Scatter fig2);
      St_plotly_chart (GroupedBar (fig3_of inp returns_df))].

(** A provider whose frames have a ["Close"] column only. *)
Definition close_only_provider (prices : PriceSeries) : Provider :=
  fun _ _ _ => Ok [("Close", prices)].

(** Three prices that grow by the same 1 per cent from date to date,
    and three stock prices on the same dates. *)
Definition steady_market : PriceSeries :=
  [(0%Z, 100); (1%Z, 101); (2%Z, 102.01)].

Definition three_day_stock : PriceSeries :=
  [(0%Z, 100); (1%Z, 102); (2%Z, 101)].

(** * Properties *)

(** ** Interpretation rules *)

(** C7: the interpretation rules are a total three-way classification
    of a real Beta about 1 and of a real Alpha about 0: in each case
    exactly the label the rule names is returned, and the four sample
    values get the labels "Aggressive", "Defensive", "Outperforming"
    and "Underperforming". *)
Theorem interpretation_rules_total :
  (forall beta : R,
      (1 < beta /\ beta_interpretation beta = "🔥 **Aggressive**")
      \/ (beta < 1 /\ beta_interpretation beta = "❄️ **Defensive**")
      \/ (beta = 1 /\ beta_interpretation beta = "➡️ **Neutral**"))
  /\ (forall alpha : R,
      (0 < alpha /\ alpha_interpretation alpha = "📈 **Outperforming**")
      \/ (alpha < 0 /\ alpha_interpretation alpha = "📉 **Underperforming**")
      \/ (alpha = 0 /\ alpha_interpretation alpha = "➡️ **Neutral**"))
  /\ contains "Aggressive" (beta_interpretation 1.2) = true
  /\ contains "Defensive" (beta_interpretation 0.8) = true
  /\ contains "Neutral" (beta_interpretation 1) = true
  /\ contains "Outperforming" (alpha_interpretation 0.05) = true
  /\ contains "Underperforming" (alpha_interpretation (-0.02)) = true
  /\ contains "Neutral" (alpha_interpretation 0) = true.
Proof.
  assert (B : forall beta : R,
      (1 < beta /\ beta_interpretation beta = "🔥 **Aggressive**")
      \/ (beta < 1 /\ beta_interpretation beta = "❄️ **Defensive**")
      \/ (beta = 1 /\ beta_interpretation beta = "➡️ **Neutral**")).
  { intros beta. unfold beta_interpretation.
    destruct (Rlt_dec 1 beta) as [Hgt | Hgt]; [now left |].
    destruct (Rlt_dec beta 1) as [Hlt | Hlt]; [now right; left |].
    right; right. split; [lra | reflexivity]. }
  assert (A : forall alpha : R,
      (0 < alpha /\ alpha_interpretation alpha = "📈 **Outperforming**")
      \/ (alpha < 0 /\ alpha_interpretation alpha = "📉 **Underperforming**")
      \/ (alpha = 0 /\ alpha_interpretation alpha = "➡️ **Neutral**")).
  { intros alpha. unfold alpha_interpretation.
    destruct (Rlt_dec 0 alpha) as [Hgt | Hgt]; [now left |].
    destruct (Rlt_dec alpha 0) as [Hlt | Hlt]; [now right; left |].
    right; right. split; [lra | reflexivity]. }
  split; [exact B |]. split; [exact A |].
  repeat split.
  - destruct (B 1.2) as [[_ E] | [[H _] | [H _]]]; [now rewrite E | lra | lra].
  - destruct (B 0.8) as [[H _] | [[_ E] | [H _]]]; [lra | now rewrite E | lra].
  - destruct (B 1) as [[H _] | [[H _] | [_ E]]]; [lra | lra | now rewrite E].
  - destruct (A 0.05) as [[_ E] | [[H _] | [H _]]]; [now rewrite E | lra | lra].
  - destruct (A (-0.02)) as [[H _] | [[_ E] | [H _]]]; [lra | now rewrite E | lra].
  - destruct (A 0) as [[H _] | [[H _] | [_ E]]]; [lra | lra | now rewrite E].
Qed.

(** ** The periodic risk-free rate *)

Lemma pow_lt_strict (a b : R) (n : nat) :
  0 <= a -> a < b -> a ^ S n < b ^ S n.
Proof.
  intros Ha Hab. induction n as [| n IH].
  - simpl. lra.
  - change (a ^ S (S n)) with (a * a ^ S n).
    change (b ^ S (S n)) with (b * b ^ S n).
    assert (0 <= a ^ S n) by (apply pow_le; exact Ha).
    nra.
Qed.

Lemma pow_inj_nonneg (a b : R) (n : nat) :
  0 <= a -> 0 <= b -> a ^ S n = b ^ S n -> a = b.
Proof.
  intros Ha Hb E.
  destruct (Rtotal_order a b) as [H | [H | H]]; [| exact H |].
  - pose proof (pow_lt_strict a b n Ha H). lra.
  - pose proof (pow_lt_strict b a n Hb H). lra.
Qed.

Lemma risk_free_rate_monthly_root (r : R) :
  0 <= r -> (1 + risk_free_rate_monthly r) ^ 12 = 1 + r / 100.
Proof.
  intros Hr. unfold risk_free_rate_monthly.
  replace (1 + (Rpower (1 + r / 100) (1 / 12) - 1))
    with (Rpower (1 + r / 100) (1 / 12)) by ring.
  rewrite <- Rpower_pow by apply exp_pos.
  rewrite Rpower_mult.
  replace (1 / 12 * INR 12) with 1 by (simpl; field).
  apply Rpower_1. lra.
Qed.

Lemma risk_free_rate_monthly_nonneg (r : R) :
  0 <= r -> 0 <= risk_free_rate_monthly r.
Proof.
  intros Hr. unfold risk_free_rate_monthly.
  assert (1 <= Rpower (1 + r / 100) (1 / 12)); [| lra].
  rewrite <- (Rpower_O (1 + r / 100)) at 1 by lra.
  apply Rle_Rpower; lra.
Qed.

Lemma risk_free_rate_monthly_pos (r : R) :
  0 < r -> 0 < risk_free_rate_monthly r.
Proof.
  intros Hr. unfold risk_free_rate_monthly.
  assert (1 < Rpower (1 + r / 100) (1 / 12)); [| lra].
  rewrite <- (Rpower_O (1 + r / 100)) at 1 by lra.
  apply Rpower_lt; lra.
Qed.

Lemma risk_free_rate_monthly_0 : risk_free_rate_monthly 0 = 0.
Proof.
  apply Rle_antisym; [| apply risk_free_rate_monthly_nonneg; lra].
  pose proof (risk_free_rate_monthly_root 0 ltac:(lra)) as E.
  pose proof (risk_free_rate_monthly_nonneg 0 ltac:(lra)) as P.
  assert (1 + risk_free_rate_monthly 0 = 1); [| lra].
  apply (pow_inj_nonneg _ _ 11); [lra | lra |].
  rewrite E. rewrite pow1. lra.
Qed.

(** C2: for an annual rate r in [0,20] the periodic rate p of line 65
    is the twelfth root of the annual growth factor, less one: it is
    the only q with 1 + q >= 0 and (1 + q)^12 = 1 + r/100.  The
    exponent is fixed: the excess columns depend on the returns only,
    not on the dates they are sampled at, and each is the return less
    p * 100. *)
Theorem periodic_rate_is_monthly_root (r : R) :
  0 <= r <= 20 ->
  let p := risk_free_rate_monthly r in
  (1 + p) ^ 12 = 1 + r / 100
  /\ 0 <= p
  /\ (forall q : R, 0 <= 1 + q -> (1 + q) ^ 12 = 1 + r / 100 -> q = p)
  /\ (forall df : list Row,
        X_of r df = map (fun row => Market_Return row - p * 100) df
        /\ y_of r df = map (fun row => Stock_Return row - p * 100) df)
  /\ (forall df df' : list Row,
        map Market_Return df = map Market_Return df' ->
        map Stock_Return df = map Stock_Return df' ->
        X_of r df = X_of r df' /\ y_of r df = y_of r df').
Proof.
  intros [Hr0 Hr20] p.
  pose proof (risk_free_rate_monthly_root r Hr0) as Hroot.
  pose proof (risk_free_rate_monthly_nonneg r Hr0) as Hp.
  split; [exact Hroot |]. split; [exact Hp |]. split; [| split].
  - intros q Hq E.
    assert (1 + q = 1 + p); [| lra].
    apply (pow_inj_nonneg _ _ 11); [exact Hq | unfold p; lra |].
    rewrite E. symmetry. exact Hroot.
  - intros df. split; reflexivity.
  - intros df df' HM HS. unfold X_of, y_of.
    rewrite <- (map_map Market_Return (fun v => v - risk_free_rate_monthly r * 100)).
    rewrite <- (map_map Market_Return (fun v => v - risk_free_rate_monthly r * 100) df').
    rewrite <- (map_map Stock_Return (fun v => v - risk_free_rate_monthly r * 100)).
    rewrite <- (map_map Stock_Return (fun v => v - risk_free_rate_monthly r * 100) df').
    rewrite HM, HS. split; reflexivity.
Qed.

(** ** Rounding of the displayed metrics *)

Lemma rint_near (x : R) (z : Z) :
  IZR z - 1 / 2 < x < IZR z + 1 / 2 -> rint x = z.
Proof.
  intros [Hlo Hhi]. unfold rint.
  destruct (Rle_dec (IZR z) x) as [Hz | Hz].
  - assert (F : Zfloor x = z) by (apply Zfloor_eq; lra).
    rewrite F. destruct (Rlt_dec (x - IZR z) (1 / 2)); [reflexivity | lra].
  - assert (F : Zfloor x = (z - 1)%Z).
    { apply Zfloor_eq. rewrite minus_IZR. lra. }
    rewrite F. rewrite minus_IZR.
    destruct (Rlt_dec (x - (IZR z - 1)) (1 / 2)); [lra |].
    destruct (Rlt_dec (1 / 2) (x - (IZR z - 1))); [f_equal; lia | lra].
Qed.

Lemma round4_near (x : R) (z : Z) :
  IZR z - 1 / 2 < x * 10 ^ 4 < IZR z + 1 / 2 -> round4 x = IZR z / 10 ^ 4.
Proof.
  intros H. unfold round4. rewrite (rint_near _ z H). reflexivity.
Qed.

(** ** Sums and moments *)

Lemma zip_fst_snd (l : list (R * R)) : zip (map fst l) (map snd l) = l.
Proof.
  induction l as [| [a b] l IH]; simpl; [reflexivity | now rewrite IH].
Qed.

Lemma sum_cons (a : R) (l : list R) : sum (a :: l) = a + sum l.
Proof. reflexivity. Qed.

Lemma sum_map_ext {A} (f g : A -> R) (l : list A) :
  (forall a, In a l -> f a = g a) -> sum (map f l) = sum (map g l).
Proof.
  intros H. induction l as [| a l IH]; simpl; [reflexivity |].
  rewrite (H a) by now left. rewrite IH; [reflexivity |].
  intros b Hb. apply H. now right.
Qed.

Lemma sum_sq_nonneg {A} (f : A -> R) (l : list A) :
  0 <= sum (map (fun a => f a ^ 2) l).
Proof.
  induction l as [| a l IH]; [simpl; lra |].
  rewrite map_cons, sum_cons.
  pose proof (pow2_ge_0 (f a)). lra.
Qed.

Lemma sum_sq_zero {A} (f : A -> R) (l : list A) :
  sum (map (fun a => f a ^ 2) l) = 0 -> forall a, In a l -> f a = 0.
Proof.
  induction l as [| b l IH]; intros E a Ha; [contradiction |].
  rewrite map_cons, sum_cons in E.
  pose proof (pow2_ge_0 (f b)) as Hb.
  pose proof (sum_sq_nonneg f l) as Hl.
  destruct Ha as [<- | Ha].
  - assert (f b ^ 2 = 0) by lra. nra.
  - apply IH; [lra | exact Ha].
Qed.

(** The sum of squared deviations about any centre, by moments. *)
Lemma sum_sq_dev (x : list R) (m : R) :
  sum (map (fun v => (v - m) ^ 2) x)
  = sum (map (fun v => v ^ 2) x) - 2 * m * sum x + INR (List.length x) * m ^ 2.
Proof.
  induction x as [| a x IH].
  - simpl. ring.
  - change (List.length (a :: x)) with (S (List.length x)). rewrite S_INR.
    rewrite !map_cons, !sum_cons, IH. ring.
Qed.

Lemma sum_cross_dev (l : list (R * R)) (mx my : R) :
  sum (map (fun p => (fst p - mx) * (snd p - my)) l)
  = sum (map (fun p => fst p * snd p) l) - mx * sum (map snd l)
    - my * sum (map fst l) + INR (List.length l) * mx * my.
Proof.
  induction l as [| [a b] l IH].
  - simpl. ring.
  - change (List.length ((a, b) :: l)) with (S (List.length l)). rewrite S_INR.
    rewrite !map_cons, !sum_cons, IH. simpl. ring.
Qed.

(** The residual sum of squares of a line, by moments. *)
Lemma ssr_line_moments (l : list (R * R)) (a b : R) :
  ssr_line a b (map fst l) (map snd l)
  = sum (map (fun v => v ^ 2) (map snd l))
    - 2 * a * sum (map snd l)
    - 2 * b * sum (map (fun p => fst p * snd p) l)
    + INR (List.length l) * a ^ 2
    + 2 * a * b * sum (map fst l)
    + b ^ 2 * sum (map (fun v => v ^ 2) (map fst l)).
Proof.
  unfold ssr_line. rewrite zip_fst_snd.
  induction l as [| [u v] l IH].
  - simpl. ring.
  - change (List.length ((u, v) :: l)) with (S (List.length l)). rewrite S_INR.
    rewrite !map_cons, !sum_cons, IH. simpl. ring.
Qed.

Lemma Sxx_nonneg (x : list R) : 0 <= Sxx x.
Proof. unfold Sxx. apply (sum_sq_nonneg (fun v => v - mean x)). Qed.

Lemma Sxx_zero_all_mean (x : list R) :
  Sxx x = 0 -> forall v, In v x -> v = mean x.
Proof.
  intros E v Hv.
  pose proof (sum_sq_zero (fun v => v - mean x) x E v Hv) as H.
  simpl in H. lra.
Qed.

Lemma sum_const (x : list R) (c : R) :
  (forall v, In v x -> v = c) -> sum x = INR (List.length x) * c.
Proof.
  induction x as [| a x IH]; intros H.
  - simpl. ring.
  - change (List.length (a :: x)) with (S (List.length x)). rewrite S_INR.
    rewrite sum_cons, IH by (intros v Hv; apply H; now right).
    rewrite (H a) by now left. ring.
Qed.

Lemma INR_length_pos {A} (a : A) (l : list A) : 0 < INR (List.length (a :: l)).
Proof. apply lt_0_INR. simpl. lia. Qed.

Lemma mean_const (x : list R) (c : R) :
  x <> [] -> (forall v, In v x -> v = c) -> mean x = c.
Proof.
  intros Hne H. unfold mean. rewrite (sum_const x c H).
  destruct x as [| a x]; [congruence |].
  pose proof (INR_length_pos a x). field. lra.
Qed.

Lemma Sxx_const (x : list R) (c : R) :
  (forall v, In v x -> v = c) -> Sxx x = 0.
Proof.
  intros H. destruct x as [| a x]; [reflexivity |].
  assert (M : mean (a :: x) = c) by (apply mean_const; [discriminate | exact H]).
  unfold Sxx. rewrite M.
  rewrite (sum_map_ext _ (fun _ => 0)).
  - clear. induction (a :: x); simpl; [reflexivity |]. unfold sum in *. lra.
  - intros v Hv. rewrite (H v Hv). ring.
Qed.

(** A column with two different cells has a positive spread. *)
Lemma Sxx_two_distinct (x : list R) (u v : R) :
  In u x -> In v x -> u <> v -> Sxx x <> 0.
Proof.
  intros Hu Hv Huv E.
  pose proof (Sxx_zero_all_mean x E u Hu).
  pose proof (Sxx_zero_all_mean x E v Hv). lra.
Qed.

Lemma Sxx_nonzero_nonempty (x : list R) : Sxx x <> 0 -> x <> [].
Proof. intros H ->. apply H. reflexivity. Qed.

(** ** The least-squares line *)

Lemma Sxx_moments (l : list (R * R)) :
  Sxx (map fst l)
  = sum (map (fun v => v ^ 2) (map fst l))
    - 2 * mean (map fst l) * sum (map fst l)
    + INR (List.length l) * mean (map fst l) ^ 2.
Proof. unfold Sxx. rewrite sum_sq_dev, length_map. reflexivity. Qed.

Lemma Sxy_moments (l : list (R * R)) :
  Sxy (map fst l) (map snd l)
  = sum (map (fun p => fst p * snd p) l)
    - mean (map fst l) * sum (map snd l)
    - mean (map snd l) * sum (map fst l)
    + INR (List.length l) * mean (map fst l) * mean (map snd l).
Proof. unfold Sxy. rewrite zip_fst_snd, sum_cross_dev. reflexivity. Qed.

(** Around the fitted line the residual sum of squares is a sum of
    two squares. *)
Lemma ssr_line_decomposition (l : list (R * R)) (a b : R) :
  let x := map fst l in
  let y := map snd l in
  let beta := Sxy x y / Sxx x in
  let alpha := mean y - beta * mean x in
  Sxx x <> 0 ->
  ssr_line a b x y
  = ssr_line alpha beta x y
    + INR (List.length l) * (a - alpha + (b - beta) * mean x) ^ 2
    + (b - beta) ^ 2 * Sxx x.
Proof.
  intros x y beta alpha HS.
  assert (Hn : INR (List.length l) <> 0).
  { destruct l as [| p l]; [exfalso; apply HS; reflexivity |].
    pose proof (INR_length_pos p l). lra. }
  subst alpha beta. unfold x, y in *. clear x y.
  rewrite !ssr_line_moments.
  rewrite Sxy_moments. revert HS. rewrite Sxx_moments.
  unfold mean. rewrite !length_map.
  generalize (sum (map (fun v => v ^ 2) (map snd l))) as syy.
  generalize (sum (map (fun p => fst p * snd p) l)) as sxy.
  generalize (sum (map (fun v => v ^ 2) (map fst l))) as sxx.
  generalize (sum (map fst l)) as sx.
  generalize (sum (map snd l)) as sy.
  generalize dependent (INR (List.length l)).
  intros n Hn sy sx sxx sxy syy HS.
  field. split; [exact Hn |].
  intros E. apply HS.
  replace (sxx - 2 * (sx / n) * sx + n * (sx / n) ^ 2)
    with ((sxx * n - 2 * sx * sx + sx ^ 2) / n) by (field; exact Hn).
  rewrite E. field. exact Hn.
Qed.

Lemma centered_tss_as_line (l : list (R * R)) :
  centered_tss (map snd l) = ssr_line (mean (map snd l)) 0 (map fst l) (map snd l).
Proof.
  unfold centered_tss, ssr_line. rewrite zip_fst_snd, map_map.
  apply sum_map_ext. intros p _. ring.
Qed.

Lemma ssr_line_nonneg (a b : R) (x y : list R) : 0 <= ssr_line a b x y.
Proof. unfold ssr_line. apply (sum_sq_nonneg (fun p => snd p - a - b * fst p)). Qed.

(** The fitted line is the one minimiser of the residual sum of
    squares. *)
Lemma ols_line_minimal (l : list (R * R)) :
  let x := map fst l in
  let y := map snd l in
  let beta := Sxy x y / Sxx x in
  let alpha := mean y - beta * mean x in
  Sxx x <> 0 ->
  (forall a b, ssr_line alpha beta x y <= ssr_line a b x y)
  /\ (forall a b, ssr_line a b x y = ssr_line alpha beta x y ->
                  a = alpha /\ b = beta).
Proof.
  intros x y beta alpha HS.
  assert (Hpos : 0 < Sxx x) by (pose proof (Sxx_nonneg x); lra).
  assert (Hn : 0 < INR (List.length l)).
  { destruct l as [| p l]; [exfalso; apply HS; reflexivity |].
    apply INR_length_pos. }
  pose proof (fun a b => ssr_line_decomposition l a b HS) as D.
  cbv zeta in D. subst x y beta alpha.
  set (x := map fst l) in *. set (y := map snd l) in *.
  set (beta := Sxy x y / Sxx x) in *.
  set (alpha := mean y - beta * mean x) in *.
  split; intros a b.
  - rewrite (D a b).
    pose proof (pow2_ge_0 (a - alpha + (b - beta) * mean x)).
    pose proof (pow2_ge_0 (b - beta)). nra.
  - rewrite (D a b). intros E.
    pose proof (pow2_ge_0 (a - alpha + (b - beta) * mean x)) as H1.
    pose proof (pow2_ge_0 (b - beta)) as H2.
    assert (Hb : (b - beta) ^ 2 = 0) by nra.
    assert (Ha : (a - alpha + (b - beta) * mean x) ^ 2 = 0) by nra.
    assert (b = beta) by nra. subst b.
    split; [| reflexivity].
    replace (a - alpha + (beta - beta) * mean x) with (a - alpha) in Ha by ring.
    nra.
Qed.

(** ** The constant-column test *)

Lemma list_max_bounds (l : list R) (a : R) :
  a <= list_max a l /\ forall v, In v l -> v <= list_max a l.
Proof.
  revert a. induction l as [| b l IH]; intros a; simpl.
  - split; [lra | contradiction].
  - destruct (IH (Rmax a b)) as [H1 H2].
    pose proof (Rmax_l a b). pose proof (Rmax_r a b).
    split; [lra |]. intros v [<- | Hv]; [lra | now apply H2].
Qed.

Lemma list_min_bounds (l : list R) (a : R) :
  list_min a l <= a /\ forall v, In v l -> list_min a l <= v.
Proof.
  revert a. induction l as [| b l IH]; intros a; simpl.
  - split; [lra | contradiction].
  - destruct (IH (Rmin a b)) as [H1 H2].
    pose proof (Rmin_l a b). pose proof (Rmin_r a b).
    split; [lra |]. intros v [<- | Hv]; [lra | now apply H2].
Qed.

Lemma list_max_const (l : list R) (a : R) :
  (forall v, In v l -> v = a) -> list_max a l = a.
Proof.
  induction l as [| b l IH]; intros H; simpl; [reflexivity |].
  rewrite (H b) by now left.
  unfold Rmax. destruct (Rle_dec a a); apply IH; intros v Hv; apply H; now right.
Qed.

Lemma list_min_const (l : list R) (a : R) :
  (forall v, In v l -> v = a) -> list_min a l = a.
Proof.
  induction l as [| b l IH]; intros H; simpl; [reflexivity |].
  rewrite (H b) by now left.
  unfold Rmin. destruct (Rle_dec a a); apply IH; intros v Hv; apply H; now right.
Qed.

Lemma Req_bool_true (a b : R) : Req_bool a b = true <-> a = b.
Proof. unfold Req_bool. destruct (Req_dec_T a b); split; congruence. Qed.

Lemma Req_bool_false (a b : R) : Req_bool a b = false <-> a <> b.
Proof. unfold Req_bool. destruct (Req_dec_T a b); split; congruence. Qed.

(** The test answers [True] exactly on a non-empty column whose cells
    all equal one non-zero number. *)
Lemma is_nonzero_const_spec (x : list R) :
  is_nonzero_const x = true
  <-> exists c, c <> 0 /\ x <> [] /\ forall v, In v x -> v = c.
Proof.
  unfold is_nonzero_const. destruct x as [| a l]; simpl np_ptp.
  - split; [discriminate | intros (c & _ & H & _); congruence].
  - rewrite andb_true_iff, Req_bool_true, existsb_exists.
    destruct (list_max_bounds l a) as [M1 M2].
    destruct (list_min_bounds l a) as [m1 m2].
    split.
    + intros [Hp (v & Hv & Hnz)].
      assert (Hall : forall w, In w (a :: l) -> w = a).
      { intros w [<- | Hw]; [reflexivity |].
        pose proof (M2 w Hw). pose proof (m2 w Hw). lra. }
      exists a. split; [| split; [discriminate | exact Hall]].
      apply negb_true_iff, Req_bool_false in Hnz.
      rewrite <- (Hall v Hv). exact Hnz.
    + intros (c & Hc & _ & Hall).
      assert (Ha : a = c) by (apply Hall; now left).
      assert (Hl : forall v, In v l -> v = a).
      { intros v Hv. rewrite Ha. apply Hall. now right. }
      split.
      * rewrite list_max_const, list_min_const by exact Hl. ring.
      * exists a. split; [now left |].
        apply negb_true_iff, Req_bool_false. congruence.
Qed.

Lemma is_nonzero_const_full_rank (x : list R) :
  Sxx x <> 0 -> is_nonzero_const x = false.
Proof.
  intros HS. destruct (is_nonzero_const x) eqn:E; [| reflexivity].
  apply is_nonzero_const_spec in E. destruct E as (c & _ & _ & Hall).
  exfalso. apply HS. apply (Sxx_const x c Hall).
Qed.

(** ** The fitted model of the excess returns *)

Lemma X_of_pairs (r : R) (df : list Row) :
  X_of r df = map fst (shift_pairs (risk_free_rate_monthly r * 100) (pairs_of df)).
Proof. unfold X_of, shift_pairs, pairs_of. rewrite !map_map. reflexivity. Qed.

Lemma y_of_pairs (r : R) (df : list Row) :
  y_of r df = map snd (shift_pairs (risk_free_rate_monthly r * 100) (pairs_of df)).
Proof. unfold y_of, shift_pairs, pairs_of. rewrite !map_map. reflexivity. Qed.

Lemma Market_Return_pairs (df : list Row) :
  map Market_Return df = map fst (pairs_of df).
Proof. unfold pairs_of. rewrite map_map. reflexivity. Qed.

Lemma Stock_Return_pairs (df : list Row) :
  map Stock_Return df = map snd (pairs_of df).
Proof. unfold pairs_of. rewrite map_map. reflexivity. Qed.

Lemma sum_shift {A} (f : A -> R) (c : R) (l : list A) :
  sum (map (fun a => f a - c) l) = sum (map f l) - INR (List.length l) * c.
Proof.
  induction l as [| a l IH].
  - simpl. ring.
  - change (List.length (a :: l)) with (S (List.length l)). rewrite S_INR.
    rewrite !map_cons, !sum_cons, IH. ring.
Qed.

Lemma mean_shift_fst (c : R) (l : list (R * R)) :
  l <> [] -> mean (map fst (shift_pairs c l)) = mean (map fst l) - c.
Proof.
  intros Hne. unfold mean, shift_pairs. rewrite map_map, !length_map.
  change (fun x => fst (fst x - c, snd x - c)) with (fun x : R * R => fst x - c).
  rewrite sum_shift.
  destruct l as [| p l]; [congruence |].
  pose proof (INR_length_pos p l). field. lra.
Qed.

Lemma mean_shift_snd (c : R) (l : list (R * R)) :
  l <> [] -> mean (map snd (shift_pairs c l)) = mean (map snd l) - c.
Proof.
  intros Hne. unfold mean, shift_pairs. rewrite map_map, !length_map.
  change (fun x => snd (fst x - c, snd x - c)) with (fun x : R * R => snd x - c).
  rewrite sum_shift.
  destruct l as [| p l]; [congruence |].
  pose proof (INR_length_pos p l). field. lra.
Qed.

(** Spread and co-spread do not see a common shift of the columns. *)
Lemma Sxx_shift (c : R) (l : list (R * R)) :
  Sxx (map fst (shift_pairs c l)) = Sxx (map fst l).
Proof.
  destruct l as [| p l]; [reflexivity |].
  unfold Sxx. rewrite mean_shift_fst by discriminate.
  unfold shift_pairs. rewrite !map_map.
  apply sum_map_ext. intros q _. simpl. ring.
Qed.

Lemma Sxy_shift (c : R) (l : list (R * R)) :
  Sxy (map fst (shift_pairs c l)) (map snd (shift_pairs c l))
  = Sxy (map fst l) (map snd l).
Proof.
  destruct l as [| p l]; [reflexivity |].
  unfold Sxy. rewrite !zip_fst_snd.
  rewrite mean_shift_fst, mean_shift_snd by discriminate.
  unfold shift_pairs. rewrite !map_map.
  apply sum_map_ext. intros q _. simpl. ring.
Qed.

Lemma pairs_of_nil (df : list Row) : pairs_of df = [] <-> df = [].
Proof. destruct df; simpl; split; congruence. Qed.

Lemma fit_model_full_rank (r : R) (df : list Row) :
  Sxx (map Market_Return df) <> 0 ->
  let c := risk_free_rate_monthly r * 100 in
  fit_model r df
  = Ok (mk_results [("const", raw_intercept c df);
                    ("Market_Return", raw_slope df)]
          (rsquared_of (ssr_line (raw_intercept c df) (raw_slope df)
                          (X_of r df) (y_of r df))
                       (y_of r df))).
Proof.
  intros HS c.
  assert (Hne : pairs_of df <> []).
  { intros E. apply pairs_of_nil in E. subst df. apply HS. reflexivity. }
  assert (HSX : Sxx (X_of r df) <> 0).
  { rewrite X_of_pairs, Sxx_shift, <- Market_Return_pairs. exact HS. }
  assert (Hb : Sxy (X_of r df) (y_of r df) / Sxx (X_of r df) = raw_slope df).
  { unfold raw_slope. rewrite X_of_pairs, y_of_pairs, Sxx_shift, Sxy_shift.
    rewrite <- Market_Return_pairs, <- Stock_Return_pairs. reflexivity. }
  assert (Ha : mean (y_of r df) - raw_slope df * mean (X_of r df)
               = raw_intercept c df).
  { unfold raw_intercept. rewrite X_of_pairs, y_of_pairs.
    rewrite mean_shift_fst, mean_shift_snd by exact Hne.
    rewrite <- Market_Return_pairs, <- Stock_Return_pairs. reflexivity. }
  unfold fit_model, add_constant.
  rewrite (is_nonzero_const_full_rank _ HSX).
  unfold OLS_fit.
  destruct (y_of r df) as [| y0 ys] eqn:Ey.
  { exfalso. apply Hne. apply pairs_of_nil.
    unfold y_of in Ey. destruct df; [reflexivity | discriminate]. }
  destruct (Req_dec_T (Sxx (X_of r df)) 0) as [E | _]; [contradiction |].
  rewrite Hb, Ha. reflexivity.
Qed.

Lemma fit_model_nil (r : R) : fit_model r [] = Raise (ValueError zero_size_msg).
Proof. reflexivity. Qed.

Lemma fit_model_nonempty (rfr : R) (df : list Row) :
  df <> [] ->
  exists model beta,
    fit_model rfr df = Ok model
    /\ params_getitem (params model) "Market_Return" = Ok beta
    /\ (is_nonzero_const (X_of rfr df) = true ->
        params_getitem (params model) "const" = Raise (KeyError "const"))
    /\ (is_nonzero_const (X_of rfr df) = false ->
        exists alpha, params_getitem (params model) "const" = Ok alpha).
Proof.
  intros Hne. unfold fit_model, add_constant, OLS_fit.
  destruct (y_of rfr df) as [| y0 ys] eqn:Ey.
  { unfold y_of in Ey. destruct df; [congruence | discriminate]. }
  rewrite <- Ey.
  destruct (is_nonzero_const (X_of rfr df)).
  - eexists. eexists. split; [reflexivity |]. split; [reflexivity |].
    split; [reflexivity | discriminate].
  - destruct (Req_dec_T (Sxx (X_of rfr df)) 0);
      (eexists; eexists; split; [reflexivity |]; split; [reflexivity |];
       split; [discriminate | intros _; eexists; reflexivity]).
Qed.

(** What a fit that has both parameters can be: the full-rank line, or
    the least-norm fit of a market column that is zero after the
    shift. *)
Lemma fit_model_cases (r : R) (df : list Row) (m : RegressionResults) (a b : R) :
  fit_model r df = Ok m ->
  params_getitem (params m) "Market_Return" = Ok b ->
  params_getitem (params m) "const" = Ok a ->
  let c := risk_free_rate_monthly r * 100 in
  (Sxx (map Market_Return df) <> 0
   /\ b = raw_slope df /\ a = raw_intercept c df)
  \/ (df <> []
      /\ (forall row, In row df -> Market_Return row = c)
      /\ b = 0 /\ a = mean (map Stock_Return df) - c).
Proof.
  intros Hfit Hb Ha c.
  destruct (Req_dec_T (Sxx (map Market_Return df)) 0) as [E | NE].
  - right.
    assert (Hne : df <> []).
    { intros ->. rewrite fit_model_nil in Hfit. discriminate. }
    assert (Hpne : pairs_of df <> []) by (rewrite pairs_of_nil; exact Hne).
    assert (EX : Sxx (X_of r df) = 0).
    { rewrite X_of_pairs, Sxx_shift, <- Market_Return_pairs. exact E. }
    pose proof (Sxx_zero_all_mean _ EX) as Hall.
    assert (HXne : X_of r df <> []).
    { unfold X_of. destruct df; [congruence | discriminate]. }
    unfold fit_model, add_constant, OLS_fit in Hfit.
    destruct (y_of r df) as [| y0 ys] eqn:Ey; [discriminate |].
    destruct (is_nonzero_const (X_of r df)) eqn:Ec.
    + injection Hfit as <-. simpl in Ha. discriminate.
    + assert (M0 : mean (X_of r df) = 0).
      { destruct (Req_dec_T (mean (X_of r df)) 0) as [Z | NZ]; [exact Z |].
        assert (is_nonzero_const (X_of r df) = true); [| congruence].
        apply is_nonzero_const_spec. exists (mean (X_of r df)). auto. }
      destruct (Req_dec_T (Sxx (X_of r df)) 0) as [_ | C]; [| contradiction].
      injection Hfit as <-. simpl in Ha, Hb.
      injection Ha as <-. injection Hb as <-.
      split; [exact Hne |]. split; [| split].
      * intros row Hrow.
        assert (Hin : In (Market_Return row - c) (X_of r df)).
        { unfold X_of. apply (in_map (fun r0 => Market_Return r0 - c)). exact Hrow. }
        apply Hall in Hin. rewrite M0 in Hin. lra.
      * rewrite M0. field.
      * rewrite M0, <- Ey, y_of_pairs, mean_shift_snd by exact Hpne.
        rewrite <- Stock_Return_pairs. fold c. field.
  - left. split; [exact NE |].
    rewrite (fit_model_full_rank r df NE) in Hfit.
    injection Hfit as <-. simpl in Ha, Hb.
    injection Ha as <-. injection Hb as <-. split; reflexivity.
Qed.

(** C3: when the regression is defined under two risk-free rates (the
    model is fitted and has both parameters), which shifts both excess
    columns by the same constant on every row, the fitted Beta is the
    same and Alpha moves by -(p2 - p1) * 100 * (1 - Beta), where p1 and
    p2 are the two periodic rates. *)
Theorem beta_invariant_alpha_shift
    (df : list Row) (r1 r2 : R) (m1 m2 : RegressionResults) (a1 b1 a2 b2 : R) :
  fit_model r1 df = Ok m1 ->
  params_getitem (params m1) "Market_Return" = Ok b1 ->
  params_getitem (params m1) "const" = Ok a1 ->
  fit_model r2 df = Ok m2 ->
  params_getitem (params m2) "Market_Return" = Ok b2 ->
  params_getitem (params m2) "const" = Ok a2 ->
  let shift := (risk_free_rate_monthly r2 - risk_free_rate_monthly r1) * 100 in
  X_of r2 df = map (fun v => v - shift) (X_of r1 df)
  /\ y_of r2 df = map (fun v => v - shift) (y_of r1 df)
  /\ b2 = b1
  /\ a2 - a1
     = - ((risk_free_rate_monthly r2 - risk_free_rate_monthly r1) * 100 * (1 - b1)).
Proof.
  intros F1 B1 A1 F2 B2 A2 shift.
  split; [unfold X_of; rewrite map_map; apply map_ext; intros row;
          unfold shift; ring |].
  split; [unfold y_of; rewrite map_map; apply map_ext; intros row;
          unfold shift; ring |].
  pose proof (fit_model_cases r1 df m1 a1 b1 F1 B1 A1) as C1.
  pose proof (fit_model_cases r2 df m2 a2 b2 F2 B2 A2) as C2.
  cbv zeta in C1, C2.
  destruct C1 as [(S1 & -> & ->) | (Hne & Hc1 & -> & ->)];
    destruct C2 as [(S2 & -> & ->) | (Hne2 & Hc2 & -> & ->)].
  - split; [reflexivity |]. unfold raw_intercept. ring.
  - exfalso. apply S1.
    apply (Sxx_const _ (risk_free_rate_monthly r2 * 100)).
    intros v Hv. apply in_map_iff in Hv. destruct Hv as (row & <- & Hrow).
    now apply Hc2.
  - exfalso. apply S2.
    apply (Sxx_const _ (risk_free_rate_monthly r1 * 100)).
    intros v Hv. apply in_map_iff in Hv. destruct Hv as (row & <- & Hrow).
    now apply Hc1.
  - split; [reflexivity |].
    destruct df as [| row df]; [congruence |].
    pose proof (Hc1 row (or_introl eq_refl)).
    pose proof (Hc2 row (or_introl eq_refl)). lra.
Qed.

(** ** Running the script *)

Lemma bind_lift_ok {A B} (a : A) (k : A -> St B) (p : Page) :
  bind (lift (Ok a)) k p = k a p.
Proof. reflexivity. Qed.

Lemma bind_lift_raise {A B} (e : exn) (k : A -> St B) (p : Page) :
  bind (lift (@Raise A e)) k p = (p, Raise e).
Proof. reflexivity. Qed.

Lemma bind_emit {B} (w : widget) (k : unit -> St B) (p : Page) :
  bind (emit w) k p = k tt (p ++ [w]).
Proof. reflexivity. Qed.

Lemma bind_assoc {A B C} (m : St A) (k : A -> St B) (h : B -> St C) (p : Page) :
  bind (bind m k) h p = bind m (fun a => bind (k a) h) p.
Proof. unfold bind. destruct (m p) as [p' [a | e]]; reflexivity. Qed.

Lemma except_handler_run (e : exn) (p : Page) :
  except_handler e p = (p ++ error_report e, Ok tt).
Proof.
  unfold except_handler. rewrite bind_emit. unfold emit, error_report.
  rewrite <- app_assoc. reflexivity.
Qed.

Lemma script_run (yf_download : Provider) (inp : Inputs) :
  render yf_download inp
  = match try_body yf_download inp page_header with
    | (p, Ok _) => (p, Ok tt)
    | (p, Raise e) => (p ++ error_report e, Ok tt)
    end.
Proof.
  unfold render, script. rewrite !bind_emit. simpl app.
  unfold try_except. fold page_header.
  destruct (try_body yf_download inp page_header) as [p [[] | e]];
    [reflexivity | apply except_handler_run].
Qed.

(** No exception escapes a pass. *)
Lemma render_catches_all (yf_download : Provider) (inp : Inputs) :
  snd (render yf_download inp) = Ok tt.
Proof.
  rewrite script_run.
  destruct (try_body yf_download inp page_header) as [p [[] | e]]; reflexivity.
Qed.

Lemma show_metrics_run {B} (metrics : list (string * value))
    (k : unit -> St B) (p : Page) :
  bind (show_metrics metrics) k p
  = k tt (p ++ map (fun mv => St_metric (fst mv) (snd mv)) metrics).
Proof.
  revert p. induction metrics as [| [metric v] rest IH]; intros p.
  - simpl. rewrite app_nil_r. reflexivity.
  - simpl show_metrics. rewrite bind_assoc, bind_emit, IH.
    simpl. rewrite <- app_assoc. reflexivity.
Qed.

Ltac step_ok H := rewrite H, bind_lift_ok.
Ltac step_raise H := rewrite H, bind_lift_raise.

Section Pass.

Variable yf_download : Provider.
Variable inp : Inputs.

Let fetch_stock :=
  fetch_data yf_download (stock_symbol inp) (start_date inp) (end_date inp).
Let fetch_market :=
  fetch_data yf_download (market_indices (selected_index inp))
    (start_date inp) (end_date inp).

Lemma body_fetch_stock_raises (e : exn) (p : Page) :
  fetch_stock = Raise e -> try_body yf_download inp p = (p, Raise e).
Proof. intros H. unfold try_body. fold fetch_stock. now step_raise H. Qed.

Lemma body_fetch_market_raises (stock_data : Frame) (e : exn) (p : Page) :
  fetch_stock = Ok stock_data -> fetch_market = Raise e ->
  try_body yf_download inp p = (p, Raise e).
Proof.
  intros H1 H2. unfold try_body. fold fetch_stock fetch_market.
  step_ok H1. now step_raise H2.
Qed.

Variables stock_data market_data : Frame.
Hypothesis Hstock : fetch_stock = Ok stock_data.
Hypothesis Hmarket : fetch_market = Ok market_data.

Lemma body_getitem_stock_raises (e : exn) (p : Page) :
  getitem stock_data "Adj Close" = Raise e ->
  try_body yf_download inp p = (p, Raise e).
Proof.
  intros H. unfold try_body. fold fetch_stock fetch_market.
  step_ok Hstock. step_ok Hmarket. now step_raise H.
Qed.

Variable stock_adj : PriceSeries.
Hypothesis Hsadj : getitem stock_data "Adj Close" = Ok stock_adj.

Lemma body_getitem_market_raises (e : exn) (p : Page) :
  getitem market_data "Adj Close" = Raise e ->
  try_body yf_download inp p = (p, Raise e).
Proof.
  intros H. unfold try_body. fold fetch_stock fetch_market.
  step_ok Hstock. step_ok Hmarket. step_ok Hsadj. now step_raise H.
Qed.

Variable market_adj : PriceSeries.
Hypothesis Hmadj : getitem market_data "Adj Close" = Ok market_adj.

Let returns_df := returns_df_of stock_adj market_adj.

Lemma body_fit_raises (e : exn) (p : Page) :
  fit_model (risk_free_rate inp) returns_df = Raise e ->
  try_body yf_download inp p = (p, Raise e).
Proof.
  intros H. unfold try_body. fold fetch_stock fetch_market.
  step_ok Hstock. step_ok Hmarket. step_ok Hsadj. step_ok Hmadj.
  cbv zeta. fold returns_df. now step_raise H.
Qed.

Variable model : RegressionResults.
Hypothesis Hfit : fit_model (risk_free_rate inp) returns_df = Ok model.

Lemma body_beta_raises (e : exn) (p : Page) :
  params_getitem (params model) "Market_Return" = Raise e ->
  try_body yf_download inp p = (p ++ results_heading inp, Raise e).
Proof.
  intros H. unfold try_body. fold fetch_stock fetch_market.
  step_ok Hstock. step_ok Hmarket. step_ok Hsadj. step_ok Hmadj.
  cbv zeta. fold returns_df. step_ok Hfit. rewrite !bind_emit.
  step_raise H. unfold results_heading. now rewrite <- app_assoc.
Qed.

Variable beta : R.
Hypothesis Hbeta : params_getitem (params model) "Market_Return" = Ok beta.

Lemma body_alpha_raises (e : exn) (p : Page) :
  params_getitem (params model) "const" = Raise e ->
  try_body yf_download inp p = (p ++ results_heading inp, Raise e).
Proof.
  intros H. unfold try_body. fold fetch_stock fetch_market.
  step_ok Hstock. step_ok Hmarket. step_ok Hsadj. step_ok Hmadj.
  cbv zeta. fold returns_df. step_ok Hfit. rewrite !bind_emit.
  step_ok Hbeta. step_raise H. unfold results_heading.
  now rewrite <- app_assoc.
Qed.

Variable alpha : R.
Hypothesis Halpha : params_getitem (params model) "const" = Ok alpha.

Lemma body_chart_raises (e : exn) (p : Page) :
  fig2_of inp returns_df = Raise e ->
  try_body yf_download inp p = (p ++ results_panel inp model beta alpha, Raise e).
Proof.
  intros H. unfold try_body. fold fetch_stock fetch_market.
  step_ok Hstock. step_ok Hmarket. step_ok Hsadj. step_ok Hmadj.
  cbv zeta. fold returns_df. step_ok Hfit. rewrite !bind_emit.
  step_ok Hbeta. step_ok Halpha. rewrite show_metrics_run. simpl map.
  rewrite !bind_emit, !bind_lift_ok.
  rewrite !bind_emit. step_raise H.
  unfold results_panel, results_heading.
  rewrite <- !app_assoc. reflexivity.
Qed.

Lemma body_succeeds (fig2 : scatter_fig) (p : Page) :
  fig2_of inp returns_df = Ok fig2 ->
  try_body yf_download inp p
  = (p ++ results_panel inp model beta alpha
       ++ [St_plotly_chart (Scatter fig2);
           St_plotly_chart (GroupedBar (fig3_of inp returns_df))],
     Ok tt).
Proof.
  intros H. unfold try_body. fold fetch_stock fetch_market.
  step_ok Hstock. step_ok Hmarket. step_ok Hsadj. step_ok Hmadj.
  cbv zeta. fold returns_df. step_ok Hfit. rewrite !bind_emit.
  step_ok Hbeta. step_ok Halpha. rewrite show_metrics_run. simpl map.
  rewrite !bind_emit, !bind_lift_ok.
  rewrite !bind_emit. step_ok H. rewrite bind_emit. unfold emit.
  unfold results_panel, results_heading.
  rewrite <- !app_assoc. reflexivity.
Qed.

End Pass.

(** ** The error boundary *)

(** C9: when the fetch, the return transform or the regression of a
    pass raises, the exception does not escape; the page is the header,
    at most the empty results heading, then the generic error message
    with the text of the exception and the hint to check the stock
    symbol; no metric, interpretation sentence or chart is on it. *)
Theorem errors_caught_at_boundary
    (yf_download : Provider) (inp : Inputs) (e : exn)
    (H : raises_in_stage yf_download inp e) :
  snd (render yf_download inp) = Ok tt
  /\ (fst (render yf_download inp) = page_header ++ error_report e
      \/ fst (render yf_download inp)
         = page_header ++ results_heading inp ++ error_report e)
  /\ existsb is_result (fst (render yf_download inp)) = false.
Proof.
  split; [apply render_catches_all |].
  rewrite script_run.
  destruct H as [H | sd H1 H | sd md H1 H2 H | sd md sa H1 H2 H3 H
                 | sd md sa ma H1 H2 H3 H4 H
                 | sd md sa ma model H1 H2 H3 H4 H5 [H | [[b Hb] H]]].
  - rewrite (body_fetch_stock_raises _ _ e _ H).
    split; [left |]; reflexivity.
  - rewrite (body_fetch_market_raises _ _ sd e _ H1 H).
    split; [left |]; reflexivity.
  - rewrite (body_getitem_stock_raises _ _ sd md H1 H2 e _ H).
    split; [left |]; reflexivity.
  - rewrite (body_getitem_market_raises _ _ sd md H1 H2 sa H3 e _ H).
    split; [left |]; reflexivity.
  - rewrite (body_fit_raises _ _ sd md H1 H2 sa H3 ma H4 e _ H).
    split; [left |]; reflexivity.
  - rewrite (body_beta_raises _ _ sd md H1 H2 sa H3 ma H4 model H5 e _ H).
    split; [right; cbn [fst]; now rewrite <- app_assoc | reflexivity].
  - rewrite (body_alpha_raises _ _ sd md H1 H2 sa H3 ma H4 model H5 b Hb e _ H).
    split; [right; cbn [fst]; now rewrite <- app_assoc | reflexivity].
Qed.

(** ** Empty overlap *)

Lemma at_label_series_mul (s : Series) (k : R) (d : date) :
  at_label (series_mul s k) d = option_map (fun x => x * k) (at_label s d).
Proof.
  induction s as [| [e v] s IH]; simpl; [reflexivity |].
  destruct (d =? e)%Z; [reflexivity | exact IH].
Qed.

Lemma at_label_in (s : Series) (d : date) (v : R) :
  at_label s d = Some v -> In d (map fst s).
Proof.
  induction s as [| [e w] s IH]; simpl; [discriminate |].
  destruct (d =? e)%Z eqn:E; [| auto].
  intros _. left. symmetry. now apply Z.eqb_eq.
Qed.

Lemma map_fst_pct_change_from (prev : R) (s : PriceSeries) :
  map fst (pct_change_from prev s) = map fst s.
Proof.
  revert prev. induction s as [| [d p] s IH]; intros prev; simpl;
    [reflexivity | now rewrite IH].
Qed.

Lemma map_fst_pct_change (s : PriceSeries) : map fst (pct_change s) = map fst s.
Proof.
  destruct s as [| [d p] s]; simpl; [reflexivity |].
  now rewrite map_fst_pct_change_from.
Qed.

Lemma map_fst_series_mul (s : Series) (k : R) :
  map fst (series_mul s k) = map fst s.
Proof. unfold series_mul. rewrite map_map. reflexivity. Qed.

Lemma map_fst_Return (s : PriceSeries) : map fst (Return s) = map fst s.
Proof. unfold Return. now rewrite map_fst_series_mul, map_fst_pct_change. Qed.

Lemma at_label_Return_in (s : PriceSeries) (d : date) (v : R) :
  at_label (Return s) d = Some v -> In d (map fst s).
Proof. intros H. apply at_label_in in H. now rewrite map_fst_Return in H. Qed.

Lemma at_label_Return_short (s : PriceSeries) (d : date) :
  (List.length s < 2)%nat -> at_label (Return s) d = None.
Proof.
  intros Hlen. destruct s as [| [d0 p0] [| q s]]; simpl in *; [reflexivity | | lia].
  destruct (d =? d0)%Z; reflexivity.
Qed.

Lemma dropna_all_missing (rows : list RawRow) :
  (forall d a b, In (d, (a, b)) rows -> a = None \/ b = None) ->
  dropna rows = [].
Proof.
  induction rows as [| [d [a b]] rows IH]; intros H; [reflexivity |].
  assert (IH' : dropna rows = []).
  { apply IH. intros d' a' b' Hin. apply (H d'). now right. }
  destruct (H d a b (or_introl eq_refl)) as [-> | ->]; simpl.
  - exact IH'.
  - destruct a; exact IH'.
Qed.

Lemma returns_df_of_empty (stock_adj market_adj : PriceSeries) :
  (forall d, ~ (In d (map fst stock_adj) /\ In d (map fst market_adj)))
  \/ (List.length stock_adj < 2)%nat \/ (List.length market_adj < 2)%nat ->
  returns_df_of stock_adj market_adj = [].
Proof.
  intros H. unfold returns_df_of, DataFrame.
  apply dropna_all_missing. intros d a b Hin.
  apply in_map_iff in Hin. destruct Hin as (d' & E & _).
  injection E as -> <- <-.
  destruct H as [H | [H | H]].
  - destruct (at_label (Return stock_adj) d) as [v |] eqn:Es; [| now left].
    destruct (at_label (Return market_adj) d) as [w |] eqn:Em; [| now right].
    exfalso. apply (H d). split; eapply at_label_Return_in; eassumption.
  - left. now apply at_label_Return_short.
  - right. now apply at_label_Return_short.
Qed.

(** C6: when the two fetched price series share no date, or one of
    them has fewer than two points, [returns_df] has no row, the fit
    raises, and the page is the header followed by the error message
    and the hint: no metric (so no NaN R-squared) and no chart is
    rendered. *)
Theorem empty_overlap_reports_error
    (yf_download : Provider) (inp : Inputs)
    (stock_data market_data : Frame) (stock_adj market_adj : PriceSeries) :
  fetch_data yf_download (stock_symbol inp) (start_date inp) (end_date inp)
  = Ok stock_data ->
  fetch_data yf_download (market_indices (selected_index inp))
    (start_date inp) (end_date inp) = Ok market_data ->
  getitem stock_data "Adj Close" = Ok stock_adj ->
  getitem market_data "Adj Close" = Ok market_adj ->
  (forall d, ~ (In d (map fst stock_adj) /\ In d (map fst market_adj)))
  \/ (List.length stock_adj < 2)%nat \/ (List.length market_adj < 2)%nat ->
  returns_df_of stock_adj market_adj = []
  /\ render yf_download inp
     = (page_header ++ error_report (ValueError zero_size_msg), Ok tt)
  /\ existsb is_result (fst (render yf_download inp)) = false.
Proof.
  intros H1 H2 H3 H4 H.
  pose proof (returns_df_of_empty stock_adj market_adj H) as E.
  split; [exact E |].
  assert (F : fit_model (risk_free_rate inp) (returns_df_of stock_adj market_adj)
              = Raise (ValueError zero_size_msg)).
  { rewrite E. apply fit_model_nil. }
  rewrite script_run.
  rewrite (body_fit_raises _ _ stock_data market_data H1 H2 stock_adj H3
             market_adj H4 _ _ F).
  split; reflexivity.
Qed.

(** ** The return transform *)

Lemma nth_error_pct_change_from (s : PriceSeries) :
  forall (prev : R) (t : nat) (d' d : date) (q p : R),
    nth_error s t = Some (d', q) ->
    nth_error s (S t) = Some (d, p) ->
    nth_error (pct_change_from prev s) (S t) = Some (d, Some (p / q - 1)).
Proof.
  induction s as [| [d0 p0] s IH]; intros prev t d' d q p Ht HSt.
  - destruct t; discriminate.
  - destruct t as [| t].
    + simpl in Ht. injection Ht as <- <-.
      destruct s as [| [d1 p1] s]; [discriminate |].
      simpl in HSt. injection HSt as <- <-. reflexivity.
    + simpl in Ht. change (nth_error s (S t) = Some (d, p)) in HSt.
      simpl. apply (IH p0 t d' d q p Ht HSt).
Qed.

Lemma nth_error_pct_change (s : PriceSeries) (t : nat) (d' d : date) (q p : R) :
  nth_error s t = Some (d', q) ->
  nth_error s (S t) = Some (d, p) ->
  nth_error (pct_change s) (S t) = Some (d, Some (p / q - 1)).
Proof.
  destruct s as [| [d0 p0] s]; [destruct t; discriminate |].
  intros Ht HSt. simpl.
  destruct t as [| t].
  - simpl in Ht. injection Ht as <- <-.
    destruct s as [| [d1 p1] s]; [discriminate |].
    simpl in HSt. injection HSt as <- <-. reflexivity.
  - simpl in Ht. change (nth_error s (S t) = Some (d, p)) in HSt.
    apply (nth_error_pct_change_from s p0 t d' d q p Ht HSt).
Qed.

Lemma Return_Points_from (prev : R) (s : PriceSeries) :
  map fst (Return_Points (series_mul (pct_change_from prev s) 100)) = map fst s.
Proof.
  revert prev. induction s as [| [d p] s IH]; intros prev; simpl;
    [reflexivity | now rewrite IH].
Qed.

(** C4: a price series of N >= 2 positive prices gives exactly N - 1
    Return Points, one for every date but the first; the cell of the
    first date is NaN and the return of a later date is
    (price[t] - price[t-1]) / price[t-1] * 100. *)
Theorem return_transformer_points (prices : PriceSeries) :
  (2 <= List.length prices)%nat ->
  (forall d p, In (d, p) prices -> 0 < p) ->
  List.length (Return_Points (Return prices)) = (List.length prices - 1)%nat
  /\ map fst (Return_Points (Return prices)) = tl (map fst prices)
  /\ (forall d p, nth_error prices 0 = Some (d, p) ->
                  nth_error (Return prices) 0 = Some (d, None))
  /\ (forall t d' q d p,
        nth_error prices t = Some (d', q) ->
        nth_error prices (S t) = Some (d, p) ->
        nth_error (Return prices) (S t) = Some (d, Some ((p - q) / q * 100))).
Proof.
  intros Hlen Hpos.
  assert (Hdates : map fst (Return_Points (Return prices)) = tl (map fst prices)).
  { destruct prices as [| [d0 p0] s]; [reflexivity |].
    unfold Return. simpl. apply Return_Points_from. }
  split; [| split; [exact Hdates | split]].
  - rewrite <- (length_map fst), Hdates.
    destruct prices as [| [d0 p0] s]; simpl; [reflexivity |].
    rewrite length_map. lia.
  - intros d p H0. destruct prices as [| [d0 p0] s]; [discriminate |].
    simpl in H0. injection H0 as <- <-. reflexivity.
  - intros t d' q d p Ht HSt.
    unfold Return, series_mul. rewrite nth_error_map.
    pose proof (nth_error_pct_change prices t d' d q p Ht HSt) as E.
    unfold value in E. rewrite E. simpl.
    assert (0 < q) by (apply (Hpos d'); eapply nth_error_In; exact Ht).
    do 3 f_equal. field. lra.
Qed.

(** ** The date join *)

Lemma insert_date_in (d x : date) (idx : list date) :
  In x (insert_date d idx) <-> x = d \/ In x idx.
Proof.
  induction idx as [| e idx IH]; simpl.
  - intuition congruence.
  - destruct (d <? e)%Z eqn:Hlt; [simpl; intuition congruence |].
    destruct (d =? e)%Z eqn:Heq.
    + apply Z.eqb_eq in Heq. subst e. simpl. intuition congruence.
    + simpl. rewrite IH. intuition congruence.
Qed.

Lemma insert_date_sorted (d : date) (idx : list date) :
  StronglySorted Z.lt idx -> StronglySorted Z.lt (insert_date d idx).
Proof.
  induction idx as [| e idx IH]; intros HS; simpl.
  - constructor; constructor.
  - inversion HS as [| ? ? HS' Hall]; subst.
    destruct (d <? e)%Z eqn:Hlt.
    + apply Z.ltb_lt in Hlt. constructor; [exact HS |].
      constructor; [exact Hlt |].
      eapply Forall_impl; [| exact Hall]. intros z Hz. cbv beta in Hz. lia.
    + destruct (d =? e)%Z eqn:Heq; [exact HS |].
      apply Z.ltb_ge in Hlt. apply Z.eqb_neq in Heq.
      constructor; [apply IH; exact HS' |].
      apply Forall_forall. intros z Hz. apply insert_date_in in Hz.
      destruct Hz as [-> | Hz]; [lia |].
      rewrite Forall_forall in Hall. now apply Hall.
Qed.

Lemma fold_insert_in (a base : list date) (x : date) :
  In x (fold_right insert_date base a) <-> In x a \/ In x base.
Proof.
  induction a as [| d a IH]; simpl; [intuition |].
  rewrite insert_date_in, IH. intuition congruence.
Qed.

Lemma fold_insert_sorted (a base : list date) :
  StronglySorted Z.lt base -> StronglySorted Z.lt (fold_right insert_date base a).
Proof.
  intros HS. induction a as [| d a IH]; simpl; [exact HS |].
  now apply insert_date_sorted.
Qed.

Lemma index_equals_eq (a b : list date) : index_equals a b = true -> a = b.
Proof.
  revert b. induction a as [| d a IH]; intros [| e b]; simpl;
    try reflexivity; try discriminate.
  rewrite andb_true_iff. intros [E H]. apply Z.eqb_eq in E.
  now rewrite E, (IH b H).
Qed.

Lemma sorted_union_in (a b : list date) (x : date) :
  In x (fold_right insert_date (fold_right insert_date [] b) a)
  <-> In x a \/ In x b.
Proof. rewrite !fold_insert_in. simpl. intuition. Qed.

Lemma sorted_union_sorted (a b : list date) :
  StronglySorted Z.lt (fold_right insert_date (fold_right insert_date [] b) a).
Proof. apply fold_insert_sorted, fold_insert_sorted. constructor. Qed.

Lemma index_union_in (a b : list date) (x : date) :
  In x (index_union a b) <-> In x a \/ In x b.
Proof.
  unfold index_union. destruct (index_equals a b) eqn:E.
  - apply index_equals_eq in E. subst b. tauto.
  - destruct a as [| d a]; [simpl; tauto |].
    destruct b as [| e b]; [simpl; tauto |].
    apply sorted_union_in.
Qed.

Lemma sorted_NoDup (l : list date) : StronglySorted Z.lt l -> NoDup l.
Proof.
  induction 1 as [| d l HS IH Hall]; constructor; [| exact IH].
  intros Hin. rewrite Forall_forall in Hall. specialize (Hall d Hin). lia.
Qed.

(** On two sorted indexes the union is sorted. *)
Lemma index_union_sorted (a b : list date) :
  StronglySorted Z.lt a -> StronglySorted Z.lt b ->
  StronglySorted Z.lt (index_union a b).
Proof.
  intros Ha Hb. unfold index_union.
  destruct (index_equals a b); [exact Ha |].
  destruct a as [| d a]; [exact Hb |].
  destruct b as [| e b]; [exact Ha |].
  apply sorted_union_sorted.
Qed.

(** On two indexes without repeated labels the union has none. *)
Lemma index_union_NoDup (a b : list date) :
  NoDup a -> NoDup b -> NoDup (index_union a b).
Proof.
  intros Ha Hb. unfold index_union.
  destruct (index_equals a b); [exact Ha |].
  destruct a as [| d a]; [exact Hb |].
  destruct b as [| e b]; [exact Ha |].
  apply sorted_NoDup, sorted_union_sorted.
Qed.

Lemma at_label_some_in (s : Series) (d : date) (v : R) :
  at_label s d = Some v -> In (d, Some v) s.
Proof.
  induction s as [| [e w] s IH]; simpl; [discriminate |].
  destruct (d =? e)%Z eqn:E.
  - apply Z.eqb_eq in E. subst e. intros ->. now left.
  - intros H. right. now apply IH.
Qed.

Lemma in_at_label (s : Series) (d : date) (v : value) :
  NoDup (map fst s) -> In (d, v) s -> at_label s d = v.
Proof.
  induction s as [| [e w] s IH]; simpl; intros ND Hin; [contradiction |].
  inversion ND as [| ? ? Hnotin ND']; subst.
  destruct Hin as [E | Hin].
  - injection E as -> ->. now rewrite Z.eqb_refl.
  - destruct (d =? e)%Z eqn:E.
    + apply Z.eqb_eq in E. subst e. exfalso. apply Hnotin.
      change d with (fst (d, v)). now apply in_map.
    + now apply IH.
Qed.

Lemma dropna_in (rows : list RawRow) (d : date) (x y : R) :
  In (mk_row d x y) (dropna rows) <-> In (d, (Some x, Some y)) rows.
Proof.
  induction rows as [| [e [[a |] [b |]]] rows IH]; simpl; [tauto | | | |];
    rewrite IH.
  - split; (intros [E | H]; [left | now right]).
    + injection E as -> -> ->. reflexivity.
    + injection E as -> -> ->. reflexivity.
  - split; [now right | intros [E | H]; [discriminate | exact H]].
  - split; [now right | intros [E | H]; [discriminate | exact H]].
  - split; [now right | intros [E | H]; [discriminate | exact H]].
Qed.

Lemma dropna_dates_in (rows : list RawRow) (d : date) :
  In d (map row_date (dropna rows)) -> In d (map fst rows).
Proof.
  induction rows as [| [e [[a |] [b |]]] rows IH]; simpl; intuition.
Qed.

Lemma dropna_dates_sorted (rows : list RawRow) :
  StronglySorted Z.lt (map fst rows) ->
  StronglySorted Z.lt (map row_date (dropna rows)).
Proof.
  induction rows as [| [e [a b]] rows IH]; simpl; intros HS; [constructor |].
  inversion HS as [| ? ? HS' Hall]; subst. specialize (IH HS').
  destruct a as [a |]; [| exact IH]. destruct b as [b |]; [| exact IH].
  simpl. constructor; [exact IH |].
  apply Forall_forall. intros z Hz. apply dropna_dates_in in Hz.
  rewrite Forall_forall in Hall. now apply Hall.
Qed.

Lemma dropna_dates_NoDup (rows : list RawRow) :
  NoDup (map fst rows) -> NoDup (map row_date (dropna rows)).
Proof.
  induction rows as [| [e [a b]] rows IH]; simpl; intros ND; [constructor |].
  inversion ND as [| ? ? Hnotin ND']; subst. specialize (IH ND').
  destruct a as [a |]; [| exact IH]. destruct b as [b |]; [| exact IH].
  simpl. constructor; [| exact IH].
  intros Hin. apply Hnotin. now apply dropna_dates_in.
Qed.

Lemma DataFrame_index (s m : Series) :
  map fst (DataFrame s m) = index_union (map fst s) (map fst m).
Proof. unfold DataFrame. rewrite map_map. simpl. apply map_id. Qed.

Lemma Return_Points_in (s : Series) (d : date) (x : R) :
  In (d, x) (Return_Points s) <-> In (d, Some x) s.
Proof.
  induction s as [| [e [v |]] s IH]; simpl; [tauto | |]; rewrite IH.
  - split; (intros [E | H]; [left | now right]).
    + injection E as -> ->. reflexivity.
    + injection E as -> ->. reflexivity.
  - split; [now right | intros [E | H]; [discriminate | exact H]].
Qed.

Lemma defined_dates_in (s : Series) (d : date) :
  In d (defined_dates s) <-> exists x, In (d, Some x) s.
Proof.
  unfold defined_dates. rewrite in_map_iff. split.
  - intros ([e x] & E & Hin). simpl in E. subst e.
    exists x. now apply Return_Points_in.
  - intros (x & Hin). exists (d, x). split; [reflexivity |].
    now apply Return_Points_in.
Qed.

Lemma defined_dates_NoDup (s : Series) :
  NoDup (map fst s) -> NoDup (defined_dates s).
Proof.
  unfold defined_dates.
  induction s as [| [e [v |]] s IH]; simpl; intros ND;
    inversion ND as [| ? ? Hnotin ND']; subst; auto using NoDup_nil.
  constructor; [| auto].
  intros Hin. apply Hnotin. apply in_map_iff in Hin.
  destruct Hin as ([e' x] & E & Hin). simpl in E. subst e'.
  apply Return_Points_in in Hin.
  change e with (fst (e, Some x)). now apply in_map.
Qed.

Lemma date_inter_in (a b : list date) (d : date) :
  In d (date_inter a b) <-> In d a /\ In d b.
Proof.
  unfold date_inter. rewrite filter_In, existsb_exists. split.
  - intros [Ha (x & Hx & E)]. apply Z.eqb_eq in E. subst x. auto.
  - intros [Ha Hb]. split; [exact Ha |]. exists d. split; [exact Hb |].
    apply Z.eqb_refl.
Qed.

Lemma returns_row_iff (s m : Series) (d : date) (x y : R) :
  NoDup (map fst s) -> NoDup (map fst m) ->
  In (mk_row d x y) (dropna (DataFrame s m))
  <-> In (d, Some x) s /\ In (d, Some y) m.
Proof.
  intros NDs NDm. rewrite dropna_in. unfold DataFrame. rewrite in_map_iff.
  split.
  - intros (d' & E & _). injection E as -> Hs Hm.
    split; now apply at_label_some_in.
  - intros [Hs Hm]. exists d. split.
    + now rewrite (in_at_label s d _ NDs Hs), (in_at_label m d _ NDm Hm).
    + apply index_union_in. left.
      change d with (fst (d, Some x)). now apply in_map.
Qed.

Lemma returns_dates_iff (s m : Series) (d : date) :
  NoDup (map fst s) -> NoDup (map fst m) ->
  In d (map row_date (dropna (DataFrame s m)))
  <-> In d (defined_dates s) /\ In d (defined_dates m).
Proof.
  intros NDs NDm. rewrite in_map_iff, !defined_dates_in. split.
  - intros ([d' x y] & E & Hin). simpl in E. subst d'.
    apply (returns_row_iff s m d x y NDs NDm) in Hin.
    destruct Hin as [Hs Hm]. split; eauto.
  - intros [[x Hs] [y Hm]]. exists (mk_row d x y). split; [reflexivity |].
    now apply returns_row_iff.
Qed.

(** C5: on two return series, each with one cell per date, the rows of
    [returns_df] are exactly the dates on which both series have a
    non-missing return, each date once, with the two returns of that
    date; their number is the size of the intersection of the two sets
    of dates with a return, and at most the number of returns of either
    series.  When both series are in date order, so are the rows. *)
Theorem aligned_pairs_inner_join (s m : Series) :
  NoDup (map fst s) -> NoDup (map fst m) ->
  let returns_df := dropna (DataFrame s m) in
  (forall d x y, In (mk_row d x y) returns_df
                 <-> In (d, Some x) s /\ In (d, Some y) m)
  /\ (forall d, In d (map row_date returns_df)
                <-> In d (defined_dates s) /\ In d (defined_dates m))
  /\ NoDup (map row_date returns_df)
  /\ (StronglySorted Z.lt (map fst s) -> StronglySorted Z.lt (map fst m) ->
      StronglySorted Z.lt (map row_date returns_df))
  /\ List.length returns_df
     = List.length (date_inter (defined_dates s) (defined_dates m))
  /\ (List.length returns_df
      <= Nat.min (List.length (Return_Points s)) (List.length (Return_Points m)))%nat.
Proof.
  intros NDs NDm returns_df.
  assert (Hdates : forall d, In d (map row_date returns_df)
                      <-> In d (defined_dates s) /\ In d (defined_dates m))
    by (intros d; now apply returns_dates_iff).
  assert (NDdf : NoDup (map row_date returns_df)).
  { apply dropna_dates_NoDup. rewrite DataFrame_index.
    now apply index_union_NoDup. }
  assert (NDds : NoDup (defined_dates s)) by now apply defined_dates_NoDup.
  assert (NDdm : NoDup (defined_dates m)) by now apply defined_dates_NoDup.
  split; [intros d x y; now apply returns_row_iff |].
  split; [exact Hdates |]. split; [exact NDdf |]. split; [| split].
  - intros Ss Sm. apply dropna_dates_sorted. rewrite DataFrame_index.
    now apply index_union_sorted.
  - rewrite <- (length_map row_date). apply Permutation_length.
    apply NoDup_Permutation; [exact NDdf | now apply NoDup_filter |].
    intros d. rewrite Hdates, date_inter_in. reflexivity.
  - rewrite <- (length_map row_date).
    rewrite <- (length_map fst (Return_Points s)), <- (length_map fst (Return_Points m)).
    fold (defined_dates s) (defined_dates m).
    apply Nat.min_glb; apply NoDup_incl_length; try exact NDdf;
      intros d Hd; apply Hdates in Hd; tauto.
Qed.

(** ** The regressor on a non-constant market column *)

Lemma raw_slope_excess (r : R) (df : list Row) :
  Sxy (X_of r df) (y_of r df) / Sxx (X_of r df) = raw_slope df.
Proof.
  unfold raw_slope. rewrite X_of_pairs, y_of_pairs, Sxx_shift, Sxy_shift.
  rewrite <- Market_Return_pairs, <- Stock_Return_pairs. reflexivity.
Qed.

Lemma raw_intercept_excess (r : R) (df : list Row) :
  df <> [] ->
  mean (y_of r df) - raw_slope df * mean (X_of r df)
  = raw_intercept (risk_free_rate_monthly r * 100) df.
Proof.
  intros Hne. assert (Hp : pairs_of df <> []) by now rewrite pairs_of_nil.
  unfold raw_intercept. rewrite X_of_pairs, y_of_pairs.
  rewrite mean_shift_fst, mean_shift_snd by exact Hp.
  rewrite <- Market_Return_pairs, <- Stock_Return_pairs. reflexivity.
Qed.

Lemma market_not_constant (df : list Row) (r1 r2 : Row) :
  In r1 df -> In r2 df -> Market_Return r1 <> Market_Return r2 ->
  Sxx (map Market_Return df) <> 0.
Proof.
  intros H1 H2 Hne.
  apply (Sxx_two_distinct _ (Market_Return r1) (Market_Return r2));
    [now apply in_map | now apply in_map | exact Hne].
Qed.

Lemma rsquared_of_bounds (l : list (R * R)) (a b r2 : R) :
  (forall a' b', ssr_line a b (map fst l) (map snd l)
                 <= ssr_line a' b' (map fst l) (map snd l)) ->
  rsquared_of (ssr_line a b (map fst l) (map snd l)) (map snd l) = Some r2 ->
  0 <= r2 <= 1.
Proof.
  intros Hmin. unfold rsquared_of.
  destruct (Req_dec_T (centered_tss (map snd l)) 0) as [| NZ]; [discriminate |].
  intros E. injection E as <-.
  pose proof (ssr_line_nonneg a b (map fst l) (map snd l)) as H0.
  pose proof (Hmin (mean (map snd l)) 0) as H1.
  rewrite <- centered_tss_as_line in H1.
  set (ssr := ssr_line a b (map fst l) (map snd l)) in *.
  set (tss := centered_tss (map snd l)) in *.
  assert (Htss : 0 < tss) by lra.
  assert (Hq : 0 <= ssr / tss <= 1).
  { split.
    - apply Rmult_le_pos; [exact H0 | left; now apply Rinv_0_lt_compat].
    - apply (Rmult_le_reg_r tss); [exact Htss |].
      replace (ssr / tss * tss) with ssr by (field; lra). lra. }
  lra.
Qed.

(** C1, amended: on an Aligned Return Pair sequence of at least 2 rows
    whose market returns are not all equal, the regressor subtracts
    p * 100 (p the periodic rate) from both columns and the model has
    both parameters: with Beta the "Market_Return" parameter and Alpha
    the "const" parameter, the line Alpha + Beta * x is the one
    minimiser of the unweighted sum over all rows of the squared
    residuals of the excess stock return, and R-squared is one minus
    that residual sum over the sum of squares of the excess stock
    return about its mean (NaN when that sum is zero), within [0,1]. *)
Theorem regressor_fits_ols (rfr : R) (df : list Row) :
  (2 <= List.length df)%nat ->
  (exists r1 r2, In r1 df /\ In r2 df /\ Market_Return r1 <> Market_Return r2) ->
  let p := risk_free_rate_monthly rfr in
  let x := X_of rfr df in
  let y := y_of rfr df in
  x = map (fun row => Market_Return row - p * 100) df
  /\ y = map (fun row => Stock_Return row - p * 100) df
  /\ exists model alpha beta,
      fit_model rfr df = Ok model
      /\ params_getitem (params model) "Market_Return" = Ok beta
      /\ params_getitem (params model) "const" = Ok alpha
      /\ (forall a b,
            ssr_line a b x y
            = sum (map (fun row => ((Stock_Return row - p * 100) - a
                                    - b * (Market_Return row - p * 100)) ^ 2) df))
      /\ (forall a b, ssr_line alpha beta x y <= ssr_line a b x y)
      /\ (forall a b, ssr_line a b x y = ssr_line alpha beta x y ->
                      a = alpha /\ b = beta)
      /\ rsquared model
         = (if Req_dec_T (centered_tss y) 0 then None
            else Some (1 - ssr_line alpha beta x y / centered_tss y))
      /\ (forall r2, rsquared model = Some r2 -> 0 <= r2 <= 1).
Proof.
  intros Hlen (r1 & r2 & H1 & H2 & Hne) p x y.
  split; [reflexivity |]. split; [reflexivity |].
  pose proof (market_not_constant df r1 r2 H1 H2 Hne) as HS.
  assert (Hdf : df <> []) by (intros ->; contradiction).
  set (l := shift_pairs (p * 100) (pairs_of df)).
  assert (Ex : x = map fst l) by apply X_of_pairs.
  assert (Ey : y = map snd l) by apply y_of_pairs.
  assert (HSx : Sxx (map fst l) <> 0).
  { rewrite <- Ex. unfold x. rewrite X_of_pairs, Sxx_shift, <- Market_Return_pairs.
    exact HS. }
  pose proof (ols_line_minimal l HSx) as [Hmin Huniq].
  rewrite <- Ex, <- Ey in Hmin, Huniq.
  assert (Eb : Sxy x y / Sxx x = raw_slope df) by apply raw_slope_excess.
  assert (Ea : mean y - Sxy x y / Sxx x * mean x = raw_intercept (p * 100) df).
  { rewrite Eb. now apply raw_intercept_excess. }
  rewrite Ea, Eb in Hmin, Huniq.
  exists (mk_results [("const", raw_intercept (p * 100) df);
                      ("Market_Return", raw_slope df)]
            (rsquared_of (ssr_line (raw_intercept (p * 100) df) (raw_slope df) x y) y)),
    (raw_intercept (p * 100) df), (raw_slope df).
  split; [apply (fit_model_full_rank rfr df HS) |].
  split; [reflexivity |]. split; [reflexivity |]. split; [| split; [| split; [| split]]].
  - intros a b. unfold ssr_line. rewrite Ex, Ey, zip_fst_snd.
    unfold l, shift_pairs, pairs_of. rewrite !map_map. reflexivity.
  - exact Hmin.
  - exact Huniq.
  - reflexivity.
  - intros r2' E. cbn [rsquared] in E. rewrite Ex, Ey in E.
    apply (rsquared_of_bounds l (raw_intercept (p * 100) df) (raw_slope df) r2');
      [| exact E].
    rewrite <- Ex, <- Ey. exact Hmin.
Qed.

(** ** The trendline of the scatter plot *)

Lemma sum_sq_const (l : list (R * R)) (c : R) :
  (forall v, In v (map fst l) -> v = c) ->
  sum (map (fun v => v ^ 2) (map fst l)) = INR (List.length l) * c ^ 2.
Proof.
  induction l as [| q l IH]; intros H; [simpl; ring |].
  change (List.length (q :: l)) with (S (List.length l)). rewrite S_INR.
  rewrite !map_cons, sum_cons, IH by (intros v Hv; apply H; now right).
  rewrite (H (fst q)) by now left. ring.
Qed.

Lemma sum_xy_const (l : list (R * R)) (c : R) :
  (forall v, In v (map fst l) -> v = c) ->
  sum (map (fun p => fst p * snd p) l) = c * sum (map snd l).
Proof.
  induction l as [| q l IH]; intros H; [simpl; ring |].
  rewrite !map_cons, !sum_cons, IH by (intros v Hv; apply H; now right).
  rewrite (H (fst q)) by now left. ring.
Qed.

Lemma trendline_ols_cases (l : list (R * R)) (t : trendline) :
  let x := map fst l in
  let y := map snd l in
  trendline_ols x y = Ok t ->
  (Sxx x <> 0
   /\ t = TwoParams (mean y - Sxy x y / Sxx x * mean x) (Sxy x y / Sxx x))
  \/ (l <> [] /\ (forall v, In v x -> v = 0) /\ t = TwoParams (mean y) 0)
  \/ (l <> [] /\ exists c, c <> 0 /\ (forall v, In v x -> v = c)
                           /\ t = OneParam (mean y / c)).
Proof.
  intros x y. unfold trendline_ols, add_constant, OLS_fit.
  destruct y as [| y0 ys] eqn:Ey; [discriminate |].
  assert (Hl : l <> []) by (intros ->; discriminate).
  destruct (is_nonzero_const x) eqn:Ec.
  - cbn [params]. intros H. injection H as <-. right. right.
    apply is_nonzero_const_spec in Ec. destruct Ec as (c & Hc & _ & Hall).
    split; [exact Hl |]. exists c. split; [exact Hc |]. split; [exact Hall |].
    f_equal. rewrite <- Ey. unfold x, y. rewrite zip_fst_snd.
    change (fun v : R => v * (v * 1)) with (fun v : R => v ^ 2).
    rewrite (sum_sq_const l c Hall), (sum_xy_const l c Hall).
    destruct l as [| q l]; [congruence |].
    pose proof (INR_length_pos q l) as Hn.
    assert (Hsq : INR (List.length (q :: l)) * c ^ 2 <> 0).
    { apply Rmult_integral_contrapositive_currified; [lra |].
      now apply pow_nonzero. }
    destruct (Req_dec_T (INR (List.length (q :: l)) * c ^ 2) 0) as [Z | _];
      [contradiction |].
    unfold mean. rewrite length_map. field. split; [lra | exact Hc].
  - destruct (Req_dec_T (Sxx x) 0) as [E | NE]; cbn; intros H;
      injection H as <-.
    + right. left. pose proof (Sxx_zero_all_mean x E) as Hall.
      assert (M0 : mean x = 0).
      { destruct (Req_dec_T (mean x) 0) as [Z | NZ]; [exact Z |].
        assert (is_nonzero_const x = true); [| congruence].
        apply is_nonzero_const_spec. exists (mean x).
        split; [exact NZ |]. split; [| exact Hall].
        unfold x. destruct l; [congruence | discriminate]. }
      split; [exact Hl |]. split.
      * intros v Hv. rewrite <- M0. now apply Hall.
      * rewrite M0. f_equal; field.
    + left. split; [exact NE |]. reflexivity.
Qed.

Lemma ssr_line_const (l : list (R * R)) (c a b : R) :
  (forall v, In v (map fst l) -> v = c) ->
  ssr_line a b (map fst l) (map snd l)
  = sum (map (fun v => (v - (a + b * c)) ^ 2) (map snd l)).
Proof.
  intros H. unfold ssr_line. rewrite zip_fst_snd, map_map.
  apply sum_map_ext. intros q Hq.
  rewrite (H (fst q)) by now apply in_map. ring.
Qed.

Lemma mean_minimises_sq_dev (y : list R) (m : R) :
  y <> [] ->
  sum (map (fun v => (v - mean y) ^ 2) y) <= sum (map (fun v => (v - m) ^ 2) y).
Proof.
  intros Hne. rewrite !sum_sq_dev. unfold mean.
  destruct y as [| q y]; [congruence |].
  pose proof (INR_length_pos q y) as Hn.
  set (n := INR (List.length (q :: y))) in *.
  set (sy := sum (q :: y)).
  assert (E : n * (sy / n) ^ 2 - 2 * (sy / n) * sy = - (sy * sy / n))
    by (field; lra).
  assert (D : n * m ^ 2 - 2 * m * sy + sy * sy / n = n * (m - sy / n) ^ 2)
    by (field; lra).
  pose proof (pow2_ge_0 (m - sy / n)). nra.
Qed.

(** A horizontal cloud of points: every line through its mean height is
    a least-squares line. *)
Lemma const_column_minimal (l : list (R * R)) (c i s : R) :
  l <> [] ->
  (forall v, In v (map fst l) -> v = c) ->
  i + s * c = mean (map snd l) ->
  forall a b, ssr_line i s (map fst l) (map snd l)
              <= ssr_line a b (map fst l) (map snd l).
Proof.
  intros Hl Hall E a b. rewrite !(ssr_line_const l c) by exact Hall.
  rewrite E. apply mean_minimises_sq_dev.
  destruct l; [congruence | discriminate].
Qed.

Lemma short_column_flat (x : list R) : (List.length x <= 1)%nat -> Sxx x = 0.
Proof.
  destruct x as [| a [| b x]]; simpl; intros H; [reflexivity | | lia].
  apply (Sxx_const [a] a). intros v [<- | []]. reflexivity.
Qed.

Lemma fig2_of_inv (inp : Inputs) (df : list Row) (f : scatter_fig) :
  fig2_of inp df = Ok f ->
  sc_x f = map Market_Return df
  /\ sc_y f = map Stock_Return df
  /\ ((List.length df <= 1)%nat -> sc_trendline f = NoTrendline)
  /\ ((2 <= List.length df)%nat ->
      trendline_ols (map Market_Return df) (map Stock_Return df)
      = Ok (sc_trendline f)).
Proof.
  unfold fig2_of. destruct (List.length df <=? 1)%nat eqn:El.
  - apply Nat.leb_le in El. intros E. injection E as <-.
    repeat split. intros H. lia.
  - apply Nat.leb_gt in El.
    destruct (trendline_ols (map Market_Return df) (map Stock_Return df))
      as [line | e]; [| discriminate].
    intros E. injection E as <-. repeat split. intros H. lia.
Qed.

(** ** A pass that shows no error *)

Lemma error_report_is_error (p : Page) (e : exn) :
  existsb is_error (p ++ error_report e) = true.
Proof. rewrite existsb_app. apply orb_true_iff. right. reflexivity. Qed.

Lemma successful_pass (yf_download : Provider) (inp : Inputs) :
  existsb is_error (fst (render yf_download inp)) = false ->
  exists (stock_data market_data : Frame) (stock_adj market_adj : PriceSeries)
         (model : RegressionResults) (beta alpha : R) (fig2 : scatter_fig),
    fetch_data yf_download (stock_symbol inp) (start_date inp) (end_date inp)
    = Ok stock_data
    /\ fetch_data yf_download (market_indices (selected_index inp))
         (start_date inp) (end_date inp) = Ok market_data
    /\ getitem stock_data "Adj Close" = Ok stock_adj
    /\ getitem market_data "Adj Close" = Ok market_adj
    /\ fit_model (risk_free_rate inp) (returns_df_of stock_adj market_adj) = Ok model
    /\ params_getitem (params model) "Market_Return" = Ok beta
    /\ params_getitem (params model) "const" = Ok alpha
    /\ fig2_of inp (returns_df_of stock_adj market_adj) = Ok fig2
    /\ fst (render yf_download inp)
       = page_header ++ results_panel inp model beta alpha
           ++ [St_plotly_chart (Scatter fig2);
               St_plotly_chart
                 (GroupedBar (fig3_of inp (returns_df_of stock_adj market_adj)))].
Proof.
  rewrite script_run. intros Hno.
  assert (Hbad : forall p e,
             try_body yf_download inp page_header = (p, Raise e) -> False).
  { intros p e E. rewrite E in Hno. cbn [fst] in Hno.
    rewrite error_report_is_error in Hno. discriminate. }
  destruct (fetch_data yf_download (stock_symbol inp) (start_date inp)
              (end_date inp)) as [sd | e] eqn:H1;
    [| exfalso; eapply Hbad, body_fetch_stock_raises; exact H1].
  destruct (fetch_data yf_download (market_indices (selected_index inp))
              (start_date inp) (end_date inp)) as [md | e] eqn:H2;
    [| exfalso; eapply Hbad, body_fetch_market_raises; eassumption].
  destruct (getitem sd "Adj Close") as [sa | e] eqn:H3;
    [| exfalso; eapply Hbad, body_getitem_stock_raises; eassumption].
  destruct (getitem md "Adj Close") as [ma | e] eqn:H4;
    [| exfalso; eapply Hbad, body_getitem_market_raises; eassumption].
  destruct (fit_model (risk_free_rate inp) (returns_df_of sa ma))
    as [model | e] eqn:H5;
    [| exfalso; eapply Hbad, body_fit_raises; eassumption].
  destruct (params_getitem (params model) "Market_Return") as [beta | e] eqn:H6;
    [| exfalso; eapply Hbad, body_beta_raises; eassumption].
  destruct (params_getitem (params model) "const") as [alpha | e] eqn:H7;
    [| exfalso; eapply Hbad, body_alpha_raises; eassumption].
  destruct (fig2_of inp (returns_df_of sa ma)) as [fig2 | e] eqn:H8;
    [| exfalso; eapply Hbad, body_chart_raises; eassumption].
  exists sd, md, sa, ma, model, beta, alpha, fig2.
  repeat (split; [assumption || reflexivity |]).
  rewrite (body_succeeds _ _ sd md H1 H2 sa H3 ma H4 model H5 beta H6 alpha H7
             fig2 page_header H8).
  reflexivity.
Qed.

(** ** The sample inputs *)

Lemma sample_returns_df_eq :
  returns_df_of sample_stock sample_market = sample_returns_df.
Proof. reflexivity. Qed.

(** ** A pass on a non-constant market column *)

Lemma trendline_ols_full_rank (df : list Row) :
  Sxx (map Market_Return df) <> 0 ->
  trendline_ols (map Market_Return df) (map Stock_Return df)
  = Ok (TwoParams
          (mean (map Stock_Return df) - raw_slope df * mean (map Market_Return df))
          (raw_slope df)).
Proof.
  intros HS. unfold trendline_ols, add_constant.
  rewrite (is_nonzero_const_full_rank _ HS). unfold OLS_fit.
  destruct (map Stock_Return df) as [| y0 ys] eqn:Ey.
  { exfalso. apply HS. destruct df; [reflexivity | discriminate]. }
  destruct (Req_dec_T (Sxx (map Market_Return df)) 0) as [E | _]; [contradiction |].
  cbn. rewrite <- Ey. reflexivity.
Qed.

Lemma fig2_of_full_rank (inp : Inputs) (df : list Row) :
  Sxx (map Market_Return df) <> 0 ->
  fig2_of inp df = Ok (full_rank_fig2 inp df).
Proof.
  intros HS. unfold fig2_of.
  destruct (List.length df <=? 1)%nat eqn:El.
  - exfalso. apply HS, short_column_flat. rewrite length_map.
    now apply Nat.leb_le.
  - rewrite (trendline_ols_full_rank df HS). reflexivity.
Qed.

Lemma render_full_rank (yf_download : Provider) (inp : Inputs)
    (stock_data market_data : Frame) (stock_adj market_adj : PriceSeries) :
  fetch_data yf_download (stock_symbol inp) (start_date inp) (end_date inp)
  = Ok stock_data ->
  fetch_data yf_download (market_indices (selected_index inp))
    (start_date inp) (end_date inp) = Ok market_data ->
  getitem stock_data "Adj Close" = Ok stock_adj ->
  getitem market_data "Adj Close" = Ok market_adj ->
  let df := returns_df_of stock_adj market_adj in
  Sxx (map Market_Return df) <> 0 ->
  render yf_download inp
  = (page_header
       ++ results_panel inp (full_rank_model (risk_free_rate inp) df)
            (raw_slope df)
            (raw_intercept (risk_free_rate_monthly (risk_free_rate inp) * 100) df)
       ++ [St_plotly_chart (Scatter (full_rank_fig2 inp df));
           St_plotly_chart (GroupedBar (fig3_of inp df))],
     Ok tt).
Proof.
  intros H1 H2 H3 H4 df HS. rewrite script_run.
  pose proof (fig2_of_full_rank inp df HS) as H8.
  rewrite (body_succeeds _ _ stock_data market_data H1 H2 stock_adj H3
             market_adj H4 (full_rank_model (risk_free_rate inp) df)
             (fit_model_full_rank (risk_free_rate inp) df HS)
             (raw_slope df) eq_refl
             (raw_intercept (risk_free_rate_monthly (risk_free_rate inp) * 100) df)
             eq_refl (full_rank_fig2 inp df) page_header H8).
  reflexivity.
Qed.

(** Returns that lie on a line are fitted by that line. *)
Lemma raw_slope_of_line (df : list Row) (k a0 : R) :
  Sxx (map Market_Return df) <> 0 ->
  (forall row, In row df -> Stock_Return row = a0 + k * Market_Return row) ->
  raw_slope df = k
  /\ mean (map Stock_Return df) = a0 + k * mean (map Market_Return df).
Proof.
  intros HS Hline.
  assert (Hne : df <> []) by (intros ->; apply HS; reflexivity).
  assert (Hm : mean (map Stock_Return df) = a0 + k * mean (map Market_Return df)).
  { unfold mean. rewrite !length_map.
    assert (E : sum (map Stock_Return df)
                = INR (List.length df) * a0 + k * sum (map Market_Return df)).
    { clear HS Hne. induction df as [| row df IH]; [simpl; ring |].
      change (List.length (row :: df)) with (S (List.length df)). rewrite S_INR.
      rewrite !map_cons, !sum_cons, IH by (intros r Hr; apply Hline; now right).
      rewrite (Hline row) by now left. ring. }
    rewrite E. destruct df as [| row df]; [congruence |].
    pose proof (INR_length_pos row df). field. lra. }
  split; [| exact Hm].
  unfold raw_slope.
  assert (E : Sxy (map Market_Return df) (map Stock_Return df)
              = k * Sxx (map Market_Return df)).
  { rewrite Market_Return_pairs, Stock_Return_pairs.
    unfold Sxy, Sxx. rewrite zip_fst_snd.
    rewrite <- Market_Return_pairs, <- Stock_Return_pairs, Hm.
    unfold pairs_of. rewrite !map_map. cbn [fst snd].
    clear Hm HS Hne. generalize (mean (map Market_Return df)) as mx. intros mx.
    induction df as [| row df IH]; [simpl; ring |].
    rewrite !map_cons, !sum_cons, IH by (intros r Hr; apply Hline; now right).
    rewrite (Hline row) by now left. ring. }
  rewrite E. field. exact HS.
Qed.

(** ** The scatter plot *)

Lemma X_of_differs (rfr : R) (df : list Row) :
  df <> [] -> risk_free_rate_monthly rfr <> 0 ->
  map Market_Return df <> X_of rfr df /\ map Stock_Return df <> y_of rfr df.
Proof.
  intros Hne Hp. destruct df as [| row df]; [congruence |].
  unfold X_of, y_of. split; intros E; simpl in E; injection E as E _; lra.
Qed.

(** C8, amended: on every pass that shows no error there is one
    scatter plot; its x values are the market returns and its y values
    the stock returns of [returns_df], as fetched and before the
    risk-free rate is subtracted.  On one Aligned Return Pair the plot
    has no trendline; on two or more it has one, and the trendline
    plots a least-squares line of the plotted points: at every plotted
    market return its value is that of the line of slope Beta through
    the point of the two means, and the slope of a fit of two
    parameters is the fitted Beta.  The plotted points are not the
    excess returns whenever the periodic rate is not zero. *)
Theorem scatter_plots_raw_returns (yf_download : Provider) (inp : Inputs) :
  existsb is_error (fst (render yf_download inp)) = false ->
  exists (stock_data market_data : Frame) (stock_adj market_adj : PriceSeries)
         (model : RegressionResults) (beta : R) (fig2 : scatter_fig),
    fetch_data yf_download (stock_symbol inp) (start_date inp) (end_date inp)
    = Ok stock_data
    /\ fetch_data yf_download (market_indices (selected_index inp))
         (start_date inp) (end_date inp) = Ok market_data
    /\ getitem stock_data "Adj Close" = Ok stock_adj
    /\ getitem market_data "Adj Close" = Ok market_adj
    /\ fit_model (risk_free_rate inp) (returns_df_of stock_adj market_adj) = Ok model
    /\ params_getitem (params model) "Market_Return" = Ok beta
    /\ (forall f, In (St_plotly_chart (Scatter f)) (fst (render yf_download inp))
                  <-> f = fig2)
    /\ sc_x fig2 = map Market_Return (returns_df_of stock_adj market_adj)
    /\ sc_y fig2 = map Stock_Return (returns_df_of stock_adj market_adj)
    /\ ((List.length (sc_x fig2) <= 1)%nat <-> sc_trendline fig2 = NoTrendline)
    /\ ((2 <= List.length (sc_x fig2))%nat ->
        exists i s,
          (forall v, trend_value (sc_trendline fig2) v = Some (i + s * v))
          /\ (forall a b, ssr_line i s (sc_x fig2) (sc_y fig2)
                          <= ssr_line a b (sc_x fig2) (sc_y fig2))
          /\ (forall v, In v (sc_x fig2) ->
                i + s * v = mean (sc_y fig2) + beta * (v - mean (sc_x fig2))))
    /\ (forall i s, sc_trendline fig2 = TwoParams i s -> s = beta)
    /\ (risk_free_rate_monthly (risk_free_rate inp) <> 0 ->
        sc_x fig2 <> X_of (risk_free_rate inp) (returns_df_of stock_adj market_adj)
        /\ sc_y fig2 <> y_of (risk_free_rate inp) (returns_df_of stock_adj market_adj)).
Proof.
  intros Hok.
  destruct (successful_pass yf_download inp Hok)
    as (sd & md & sa & ma & model & beta & alpha & fig2
        & H1 & H2 & H3 & H4 & H5 & H6 & H7 & H8 & Hpage).
  exists sd, md, sa, ma, model, beta, fig2.
  do 6 (split; [assumption |]).
  set (df := returns_df_of sa ma) in *.
  destruct (fig2_of_inv inp df fig2 H8) as (Ex & Ey & Hshort & Hlong).
  assert (Hdf : df <> []).
  { intros E. rewrite E, fit_model_nil in H5. discriminate. }
  assert (Hp : pairs_of df <> []) by now rewrite pairs_of_nil.
  assert (Hlen : List.length (sc_x fig2) = List.length df)
    by (rewrite Ex; apply length_map).
  set (xs := map Market_Return df) in *. set (ys := map Stock_Return df) in *.
  assert (Exs : xs = map fst (pairs_of df)) by apply Market_Return_pairs.
  assert (Eys : ys = map snd (pairs_of df)) by apply Stock_Return_pairs.
  assert (Hfit : (2 <= List.length df)%nat ->
            sc_trendline fig2 <> NoTrendline
            /\ (forall i s, sc_trendline fig2 = TwoParams i s -> s = beta)
            /\ exists i s,
                (forall v, trend_value (sc_trendline fig2) v = Some (i + s * v))
                /\ (forall a b, ssr_line i s xs ys <= ssr_line a b xs ys)
                /\ (forall v, In v xs ->
                      i + s * v = mean ys + beta * (v - mean xs))).
  { intros L. pose proof (Hlong L) as Et.
    pose proof (fit_model_cases _ _ _ _ _ H5 H6 H7) as C. cbv zeta in C.
    fold xs in C.
    assert (Hflat : forall c, (forall v, In v xs -> v = c) ->
                              Sxx xs = 0 /\ beta = 0).
    { intros c Hall. pose proof (Sxx_const xs c Hall) as Z. split; [exact Z |].
      destruct C as [(S1 & _) | (_ & _ & -> & _)]; [contradiction | reflexivity]. }
    pose proof (trendline_ols_cases (pairs_of df) (sc_trendline fig2)) as T.
    cbv zeta in T. rewrite <- Exs, <- Eys in T. specialize (T Et).
    destruct T as [(S2 & ->) | [(_ & H0 & ->) | (_ & c & Hc & Hall & ->)]].
    - assert (Eb : beta = Sxy xs ys / Sxx xs).
      { destruct C as [(_ & -> & _) | (_ & Hc & _)]; [reflexivity |].
        exfalso. apply S2.
        apply (Sxx_const _ (risk_free_rate_monthly (risk_free_rate inp) * 100)).
        intros v Hv. apply in_map_iff in Hv. destruct Hv as (row & <- & Hrow).
        now apply Hc. }
      split; [discriminate |].
      split; [intros i s E; injection E as _ <-; now rewrite Eb |].
      eexists _, _. split; [intros v; reflexivity |]. split.
      + pose proof (ols_line_minimal (pairs_of df)) as M. cbv zeta in M.
        rewrite <- Exs, <- Eys in M. now apply M.
      + intros v _. rewrite Eb. ring.
    - destruct (Hflat 0 H0) as [_ Eb].
      split; [discriminate |].
      split; [intros i s E; injection E as _ <-; now rewrite Eb |].
      exists (mean ys), 0. split; [intros v; reflexivity |]. split.
      + pose proof (const_column_minimal (pairs_of df) 0 (mean ys) 0 Hp) as M.
        rewrite <- Exs, <- Eys in M. apply M; [exact H0 | ring].
      + intros v _. rewrite Eb. ring.
    - destruct (Hflat c Hall) as [_ Eb].
      split; [discriminate |]. split; [intros i s E; discriminate |].
      exists 0, (mean ys / c). split; [intros v; cbn; f_equal; ring |]. split.
      + pose proof (const_column_minimal (pairs_of df) c 0 (mean ys / c) Hp) as M.
        rewrite <- Exs, <- Eys in M. apply M; [exact Hall | field; exact Hc].
      + intros v Hv. rewrite (Hall v Hv), Eb. field. exact Hc. }
  split; [| split; [exact Ex | split; [exact Ey | split; [| split; [| split]]]]].
  - intros f. rewrite Hpage. unfold results_panel, results_heading, page_header.
    cbn [app In]. split.
    + intros H. repeat (destruct H as [H | H]; [try discriminate |]);
        [injection H as <-; reflexivity | contradiction].
    + intros ->. do 12 right. now left.
  - rewrite Hlen. split; [exact Hshort |]. intros EN.
    destruct (le_lt_dec (List.length df) 1) as [L | L]; [exact L |].
    exfalso. now apply (Hfit L).
  - rewrite Hlen, Ex, Ey. intros L.
    destruct (Hfit L) as (_ & _ & i & s & Hv & Hmin & Hmean).
    exists i, s. repeat split; assumption.
  - intros i s E.
    destruct (le_lt_dec (List.length df) 1) as [L | L].
    + rewrite (Hshort L) in E. discriminate.
    + now apply (Hfit L) in E.
  - intros Hrate. rewrite Ex, Ey. now apply X_of_differs.
Qed.

(** ** Rounded display, unrounded labels *)

Lemma round4_near_one : round4 1.00001 = 1.
Proof.
  rewrite (round4_near 1.00001 10000).
  - simpl. lra.
  - simpl. lra.
Qed.

Lemma round4_near_zero : round4 0.00001 = 0.
Proof.
  rewrite (round4_near 0.00001 0).
  - simpl. lra.
  - simpl. lra.
Qed.

(** C10: on every pass that shows no error, the three metrics show the
    fitted parameters and R-squared rounded to 4 decimals, and the two
    interpretation sentences carry a label decided by the unrounded
    parameter: Aggressive, Defensive or Neutral as the fitted Beta is
    above, below or equal to 1, and Outperforming, Underperforming or
    Neutral as the fitted Alpha is above, below or equal to 0.  A Beta
    of 1.00001 is displayed as 1 and labelled Aggressive, and an Alpha
    of 0.00001 is displayed as 0 and labelled Outperforming, where the
    displayed values themselves would be labelled Neutral. *)
Theorem labels_from_unrounded_parameters
    (yf_download : Provider) (inp : Inputs) :
  existsb is_error (fst (render yf_download inp)) = false ->
  (exists (stock_data market_data : Frame) (stock_adj market_adj : PriceSeries)
          (model : RegressionResults) (beta alpha : R)
          (beta_label alpha_label : string),
      fetch_data yf_download (stock_symbol inp) (start_date inp) (end_date inp)
      = Ok stock_data
      /\ fetch_data yf_download (market_indices (selected_index inp))
           (start_date inp) (end_date inp) = Ok market_data
      /\ getitem stock_data "Adj Close" = Ok stock_adj
      /\ getitem market_data "Adj Close" = Ok market_adj
      /\ fit_model (risk_free_rate inp) (returns_df_of stock_adj market_adj)
         = Ok model
      /\ params_getitem (params model) "Market_Return" = Ok beta
      /\ params_getitem (params model) "const" = Ok alpha
      /\ In (St_metric "Beta" (Some (round4 beta))) (fst (render yf_download inp))
      /\ In (St_metric "Jensen's Alpha" (Some (round4 alpha)))
            (fst (render yf_download inp))
      /\ In (St_metric "R-squared" (option_map round4 (rsquared model)))
            (fst (render yf_download inp))
      /\ In (St_write [Lit "**Beta ("; Num4 (round4 beta);
                       Lit "):** This stock is "; Lit beta_label;
                       Lit " compared to the ";
                       Lit (index_name (selected_index inp))])
            (fst (render yf_download inp))
      /\ In (St_write [Lit "**Alpha ("; Num4 (round4 alpha);
                       Lit "):** This stock is "; Lit alpha_label;
                       Lit " the market on a risk-adjusted basis"])
            (fst (render yf_download inp))
      /\ ((1 < beta /\ beta_label = "🔥 **Aggressive**")
          \/ (beta < 1 /\ beta_label = "❄️ **Defensive**")
          \/ (beta = 1 /\ beta_label = "➡️ **Neutral**"))
      /\ ((0 < alpha /\ alpha_label = "📈 **Outperforming**")
          \/ (alpha < 0 /\ alpha_label = "📉 **Underperforming**")
          \/ (alpha = 0 /\ alpha_label = "➡️ **Neutral**")))
  /\ (round4 1.00001 = 1
      /\ beta_interpretation 1.00001 = "🔥 **Aggressive**"
      /\ beta_interpretation (round4 1.00001) = "➡️ **Neutral**")
  /\ (round4 0.00001 = 0
      /\ alpha_interpretation 0.00001 = "📈 **Outperforming**"
      /\ alpha_interpretation (round4 0.00001) = "➡️ **Neutral**").
Proof.
  intros Hok. split; [| split].
  - destruct (successful_pass yf_download inp Hok)
      as (sd & md & sa & ma & model & beta & alpha & fig2
          & H1 & H2 & H3 & H4 & H5 & H6 & H7 & H8 & Hpage).
    exists sd, md, sa, ma, model, beta, alpha,
      (beta_interpretation beta), (alpha_interpretation alpha).
    do 7 (split; [assumption |]).
    rewrite Hpage. unfold results_panel, results_heading, page_header.
    cbn [app In].
    split; [do 5 right; now left |]. split; [do 6 right; now left |].
    split; [do 7 right; now left |]. split; [do 9 right; now left |].
    split; [do 10 right; now left |]. split.
    + unfold beta_interpretation.
      destruct (Rlt_dec 1 beta) as [G | NG]; [left; now split |].
      destruct (Rlt_dec beta 1) as [L | NL]; [right; left; now split |].
      right; right. split; [lra | reflexivity].
    + unfold alpha_interpretation.
      destruct (Rlt_dec 0 alpha) as [G | NG]; [left; now split |].
      destruct (Rlt_dec alpha 0) as [L | NL]; [right; left; now split |].
      right; right. split; [lra | reflexivity].
  - split; [exact round4_near_one |]. split.
    + unfold beta_interpretation.
      destruct (Rlt_dec 1 1.00001) as [_ | N]; [reflexivity | exfalso; lra].
    + rewrite round4_near_one. unfold beta_interpretation.
      destruct (Rlt_dec 1 1) as [N | _]; [exfalso; lra |].
      destruct (Rlt_dec 1 1) as [N | _]; [exfalso; lra | reflexivity].
  - split; [exact round4_near_zero |]. split.
    + unfold alpha_interpretation.
      destruct (Rlt_dec 0 0.00001) as [_ | N]; [reflexivity | exfalso; lra].
    + rewrite round4_near_zero. unfold alpha_interpretation.
      destruct (Rlt_dec 0 0) as [N | _]; [exfalso; lra |].
      destruct (Rlt_dec 0 0) as [N | _]; [exfalso; lra | reflexivity].
Qed.

(** ** The properties on the sample inputs *)

Lemma sample_market_not_constant :
  Sxx (map Market_Return sample_returns_df) <> 0.
Proof.
  apply (market_not_constant sample_returns_df
           (mk_row 1%Z ((102 / 100 - 1) * 100) ((1010 / 1000 - 1) * 100))
           (mk_row 2%Z ((101 / 102 - 1) * 100) ((1005 / 1010 - 1) * 100))).
  - now left.
  - right. now left.
  - simpl. lra.
Qed.

Lemma sample_render (rfr : R) :
  render (two_series_provider "AAPL" sample_stock sample_market)
         (sample_inputs rfr)
  = (page_header
       ++ results_panel (sample_inputs rfr)
            (full_rank_model rfr sample_returns_df)
            (raw_slope sample_returns_df)
            (raw_intercept (risk_free_rate_monthly rfr * 100) sample_returns_df)
       ++ [St_plotly_chart
             (Scatter (full_rank_fig2 (sample_inputs rfr) sample_returns_df));
           St_plotly_chart
             (GroupedBar (fig3_of (sample_inputs rfr) sample_returns_df))],
     Ok tt).
Proof.
  exact (render_full_rank
           (two_series_provider "AAPL" sample_stock sample_market)
           (sample_inputs rfr)
           [("Adj Close", sample_stock)] [("Adj Close", sample_market)]
           sample_stock sample_market eq_refl eq_refl eq_refl eq_refl
           sample_market_not_constant).
Qed.

Lemma near_zero_market_not_constant :
  Sxx (map Market_Return near_zero_returns_df) <> 0.
Proof.
  apply (market_not_constant near_zero_returns_df
           (mk_row 1%Z ((101.00002 / 100 - 1) * 100) ((101 / 100 - 1) * 100))
           (mk_row 2%Z ((103.020050700006 / 101.00002 - 1) * 100)
                       ((103.02 / 101 - 1) * 100))).
  - now left.
  - right. now left.
  - simpl. lra.
Qed.

Lemma near_zero_render :
  render (two_series_provider "AAPL" near_zero_stock near_one_market)
         (sample_inputs 0)
  = (page_header
       ++ results_panel (sample_inputs 0)
            (full_rank_model 0 near_zero_returns_df)
            (raw_slope near_zero_returns_df)
            (raw_intercept (risk_free_rate_monthly 0 * 100) near_zero_returns_df)
       ++ [St_plotly_chart
             (Scatter (full_rank_fig2 (sample_inputs 0) near_zero_returns_df));
           St_plotly_chart
             (GroupedBar (fig3_of (sample_inputs 0) near_zero_returns_df))],
     Ok tt).
Proof.
  exact (render_full_rank
           (two_series_provider "AAPL" near_zero_stock near_one_market)
           (sample_inputs 0)
           [("Adj Close", near_zero_stock)] [("Adj Close", near_one_market)]
           near_zero_stock near_one_market eq_refl eq_refl eq_refl eq_refl
           near_zero_market_not_constant).
Qed.

Lemma near_zero_on_line (row : Row) :
  In row near_zero_returns_df ->
  Stock_Return row = 0.00001 + 1.00001 * Market_Return row.
Proof. intros [<- | [<- | []]]; simpl; lra. Qed.

Lemma near_zero_slope : raw_slope near_zero_returns_df = 1.00001.
Proof.
  apply (raw_slope_of_line near_zero_returns_df 1.00001 0.00001
           near_zero_market_not_constant near_zero_on_line).
Qed.

Lemma near_zero_intercept :
  raw_intercept (risk_free_rate_monthly 0 * 100) near_zero_returns_df = 0.00001.
Proof.
  unfold raw_intercept. rewrite risk_free_rate_monthly_0.
  destruct (raw_slope_of_line near_zero_returns_df 1.00001 0.00001
              near_zero_market_not_constant near_zero_on_line) as [-> ->].
  ring.
Qed.

Lemma periodic_rate_six_pos : 0 < risk_free_rate_monthly 6.
Proof. apply risk_free_rate_monthly_pos. lra. Qed.

(** C1 as stated fails: two Aligned Return Pairs with the same market
    return, at a risk-free rate of 0, give an excess market column that
    is a non-zero constant; no constant column is added, the model has
    a single parameter, and reading Alpha raises. *)
Lemma flat_market_has_no_alpha :
  (2 <= List.length flat_df)%nat
  /\ exists model,
      fit_model 0 flat_df = Ok model
      /\ params_getitem (params model) "const" = Raise (KeyError "const").
Proof.
  split; [simpl; lia |].
  assert (C : is_nonzero_const (X_of 0 flat_df) = true).
  { apply is_nonzero_const_spec. exists 1. split; [lra |].
    split; [discriminate |].
    intros v Hv. simpl in Hv. rewrite risk_free_rate_monthly_0 in Hv.
    destruct Hv as [<- | [<- | []]]; lra. }
  unfold fit_model, add_constant. rewrite C.
  eexists. split; reflexivity.
Qed.

Lemma regressor_fits_ols_witness :
  (2 <= List.length sample_returns_df)%nat
  /\ exists model alpha beta,
      fit_model 6 sample_returns_df = Ok model
      /\ params_getitem (params model) "Market_Return" = Ok beta
      /\ params_getitem (params model) "const" = Ok alpha
      /\ forall a b,
          ssr_line alpha beta (X_of 6 sample_returns_df) (y_of 6 sample_returns_df)
          <= ssr_line a b (X_of 6 sample_returns_df) (y_of 6 sample_returns_df).
Proof.
  assert (L : (2 <= List.length sample_returns_df)%nat) by (simpl; lia).
  split; [exact L |].
  destruct (regressor_fits_ols 6 sample_returns_df L) as (_ & _ & W).
  - exists (mk_row 1%Z ((102 / 100 - 1) * 100) ((1010 / 1000 - 1) * 100)),
      (mk_row 2%Z ((101 / 102 - 1) * 100) ((1005 / 1010 - 1) * 100)).
    split; [now left |]. split; [right; now left |]. simpl. lra.
  - destruct W as (model & alpha & beta & F & B & A & _ & M & _).
    exists model, alpha, beta. repeat split; assumption.
Defined.

Lemma periodic_rate_is_monthly_root_witness :
  0 <= 6 <= 20 /\ (1 + risk_free_rate_monthly 6) ^ 12 = 1 + 6 / 100.
Proof.
  assert (H : 0 <= 6 <= 20) by lra.
  split; [exact H | apply (periodic_rate_is_monthly_root 6 H)].
Defined.

Lemma beta_invariant_alpha_shift_witness :
  raw_slope sample_returns_df = raw_slope sample_returns_df
  /\ raw_intercept (risk_free_rate_monthly 6 * 100) sample_returns_df
     - raw_intercept (risk_free_rate_monthly 0 * 100) sample_returns_df
     = - ((risk_free_rate_monthly 6 - risk_free_rate_monthly 0) * 100
          * (1 - raw_slope sample_returns_df)).
Proof.
  destruct (beta_invariant_alpha_shift sample_returns_df 0 6
              (full_rank_model 0 sample_returns_df)
              (full_rank_model 6 sample_returns_df)
              (raw_intercept (risk_free_rate_monthly 0 * 100) sample_returns_df)
              (raw_slope sample_returns_df)
              (raw_intercept (risk_free_rate_monthly 6 * 100) sample_returns_df)
              (raw_slope sample_returns_df)
              (fit_model_full_rank 0 _ sample_market_not_constant)
              eq_refl eq_refl
              (fit_model_full_rank 6 _ sample_market_not_constant)
              eq_refl eq_refl) as (_ & _ & Hb & Ha).
  split; [exact Hb | exact Ha].
Defined.

Lemma return_transformer_points_witness :
  List.length (Return_Points (Return sample_stock)) = 3%nat
  /\ nth_error (Return sample_stock) 1
     = Some (1%Z, Some ((102 - 100) / 100 * 100)).
Proof.
  destruct (return_transformer_points sample_stock) as (Hl & _ & _ & Hn).
  - simpl. lia.
  - intros d p H. unfold sample_stock in H. simpl in H.
    repeat (destruct H as [H | H]; [injection H as <- <-; lra |]).
    contradiction.
  - split; [exact Hl |].
    apply (Hn 0%nat 0%Z 100 1%Z 102); reflexivity.
Defined.

Lemma sample_dates_NoDup (s : PriceSeries) :
  map fst s = [0%Z; 1%Z; 2%Z; 3%Z] -> NoDup (map fst (Return s)).
Proof.
  intros E. rewrite map_fst_Return, E.
  repeat constructor; simpl; intuition discriminate.
Qed.

Lemma aligned_pairs_inner_join_witness :
  In 3%Z (map row_date
            (dropna (DataFrame (Return sample_stock) (Return overlapping_market))))
  /\ ~ In 1%Z (map row_date
                 (dropna (DataFrame (Return sample_stock)
                            (Return overlapping_market))))
  /\ ~ In 4%Z (map row_date
                 (dropna (DataFrame (Return sample_stock)
                            (Return overlapping_market))))
  /\ List.length (dropna (DataFrame (Return sample_stock)
                            (Return overlapping_market))) = 1%nat
  /\ (List.length (Return_Points (Return sample_stock)) = 3%nat
      /\ List.length (Return_Points (Return overlapping_market)) = 2%nat)
  /\ StronglySorted Z.lt
       (map row_date
          (dropna (DataFrame (Return sample_stock) (Return overlapping_market)))).
Proof.
  destruct (aligned_pairs_inner_join (Return sample_stock)
              (Return overlapping_market))
    as (_ & Hd & _ & Hs & Hlen & _).
  - apply (sample_dates_NoDup sample_stock eq_refl).
  - rewrite map_fst_Return. repeat constructor; simpl; intuition discriminate.
  - split; [apply Hd; simpl; tauto |].
    split; [intros H; apply Hd in H; simpl in H; intuition discriminate |].
    split; [intros H; apply Hd in H; simpl in H; intuition discriminate |].
    split; [rewrite Hlen; reflexivity |].
    split; [split; reflexivity |].
    apply Hs; rewrite map_fst_Return; simpl; repeat constructor; lia.
Defined.

Lemma empty_overlap_reports_error_witness :
  render (two_series_provider "AAPL" sample_stock late_market) (sample_inputs 6)
  = (page_header ++ error_report (ValueError zero_size_msg), Ok tt).
Proof.
  apply (empty_overlap_reports_error
           (two_series_provider "AAPL" sample_stock late_market)
           (sample_inputs 6)
           [("Adj Close", sample_stock)] [("Adj Close", late_market)]
           sample_stock late_market eq_refl eq_refl eq_refl eq_refl).
  left. intros d [Hs Hm]. simpl in Hs, Hm.
  repeat (destruct Hs as [Hs | Hs]; [subst d; intuition discriminate |]).
  contradiction.
Defined.

Lemma errors_caught_at_boundary_witness :
  snd (render failing_provider (sample_inputs 6)) = Ok tt
  /\ existsb is_result (fst (render failing_provider (sample_inputs 6))) = false.
Proof.
  destruct (errors_caught_at_boundary failing_provider (sample_inputs 6)
              (ProviderError "No data found, symbol may be delisted")
              (raises_fetch_stock _ _ _ eq_refl)) as (Hc & _ & Hr).
  split; [exact Hc | exact Hr].
Defined.

Lemma sample_pass_shows_no_error (rfr : R) :
  existsb is_error
    (fst (render (two_series_provider "AAPL" sample_stock sample_market)
                 (sample_inputs rfr))) = false.
Proof. rewrite sample_render. reflexivity. Qed.

(** C8 as stated fails: at the default risk-free rate of 6 the pass on
    the sample prices shows no error, and the x and y values of its
    scatter plot are the raw returns, which differ from the excess
    returns by the periodic rate times 100. *)
Lemma scatter_plot_not_excess_returns :
  existsb is_error
    (fst (render (two_series_provider "AAPL" sample_stock sample_market)
                 (sample_inputs 6))) = false
  /\ exists f,
      In (St_plotly_chart (Scatter f))
         (fst (render (two_series_provider "AAPL" sample_stock sample_market)
                      (sample_inputs 6)))
      /\ sc_x f = map Market_Return sample_returns_df
      /\ sc_x f <> X_of 6 sample_returns_df
      /\ sc_y f <> y_of 6 sample_returns_df.
Proof.
  split; [apply sample_pass_shows_no_error |].
  exists (full_rank_fig2 (sample_inputs 6) sample_returns_df).
  split; [rewrite sample_render; cbn [fst]; do 12 right; now left |].
  split; [reflexivity |].
  apply X_of_differs; [discriminate |].
  pose proof periodic_rate_six_pos. lra.
Qed.

(** A pass on one Aligned Return Pair whose market return is zero
    completes, and its scatter plot has no trendline. *)
Lemma one_pair_render :
  exists model beta alpha,
    render (two_series_provider "AAPL" one_pair_stock one_pair_market)
           (sample_inputs 0)
    = (page_header
         ++ results_panel (sample_inputs 0) model beta alpha
         ++ [St_plotly_chart
               (Scatter (mk_scatter (map Market_Return one_pair_returns_df)
                           (map Stock_Return one_pair_returns_df) NoTrendline
                           [Lit "AAPL"; Lit " Returns vs "; Lit "S&P 500";
                            Lit " Returns"]
                           [Lit "S&P 500"; Lit " Returns (%)"]
                           [Lit "AAPL"; Lit " Returns (%)"]));
             St_plotly_chart
               (GroupedBar (fig3_of (sample_inputs 0) one_pair_returns_df))],
       Ok tt).
Proof.
  destruct (fit_model_nonempty 0 one_pair_returns_df)
    as (model & beta & F & B & _ & Cf); [discriminate |].
  destruct Cf as [alpha A].
  { destruct (is_nonzero_const (X_of 0 one_pair_returns_df)) eqn:E;
      [| reflexivity].
    apply is_nonzero_const_spec in E. destruct E as (c & Hc & _ & Hall).
    exfalso. apply Hc. symmetry. apply Hall. left.
    rewrite risk_free_rate_monthly_0. simpl. lra. }
  exists model, beta, alpha. rewrite script_run.
  rewrite (body_succeeds
             (two_series_provider "AAPL" one_pair_stock one_pair_market)
             (sample_inputs 0)
             [("Adj Close", one_pair_stock)] [("Adj Close", one_pair_market)]
             eq_refl eq_refl one_pair_stock eq_refl one_pair_market eq_refl
             model F beta B alpha A _ page_header eq_refl).
  reflexivity.
Qed.

Lemma one_pair_pass_shows_no_error :
  existsb is_error
    (fst (render (two_series_provider "AAPL" one_pair_stock one_pair_market)
                 (sample_inputs 0))) = false.
Proof.
  destruct one_pair_render as (model & beta & alpha & ->). reflexivity.
Qed.

Lemma scatter_plots_raw_returns_witness :
  (exists fig2 i s,
      In (St_plotly_chart (Scatter fig2))
         (fst (render (two_series_provider "AAPL" sample_stock sample_market)
                      (sample_inputs 6)))
      /\ sc_x fig2 = map Market_Return sample_returns_df
      /\ (forall v, trend_value (sc_trendline fig2) v = Some (i + s * v))
      /\ forall a b,
          ssr_line i s (sc_x fig2) (sc_y fig2)
          <= ssr_line a b (sc_x fig2) (sc_y fig2))
  /\ (exists fig2,
        In (St_plotly_chart (Scatter fig2))
           (fst (render (two_series_provider "AAPL" one_pair_stock one_pair_market)
                        (sample_inputs 0)))
        /\ sc_x fig2 = map Market_Return one_pair_returns_df
        /\ sc_trendline fig2 = NoTrendline).
Proof.
  split.
  - destruct (scatter_plots_raw_returns
                (two_series_provider "AAPL" sample_stock sample_market)
                (sample_inputs 6) (sample_pass_shows_no_error 6))
      as (sd & md & sa & ma & model & beta & fig2
          & _ & _ & _ & _ & _ & _ & Hin & _ & _ & _ & Hline & _).
    assert (E : full_rank_fig2 (sample_inputs 6) sample_returns_df = fig2).
    { apply Hin. rewrite sample_render. cbn [fst]. do 12 right. now left. }
    subst fig2.
    destruct Hline as (i & s & Hv & Hmin & _); [simpl; lia |].
    exists (full_rank_fig2 (sample_inputs 6) sample_returns_df), i, s.
    split; [now apply Hin |]. split; [reflexivity |]. split; assumption.
  - destruct (scatter_plots_raw_returns
                (two_series_provider "AAPL" one_pair_stock one_pair_market)
                (sample_inputs 0) one_pair_pass_shows_no_error)
      as (sd & md & sa & ma & model & beta & fig2
          & _ & _ & _ & _ & _ & _ & Hin & _ & _ & Hnone & _).
    destruct one_pair_render as (model' & beta' & alpha' & Hpage).
    match type of Hpage with
    | context [Scatter ?f] =>
        assert (E : f = fig2)
          by (apply Hin; rewrite Hpage; cbn [fst]; do 12 right; now left)
    end.
    subst fig2. eexists. split; [now apply Hin |].
    split; [reflexivity |]. apply Hnone. simpl. lia.
Defined.

Lemma near_zero_pass_shows_no_error :
  existsb is_error
    (fst (render (two_series_provider "AAPL" near_zero_stock near_one_market)
                 (sample_inputs 0))) = false.
Proof. rewrite near_zero_render. reflexivity. Qed.

Lemma labels_from_unrounded_parameters_witness :
  existsb is_error
    (fst (render (two_series_provider "AAPL" near_zero_stock near_one_market)
                 (sample_inputs 0))) = false
  /\ In (St_metric "Beta" (Some 1))
        (fst (render (two_series_provider "AAPL" near_zero_stock near_one_market)
                     (sample_inputs 0)))
  /\ In (St_metric "Jensen's Alpha" (Some 0))
        (fst (render (two_series_provider "AAPL" near_zero_stock near_one_market)
                     (sample_inputs 0)))
  /\ In (St_write [Lit "**Beta ("; Num4 1; Lit "):** This stock is ";
                   Lit "🔥 **Aggressive**"; Lit " compared to the ";
                   Lit "S&P 500"])
        (fst (render (two_series_provider "AAPL" near_zero_stock near_one_market)
                     (sample_inputs 0)))
  /\ In (St_write [Lit "**Alpha ("; Num4 0; Lit "):** This stock is ";
                   Lit "📈 **Outperforming**";
                   Lit " the market on a risk-adjusted basis"])
        (fst (render (two_series_provider "AAPL" near_zero_stock near_one_market)
                     (sample_inputs 0))).
Proof.
  split; [exact near_zero_pass_shows_no_error |].
  destruct (labels_from_unrounded_parameters
              (two_series_provider "AAPL" near_zero_stock near_one_market)
              (sample_inputs 0) near_zero_pass_shows_no_error)
    as ((sd & md & sa & ma & model & beta & alpha & lb & la
         & H1 & H2 & H3 & H4 & H5 & H6 & H7 & Mb & Ma & _ & Sb & Sa & Lb & La)
        & _ & _).
  change (Ok [("Adj Close", near_zero_stock)] = Ok sd) in H1.
  injection H1 as <-.
  change (Ok [("Adj Close", near_one_market)] = Ok md) in H2.
  injection H2 as <-.
  change (Ok near_zero_stock = Ok sa) in H3. injection H3 as <-.
  change (Ok near_one_market = Ok ma) in H4. injection H4 as <-.
  change (fit_model 0 near_zero_returns_df = Ok model) in H5.
  pose proof (fit_model_full_rank 0 _ near_zero_market_not_constant) as F.
  cbv zeta in F. rewrite F in H5. injection H5 as <-.
  change (Ok (raw_slope near_zero_returns_df) = Ok beta) in H6.
  injection H6 as <-.
  change (Ok (raw_intercept (risk_free_rate_monthly 0 * 100) near_zero_returns_df)
          = Ok alpha) in H7.
  injection H7 as <-.
  rewrite near_zero_slope in Mb, Sb, Lb.
  rewrite near_zero_intercept in Ma, Sa, La.
  rewrite round4_near_one in Mb, Sb. rewrite round4_near_zero in Ma, Sa.
  destruct Lb as [[_ ->] | [[C _] | [C _]]]; [| exfalso; lra | exfalso; lra].
  destruct La as [[_ ->] | [[C _] | [C _]]]; [| exfalso; lra | exfalso; lra].
  split; [exact Mb |]. split; [exact Ma |]. split; [exact Sb | exact Sa].
Defined.

(** * Further properties of the script *)

(** ** The shape of every page *)

Lemma results_panel_no_error (inp : Inputs) (model : RegressionResults)
    (beta alpha : R) :
  existsb is_error (results_panel inp model beta alpha) = false.
Proof. reflexivity. Qed.

(** Whatever happens in the body of the [try], it only appends to the
    page, never an error message, and when it returns it has rendered
    the results panel and the two charts. *)
Lemma try_body_appends (yf_download : Provider) (inp : Inputs) (p0 : Page) :
  exists pre,
    fst (try_body yf_download inp p0) = p0 ++ pre
    /\ existsb is_error pre = false
    /\ (snd (try_body yf_download inp p0) = Ok tt ->
        exists stock_adj market_adj model beta alpha fig2,
          pre = completed_body inp model beta alpha fig2
                  (returns_df_of stock_adj market_adj)).
Proof.
  destruct (fetch_data yf_download (stock_symbol inp) (start_date inp)
              (end_date inp)) as [sd | e] eqn:H1.
  2:{ exists []. rewrite (body_fetch_stock_raises _ _ e p0 H1).
      rewrite app_nil_r. repeat split. discriminate. }
  destruct (fetch_data yf_download (market_indices (selected_index inp))
              (start_date inp) (end_date inp)) as [md | e] eqn:H2.
  2:{ exists []. rewrite (body_fetch_market_raises _ _ sd e p0 H1 H2).
      rewrite app_nil_r. repeat split. discriminate. }
  destruct (getitem sd "Adj Close") as [sa | e] eqn:H3.
  2:{ exists []. rewrite (body_getitem_stock_raises _ _ sd md H1 H2 e p0 H3).
      rewrite app_nil_r. repeat split. discriminate. }
  destruct (getitem md "Adj Close") as [ma | e] eqn:H4.
  2:{ exists []. rewrite (body_getitem_market_raises _ _ sd md H1 H2 sa H3 e p0 H4).
      rewrite app_nil_r. repeat split. discriminate. }
  destruct (fit_model (risk_free_rate inp) (returns_df_of sa ma))
    as [model | e] eqn:H5.
  2:{ exists []. rewrite (body_fit_raises _ _ sd md H1 H2 sa H3 ma H4 e p0 H5).
      rewrite app_nil_r. repeat split. discriminate. }
  destruct (params_getitem (params model) "Market_Return") as [beta | e] eqn:H6.
  2:{ exists (results_heading inp).
      rewrite (body_beta_raises _ _ sd md H1 H2 sa H3 ma H4 model H5 e p0 H6).
      repeat split. discriminate. }
  destruct (params_getitem (params model) "const") as [alpha | e] eqn:H7.
  2:{ exists (results_heading inp).
      rewrite (body_alpha_raises _ _ sd md H1 H2 sa H3 ma H4 model H5 beta H6
                 e p0 H7).
      repeat split. discriminate. }
  destruct (fig2_of inp (returns_df_of sa ma)) as [fig2 | e] eqn:H8.
  2:{ exists (results_panel inp model beta alpha).
      rewrite (body_chart_raises _ _ sd md H1 H2 sa H3 ma H4 model H5 beta H6
                 alpha H7 e p0 H8).
      repeat split. discriminate. }
  exists (completed_body inp model beta alpha fig2 (returns_df_of sa ma)).
  rewrite (body_succeeds _ _ sd md H1 H2 sa H3 ma H4 model H5 beta H6 alpha H7
             fig2 p0 H8).
  split; [reflexivity |]. split; [reflexivity |].
  intros _. exists sa, ma, model, beta, alpha, fig2. reflexivity.
Qed.

(** X1: every pass, whatever the provider and the inputs, lets no
    exception escape and renders the title, the description and the
    sidebar header first.  After them the page either is the results
    panel followed by the scatter plot and the bar chart, with no error
    message, or it ends with one error message followed by the hint,
    with no error message before it. *)
Theorem pass_page_shape (yf_download : Provider) (inp : Inputs) :
  snd (render yf_download inp) = Ok tt
  /\ exists body,
      existsb is_error body = false
      /\ ((fst (render yf_download inp) = page_header ++ body
           /\ exists stock_adj market_adj model beta alpha fig2,
               body = completed_body inp model beta alpha fig2
                        (returns_df_of stock_adj market_adj))
          \/ exists e,
              fst (render yf_download inp)
              = page_header ++ body ++ error_report e).
Proof.
  split; [apply render_catches_all |].
  destruct (try_body_appends yf_download inp page_header)
    as (pre & Hpage & Hno & Hdone).
  exists pre. split; [exact Hno |].
  rewrite script_run.
  destruct (try_body yf_download inp page_header) as [p [[] | e]];
    cbn [fst snd] in *.
  - left. split; [exact Hpage | now apply Hdone].
  - right. exists e. rewrite Hpage, <- app_assoc. reflexivity.
Qed.

(** ** A frame without the adjusted close *)

Lemma getitem_missing (f : Frame) (key : string) :
  ~ In key (map fst f) -> getitem f key = Raise (KeyError key).
Proof.
  induction f as [| [k col] f IH]; simpl; intros H; [reflexivity |].
  destruct (String.eqb k key) eqn:E.
  - apply String.eqb_eq in E. exfalso. apply H. now left.
  - apply IH. intros Hin. apply H. now right.
Qed.

Lemma getitem_present (f : Frame) (key : string) :
  In key (map fst f) -> exists col, getitem f key = Ok col.
Proof.
  induction f as [| [k col] f IH]; simpl; intros H; [contradiction |].
  destruct (String.eqb k key) eqn:E; [now exists col |].
  apply IH. destruct H as [H | H]; [| exact H].
  apply String.eqb_neq in E. congruence.
Qed.

(** X2: when both frames are fetched and one of them has no
    ["Adj Close"] column, the page is the header, the error message
    with the text ['Adj Close'] of the [KeyError], and the hint. *)
Theorem missing_adj_close_reports_keyerror
    (yf_download : Provider) (inp : Inputs) (stock_data market_data : Frame) :
  fetch_data yf_download (stock_symbol inp) (start_date inp) (end_date inp)
  = Ok stock_data ->
  fetch_data yf_download (market_indices (selected_index inp))
    (start_date inp) (end_date inp) = Ok market_data ->
  ~ In "Adj Close" (map fst stock_data)
  \/ ~ In "Adj Close" (map fst market_data) ->
  render yf_download inp
  = (page_header
       ++ [St_error [Lit "An error occurred: "; Lit "'Adj Close'"];
           St_write [Lit hint]],
     Ok tt).
Proof.
  intros H1 H2 Hmiss. rewrite script_run.
  destruct (in_dec string_dec "Adj Close" (map fst stock_data)) as [Hin | Hnot].
  - destruct Hmiss as [Hs | Hm]; [contradiction |].
    destruct (getitem_present _ _ Hin) as [sa H3].
    rewrite (body_getitem_market_raises _ _ stock_data market_data H1 H2 sa H3
               _ _ (getitem_missing _ _ Hm)).
    reflexivity.
  - rewrite (body_getitem_stock_raises _ _ stock_data market_data H1 H2
               _ _ (getitem_missing _ _ Hnot)).
    reflexivity.
Qed.

Lemma missing_adj_close_reports_keyerror_witness :
  render (close_only_provider sample_stock) (sample_inputs 6)
  = (page_header
       ++ [St_error [Lit "An error occurred: "; Lit "'Adj Close'"];
           St_write [Lit hint]],
     Ok tt).
Proof.
  apply (missing_adj_close_reports_keyerror
           (close_only_provider sample_stock) (sample_inputs 6)
           [("Close", sample_stock)] [("Close", sample_stock)]
           eq_refl eq_refl).
  left. simpl. intros [H | []]. discriminate.
Defined.

(** ** More on the return transform *)

Lemma positive_prices_tail (c : date * R) (s : PriceSeries) :
  positive_prices (c :: s) -> positive_prices s.
Proof. intros H d p Hin. apply (H d p). now right. Qed.

Lemma positive_prices_head (d : date) (p : R) (s : PriceSeries) :
  positive_prices ((d, p) :: s) -> 0 < p.
Proof. intros H. apply (H d p). now left. Qed.

(** X3: on positive prices the return of a date has the sign of the
    price change from the date before and is greater than -100: it is
    positive exactly when the price rose, zero exactly when the price
    did not move, negative exactly when it fell. *)
Theorem return_sign_and_floor
    (prices : PriceSeries) (t : nat) (d' d : date) (q p : R) :
  positive_prices prices ->
  nth_error prices t = Some (d', q) ->
  nth_error prices (S t) = Some (d, p) ->
  exists r,
    nth_error (Return prices) (S t) = Some (d, Some r)
    /\ -100 < r
    /\ (0 < r <-> q < p)
    /\ (r = 0 <-> p = q)
    /\ (r < 0 <-> p < q).
Proof.
  intros Hpos Ht HSt.
  assert (Hq : 0 < q) by (apply (Hpos d'); eapply nth_error_In; exact Ht).
  assert (Hp : 0 < p) by (apply (Hpos d); eapply nth_error_In; exact HSt).
  exists ((p / q - 1) * 100). split.
  - unfold Return, series_mul. rewrite nth_error_map.
    pose proof (nth_error_pct_change prices t d' d q p Ht HSt) as E.
    unfold value in E. rewrite E. reflexivity.
  - assert (Hinv : 0 < / q) by now apply Rinv_0_lt_compat.
    assert (Hpq : 0 < p / q) by (apply Rmult_lt_0_compat; assumption).
    assert (E : p = p / q * q) by (field; lra).
    split; [lra |]. repeat split; intros H; nra.
Qed.

Lemma return_sign_and_floor_witness :
  exists r,
    nth_error (Return sample_stock) 2 = Some (2%Z, Some r) /\ -100 < r /\ r < 0.
Proof.
  destruct (return_sign_and_floor sample_stock 1 1%Z 2%Z 102 101)
    as (r & Hr & Hfloor & _ & _ & Hneg).
  - intros d p H. unfold sample_stock in H. simpl in H.
    repeat (destruct H as [H | H]; [injection H as <- <-; lra |]).
    contradiction.
  - reflexivity.
  - reflexivity.
  - exists r. split; [exact Hr |]. split; [exact Hfloor |]. apply Hneg. lra.
Defined.

Lemma pct_change_from_scale (k prev : R) (s : PriceSeries) :
  0 < k -> 0 < prev -> positive_prices s ->
  pct_change_from (k * prev) (scale_prices k s) = pct_change_from prev s.
Proof.
  intros Hk. revert prev. induction s as [| [d p] s IH]; intros prev Hprev Hpos;
    [reflexivity |].
  simpl. rewrite (IH p (positive_prices_head d p s Hpos)
                    (positive_prices_tail _ s Hpos)).
  do 3 f_equal. field. split; lra.
Qed.

Lemma Return_scale (k : R) (s : PriceSeries) :
  0 < k -> positive_prices s -> Return (scale_prices k s) = Return s.
Proof.
  intros Hk Hpos. unfold Return. f_equal.
  destruct s as [| [d p] s]; [reflexivity |].
  simpl. f_equal.
  apply pct_change_from_scale;
    [exact Hk | exact (positive_prices_head d p s Hpos)
     | exact (positive_prices_tail _ s Hpos)].
Qed.

(** X4: the unit of price does not matter.  Multiplying every stock
    price by one positive factor and every market price by another
    leaves both return columns, [returns_df] and so the fitted model
    unchanged. *)
Theorem returns_ignore_price_unit
    (k k' rfr : R) (stock_adj market_adj : PriceSeries) :
  0 < k -> 0 < k' ->
  positive_prices stock_adj -> positive_prices market_adj ->
  Return (scale_prices k stock_adj) = Return stock_adj
  /\ returns_df_of (scale_prices k stock_adj) (scale_prices k' market_adj)
     = returns_df_of stock_adj market_adj
  /\ fit_model rfr
       (returns_df_of (scale_prices k stock_adj) (scale_prices k' market_adj))
     = fit_model rfr (returns_df_of stock_adj market_adj).
Proof.
  intros Hk Hk' Hs Hm.
  assert (E : returns_df_of (scale_prices k stock_adj) (scale_prices k' market_adj)
              = returns_df_of stock_adj market_adj).
  { unfold returns_df_of. now rewrite !Return_scale. }
  split; [now apply Return_scale |]. split; [exact E | now rewrite E].
Qed.

Lemma sample_stock_positive : positive_prices sample_stock.
Proof.
  intros d p H. unfold sample_stock in H. simpl in H.
  repeat (destruct H as [H | H]; [injection H as <- <-; lra |]).
  contradiction.
Qed.

Lemma sample_market_positive : positive_prices sample_market.
Proof.
  intros d p H. unfold sample_market in H. simpl in H.
  repeat (destruct H as [H | H]; [injection H as <- <-; lra |]).
  contradiction.
Qed.

Lemma returns_ignore_price_unit_witness :
  returns_df_of (scale_prices 83 sample_stock) (scale_prices (1 / 2) sample_market)
  = returns_df_of sample_stock sample_market.
Proof.
  apply (returns_ignore_price_unit 83 (1 / 2) 6 sample_stock sample_market);
    [lra | lra | exact sample_stock_positive | exact sample_market_positive].
Defined.

Lemma pct_change_from_inj (q : R) (s s' : PriceSeries) :
  0 < q -> positive_prices s ->
  series_mul (pct_change_from q s) 100 = series_mul (pct_change_from q s') 100 ->
  s = s'.
Proof.
  revert q s'. induction s as [| [d p] s IH]; intros q [| [d' p'] s'] Hq Hpos E;
    try reflexivity; try discriminate.
  simpl in E. injection E as Ed Ep Es.
  assert (p = p').
  { assert (p / q = p' / q) by lra.
    replace p with (p / q * q) by (field; lra).
    replace p' with (p' / q * q) by (field; lra). congruence. }
  subst d' p'. f_equal.
  apply (IH p); [exact (positive_prices_head d p s Hpos)
                | exact (positive_prices_tail _ s Hpos) | exact Es].
Qed.

(** X5: the returns lose only the level of the prices.  Two series of
    positive prices that start at the same price and have the same
    return column are the same series. *)
Theorem returns_determine_prices (s s' : PriceSeries) :
  positive_prices s ->
  option_map snd (hd_error s) = option_map snd (hd_error s') ->
  Return s = Return s' ->
  s = s'.
Proof.
  intros Hpos Hhd E.
  destruct s as [| [d p] s]; destruct s' as [| [d' p'] s'];
    try reflexivity; try discriminate.
  simpl in Hhd. injection Hhd as <-.
  unfold Return in E. simpl in E. injection E as <- Es.
  f_equal.
  apply (pct_change_from_inj p);
    [exact (positive_prices_head d p s Hpos)
    | exact (positive_prices_tail _ s Hpos) | exact Es].
Qed.

Lemma returns_determine_prices_witness :
  scale_prices 1 sample_stock = sample_stock.
Proof.
  apply returns_determine_prices.
  - intros d p H. unfold sample_stock in H. simpl in H.
    repeat (destruct H as [H | H]; [injection H as <- <-; lra |]).
    contradiction.
  - simpl. f_equal. lra.
  - apply Return_scale; [lra | exact sample_stock_positive].
Defined.

(** ** Prices on the same dates *)

(** Two lists in strictly increasing order of a key, with the same
    elements, are the same list. *)
Lemma sorted_ext {A} (key : A -> Z) (l1 l2 : list A) :
  StronglySorted Z.lt (map key l1) ->
  StronglySorted Z.lt (map key l2) ->
  (forall a, In a l1 <-> In a l2) ->
  l1 = l2.
Proof.
  revert l2. induction l1 as [| a1 l1 IH]; intros l2 S1 S2 Hin.
  - destruct l2 as [| a2 l2]; [reflexivity |].
    exfalso. apply (Hin a2). now left.
  - destruct l2 as [| a2 l2]; [exfalso; apply (Hin a1); now left |].
    simpl in S1, S2.
    inversion S1 as [| ? ? S1' F1]; subst. inversion S2 as [| ? ? S2' F2]; subst.
    rewrite Forall_forall in F1, F2.
    assert (E : a1 = a2).
    { destruct (proj1 (Hin a1) (or_introl eq_refl)) as [E | H12]; [now symmetry |].
      destruct (proj2 (Hin a2) (or_introl eq_refl)) as [E | H21]; [exact E |].
      pose proof (F2 _ (in_map key _ _ H12)).
      pose proof (F1 _ (in_map key _ _ H21)). lia. }
    subst a2. f_equal. apply IH; [exact S1' | exact S2' |].
    intros a. split; intros Ha.
    + destruct (proj1 (Hin a) (or_intror Ha)) as [E | H]; [| exact H].
      subst a. pose proof (F1 _ (in_map key _ _ Ha)). lia.
    + destruct (proj2 (Hin a) (or_intror Ha)) as [E | H]; [| exact H].
      subst a. pose proof (F2 _ (in_map key _ _ Ha)). lia.
Qed.

Lemma Return_Points_dates (prices : PriceSeries) :
  map fst (Return_Points (Return prices)) = tl (map fst prices).
Proof.
  destruct prices as [| [d0 p0] s]; [reflexivity |].
  unfold Return. simpl. apply Return_Points_from.
Qed.

Lemma sorted_tl (l : list Z) : StronglySorted Z.lt l -> StronglySorted Z.lt (tl l).
Proof. intros H. destruct l; [constructor | now inversion H]. Qed.

Lemma returns_df_sorted (stock_adj market_adj : PriceSeries) :
  StronglySorted Z.lt (map fst stock_adj) ->
  StronglySorted Z.lt (map fst market_adj) ->
  StronglySorted Z.lt (map row_date (returns_df_of stock_adj market_adj)).
Proof.
  intros Ss Sm. unfold returns_df_of. apply dropna_dates_sorted.
  rewrite DataFrame_index, !map_fst_Return. now apply index_union_sorted.
Qed.

(** X6: for a stock and a market price series on the same strictly
    increasing dates, [returns_df] has one row for every date but the
    first, in date order; its stock column is the return column of the
    stock and its market column the return column of the market. *)
Theorem returns_df_on_common_dates (stock_adj market_adj : PriceSeries) :
  map fst stock_adj = map fst market_adj ->
  StronglySorted Z.lt (map fst stock_adj) ->
  let returns_df := returns_df_of stock_adj market_adj in
  map (fun r => (row_date r, Stock_Return r)) returns_df
  = Return_Points (Return stock_adj)
  /\ map (fun r => (row_date r, Market_Return r)) returns_df
     = Return_Points (Return market_adj)
  /\ map row_date returns_df = tl (map fst stock_adj)
  /\ List.length returns_df = (List.length stock_adj - 1)%nat.
Proof.
  intros Hidx Hsorted returns_df.
  assert (NDs : NoDup (map fst (Return stock_adj))).
  { rewrite map_fst_Return. now apply sorted_NoDup. }
  assert (NDm : NoDup (map fst (Return market_adj))).
  { rewrite map_fst_Return, <- Hidx. now apply sorted_NoDup. }
  assert (Hrow : forall d x y,
             In (mk_row d x y) returns_df
             <-> In (d, Some x) (Return stock_adj)
                 /\ In (d, Some y) (Return market_adj))
    by (intros d x y; now apply returns_row_iff).
  assert (Hdef : defined_dates (Return stock_adj)
                 = defined_dates (Return market_adj)).
  { unfold defined_dates. rewrite !Return_Points_dates. now rewrite Hidx. }
  assert (Hs : map (fun r => (row_date r, Stock_Return r)) returns_df
               = Return_Points (Return stock_adj)).
  { apply (sorted_ext fst).
    - rewrite map_map. apply returns_df_sorted; [| rewrite <- Hidx]; exact Hsorted.
    - rewrite Return_Points_dates. now apply sorted_tl.
    - intros [d x]. rewrite Return_Points_in, in_map_iff. split.
      + intros ([d' x' y] & E & Hin). simpl in E. injection E as -> ->.
        now apply Hrow in Hin.
      + intros Hin.
        assert (Hd : In d (defined_dates (Return market_adj))).
        { rewrite <- Hdef. apply defined_dates_in. now exists x. }
        apply defined_dates_in in Hd. destruct Hd as [y Hy].
        exists (mk_row d x y). split; [reflexivity | now apply Hrow]. }
  assert (Hm : map (fun r => (row_date r, Market_Return r)) returns_df
               = Return_Points (Return market_adj)).
  { apply (sorted_ext fst).
    - rewrite map_map. apply returns_df_sorted; [| rewrite <- Hidx]; exact Hsorted.
    - rewrite Return_Points_dates, <- Hidx. now apply sorted_tl.
    - intros [d y]. rewrite Return_Points_in, in_map_iff. split.
      + intros ([d' x y'] & E & Hin). simpl in E. injection E as -> ->.
        now apply Hrow in Hin.
      + intros Hin.
        assert (Hd : In d (defined_dates (Return stock_adj))).
        { rewrite Hdef. apply defined_dates_in. now exists y. }
        apply defined_dates_in in Hd. destruct Hd as [x Hx].
        exists (mk_row d x y). split; [reflexivity | now apply Hrow]. }
  assert (Hd : map row_date returns_df = tl (map fst stock_adj)).
  { rewrite <- Return_Points_dates, <- Hs, map_map. reflexivity. }
  split; [exact Hs |]. split; [exact Hm |]. split; [exact Hd |].
  rewrite <- (length_map row_date), Hd.
  destruct stock_adj; simpl; [reflexivity |]. rewrite length_map. lia.
Qed.

Lemma returns_df_on_common_dates_witness :
  map row_date (returns_df_of sample_stock sample_market) = [1%Z; 2%Z; 3%Z]
  /\ List.length (returns_df_of sample_stock sample_market) = 3%nat.
Proof.
  destruct (returns_df_on_common_dates sample_stock sample_market)
    as (_ & _ & Hd & Hl).
  - reflexivity.
  - simpl. repeat constructor; lia.
  - split; [exact Hd | exact Hl].
Defined.

(** ** The normal equations *)

Lemma sum_residuals_moments (l : list (R * R)) (a b : R) :
  sum (map (fun p => snd p - a - b * fst p) l)
  = sum (map snd l) - INR (List.length l) * a - b * sum (map fst l).
Proof.
  induction l as [| [u v] l IH]; [simpl; ring |].
  change (List.length ((u, v) :: l)) with (S (List.length l)). rewrite S_INR.
  rewrite !map_cons, !sum_cons, IH. simpl. ring.
Qed.

Lemma sum_residuals_x_moments (l : list (R * R)) (a b : R) :
  sum (map (fun p => (snd p - a - b * fst p) * fst p) l)
  = sum (map (fun p => fst p * snd p) l) - a * sum (map fst l)
    - b * sum (map (fun v => v ^ 2) (map fst l)).
Proof.
  induction l as [| [u v] l IH]; [simpl; ring |].
  rewrite !map_cons, !sum_cons, IH. simpl. ring.
Qed.

Lemma ols_normal_equations (l : list (R * R)) :
  let x := map fst l in
  let y := map snd l in
  let beta := Sxy x y / Sxx x in
  let alpha := mean y - beta * mean x in
  Sxx x <> 0 ->
  sum (map (fun p => snd p - alpha - beta * fst p) l) = 0
  /\ sum (map (fun p => (snd p - alpha - beta * fst p) * fst p) l) = 0.
Proof.
  intros x y beta alpha HS.
  assert (Hn : INR (List.length l) <> 0).
  { destruct l as [| p l]; [exfalso; apply HS; reflexivity |].
    pose proof (INR_length_pos p l). lra. }
  subst alpha beta. unfold x, y in *. clear x y.
  rewrite sum_residuals_moments, sum_residuals_x_moments.
  rewrite Sxy_moments. revert HS. rewrite Sxx_moments.
  unfold mean. rewrite !length_map.
  generalize (sum (map (fun p => fst p * snd p) l)) as sxy.
  generalize (sum (map (fun v => v ^ 2) (map fst l))) as sxx.
  generalize (sum (map fst l)) as sx.
  generalize (sum (map snd l)) as sy.
  generalize dependent (INR (List.length l)).
  intros n Hn sy sx sxx sxy HS.
  assert (HD : sxx * n - 2 * sx * sx + sx ^ 2 <> 0).
  { intros E. apply HS.
    replace (sxx - 2 * (sx / n) * sx + n * (sx / n) ^ 2)
      with ((sxx * n - 2 * sx * sx + sx ^ 2) / n) by (field; exact Hn).
    rewrite E. field. exact Hn. }
  split; field; split; assumption.
Qed.

Lemma residual_sum_pairs (c a b : R) (df : list Row) :
  sum (map (residual c a b) df)
  = sum (map (fun p => snd p - a - b * fst p) (shift_pairs c (pairs_of df))).
Proof. unfold shift_pairs, pairs_of. rewrite !map_map. reflexivity. Qed.

Lemma residual_x_sum_pairs (c a b : R) (df : list Row) :
  sum (map (fun row => residual c a b row * (Market_Return row - c)) df)
  = sum (map (fun p => (snd p - a - b * fst p) * fst p)
           (shift_pairs c (pairs_of df))).
Proof. unfold shift_pairs, pairs_of. rewrite !map_map. reflexivity. Qed.

(** X7: whenever the model is fitted and has both parameters, the
    residuals of the excess stock returns about the fitted line sum to
    zero and are orthogonal to the excess market returns; so Alpha is
    the mean excess stock return less Beta times the mean excess
    market return. *)
Theorem fit_normal_equations
    (rfr : R) (df : list Row) (model : RegressionResults) (alpha beta : R) :
  fit_model rfr df = Ok model ->
  params_getitem (params model) "Market_Return" = Ok beta ->
  params_getitem (params model) "const" = Ok alpha ->
  let c := risk_free_rate_monthly rfr * 100 in
  sum (map (residual c alpha beta) df) = 0
  /\ sum (map (fun row => residual c alpha beta row * (Market_Return row - c)) df)
     = 0
  /\ alpha = mean (y_of rfr df) - beta * mean (X_of rfr df).
Proof.
  intros F B A c.
  assert (Hdf : df <> []).
  { intros ->. rewrite fit_model_nil in F. discriminate. }
  assert (Hp : pairs_of df <> []) by now rewrite pairs_of_nil.
  destruct (fit_model_cases rfr df model alpha beta F B A)
    as [(HS & -> & ->) | (_ & Hflat & -> & ->)]; fold c.
  - set (l := shift_pairs c (pairs_of df)).
    assert (HSl : Sxx (map fst l) <> 0).
    { unfold l. rewrite Sxx_shift, <- Market_Return_pairs. exact HS. }
    pose proof (ols_normal_equations l HSl) as N. cbv zeta in N.
    assert (Eb : Sxy (map fst l) (map snd l) / Sxx (map fst l) = raw_slope df).
    { unfold l, c. rewrite <- X_of_pairs, <- y_of_pairs.
      apply raw_slope_excess. }
    assert (Ea : mean (map snd l) - raw_slope df * mean (map fst l)
                 = raw_intercept c df).
    { unfold l, c. rewrite <- X_of_pairs, <- y_of_pairs.
      now apply raw_intercept_excess. }
    rewrite Eb, Ea in N. destruct N as [N1 N2].
    rewrite residual_sum_pairs, residual_x_sum_pairs. fold l.
    split; [exact N1 |]. split; [exact N2 |].
    rewrite <- Ea. unfold l, c. now rewrite <- X_of_pairs, <- y_of_pairs.
  - subst c.
    assert (HX : forall v, In v (X_of rfr df) -> v = 0).
    { intros v Hv. unfold X_of in Hv. apply in_map_iff in Hv.
      destruct Hv as (row & <- & Hrow). rewrite (Hflat row Hrow). ring. }
    assert (MX : mean (X_of rfr df) = 0).
    { apply mean_const; [| exact HX]. unfold X_of.
      destruct df; [congruence | discriminate]. }
    assert (My : mean (y_of rfr df)
                 = mean (map Stock_Return df) - risk_free_rate_monthly rfr * 100).
    { rewrite y_of_pairs, mean_shift_snd by exact Hp.
      now rewrite <- Stock_Return_pairs. }
    split; [| split].
    + rewrite residual_sum_pairs, sum_residuals_moments.
      rewrite <- y_of_pairs, <- X_of_pairs.
      rewrite (sum_const (X_of rfr df) 0 HX).
      unfold shift_pairs, pairs_of. rewrite !length_map.
      rewrite <- My. unfold mean, y_of. rewrite length_map.
      destruct df as [| row df]; [congruence |].
      pose proof (INR_length_pos row df). field. lra.
    + rewrite (sum_map_ext _ (fun _ => 0)).
      * clear. induction df; simpl; [reflexivity |]. unfold sum in *. lra.
      * intros row Hrow. rewrite (Hflat row Hrow). ring.
    + rewrite MX, My. ring.
Qed.

Lemma fit_normal_equations_witness :
  sum (map (residual (risk_free_rate_monthly 6 * 100)
              (raw_intercept (risk_free_rate_monthly 6 * 100) sample_returns_df)
              (raw_slope sample_returns_df))
           sample_returns_df) = 0.
Proof.
  apply (fit_normal_equations 6 sample_returns_df
           (full_rank_model 6 sample_returns_df)
           (raw_intercept (risk_free_rate_monthly 6 * 100) sample_returns_df)
           (raw_slope sample_returns_df)
           (fit_model_full_rank 6 _ sample_market_not_constant)
           eq_refl eq_refl).
Defined.

(** ** Returns that lie on a line *)

Lemma sum_zero {A} (f : A -> R) (l : list A) :
  (forall a, In a l -> f a = 0) -> sum (map f l) = 0.
Proof.
  induction l as [| a l IH]; intros H; [reflexivity |].
  rewrite map_cons, sum_cons, (H a) by now left.
  rewrite IH by (intros b Hb; apply H; now right). ring.
Qed.

Lemma sum_scal {A} (k : R) (f : A -> R) (l : list A) :
  sum (map (fun a => k * f a) l) = k * sum (map f l).
Proof.
  induction l as [| a l IH]; [simpl; ring |].
  rewrite !map_cons, !sum_cons, IH. ring.
Qed.

Lemma centered_tss_shift (c : R) (l : list (R * R)) :
  centered_tss (map snd (shift_pairs c l)) = centered_tss (map snd l).
Proof.
  destruct l as [| p l]; [reflexivity |].
  unfold centered_tss. rewrite mean_shift_snd by discriminate.
  unfold shift_pairs. rewrite !map_map.
  apply sum_map_ext. intros q _. simpl. ring.
Qed.

Lemma centered_tss_excess (rfr : R) (df : list Row) :
  centered_tss (y_of rfr df) = centered_tss (map Stock_Return df).
Proof. now rewrite y_of_pairs, centered_tss_shift, <- Stock_Return_pairs. Qed.

Lemma ssr_line_rows (rfr a b : R) (df : list Row) :
  ssr_line a b (X_of rfr df) (y_of rfr df)
  = sum (map (fun row => residual (risk_free_rate_monthly rfr * 100) a b row ^ 2) df).
Proof.
  unfold ssr_line. rewrite X_of_pairs, y_of_pairs, zip_fst_snd.
  unfold shift_pairs, pairs_of. rewrite !map_map. reflexivity.
Qed.

Lemma centered_tss_of_line (df : list Row) (k a0 : R) :
  df <> [] ->
  (forall row, In row df -> Stock_Return row = a0 + k * Market_Return row) ->
  mean (map Stock_Return df) = a0 + k * mean (map Market_Return df) ->
  centered_tss (map Stock_Return df) = k ^ 2 * Sxx (map Market_Return df).
Proof.
  intros Hne Hline Hm. unfold centered_tss, Sxx. rewrite Hm, !map_map.
  rewrite <- sum_scal. apply sum_map_ext. intros row Hrow.
  rewrite (Hline row Hrow). ring.
Qed.

Lemma full_rank_model_of_line (rfr a b : R) (df : list Row) :
  Sxx (map Market_Return df) <> 0 ->
  (forall row, In row df ->
     Stock_Return row - risk_free_rate_monthly rfr * 100
     = a + b * (Market_Return row - risk_free_rate_monthly rfr * 100)) ->
  raw_slope df = b
  /\ raw_intercept (risk_free_rate_monthly rfr * 100) df = a
  /\ rsquared (full_rank_model rfr df)
     = (if Req_dec_T b 0 then None else Some 1).
Proof.
  intros HS Hline.
  set (c := risk_free_rate_monthly rfr * 100) in *.
  assert (Hdf : df <> []) by (intros ->; apply HS; reflexivity).
  assert (Hraw : forall row, In row df ->
             Stock_Return row = (a + c - b * c) + b * Market_Return row).
  { intros row Hrow. pose proof (Hline row Hrow). lra. }
  destruct (raw_slope_of_line df b (a + c - b * c) HS Hraw) as [Eb Em].
  assert (Ea : raw_intercept c df = a).
  { unfold raw_intercept. rewrite Eb, Em. ring. }
  split; [exact Eb |]. split; [exact Ea |].
  unfold full_rank_model. fold c. cbn [rsquared]. rewrite Ea, Eb.
  assert (Essr : ssr_line a b (X_of rfr df) (y_of rfr df) = 0).
  { rewrite ssr_line_rows. apply sum_zero. intros row Hrow.
    unfold residual. fold c. rewrite (Hline row Hrow). ring. }
  assert (Etss : centered_tss (y_of rfr df) = b ^ 2 * Sxx (map Market_Return df)).
  { rewrite centered_tss_excess.
    now apply (centered_tss_of_line df b (a + c - b * c)). }
  unfold rsquared_of. rewrite Essr.
  destruct (Req_dec_T (centered_tss (y_of rfr df)) 0) as [Z | NZ];
    destruct (Req_dec_T b 0) as [Zb | NZb].
  - reflexivity.
  - exfalso. rewrite Etss in Z.
    apply Rmult_integral in Z. destruct Z as [Z | Z]; [| contradiction].
    apply NZb. nra.
  - exfalso. apply NZ. rewrite Etss, Zb. ring.
  - f_equal. field. exact NZ.
Qed.

(** X8: when the market returns are not all equal and every excess
    stock return equals [a + b * x] with [b] not zero, [x] the excess
    market return of its row, the fit gives back Alpha = a and
    Beta = b, and R-squared is 1. *)
Theorem fit_recovers_line (rfr a b : R) (df : list Row) :
  (exists r1 r2, In r1 df /\ In r2 df /\ Market_Return r1 <> Market_Return r2) ->
  b <> 0 ->
  (forall row, In row df ->
     Stock_Return row - risk_free_rate_monthly rfr * 100
     = a + b * (Market_Return row - risk_free_rate_monthly rfr * 100)) ->
  exists model,
    fit_model rfr df = Ok model
    /\ params_getitem (params model) "Market_Return" = Ok b
    /\ params_getitem (params model) "const" = Ok a
    /\ rsquared model = Some 1.
Proof.
  intros (r1 & r2 & H1 & H2 & Hne) Hb Hline.
  pose proof (market_not_constant df r1 r2 H1 H2 Hne) as HS.
  destruct (full_rank_model_of_line rfr a b df HS Hline) as (Eb & Ea & Er).
  destruct (Req_dec_T b 0) as [Z | _]; [contradiction |].
  exists (full_rank_model rfr df).
  split; [apply (fit_model_full_rank rfr df HS) |].
  split; [| split; [| exact Er]].
  - unfold full_rank_model. cbn. now rewrite Eb.
  - unfold full_rank_model. cbn. now rewrite Ea.
Qed.

Lemma fit_recovers_line_witness :
  exists model,
    fit_model 0 near_zero_returns_df = Ok model
    /\ params_getitem (params model) "Market_Return" = Ok 1.00001
    /\ params_getitem (params model) "const" = Ok 0.00001
    /\ rsquared model = Some 1.
Proof.
  apply (fit_recovers_line 0 0.00001 1.00001 near_zero_returns_df).
  - exists (mk_row 1%Z ((101.00002 / 100 - 1) * 100) ((101 / 100 - 1) * 100)),
      (mk_row 2%Z ((103.020050700006 / 101.00002 - 1) * 100)
                  ((103.02 / 101 - 1) * 100)).
    split; [now left |]. split; [right; now left |]. simpl. lra.
  - lra.
  - rewrite risk_free_rate_monthly_0.
    intros row [<- | [<- | []]]; simpl; lra.
Defined.

(** ** Values on the display grid *)

Lemma rint_IZR (z : Z) : rint (IZR z) = z.
Proof. apply rint_near. lra. Qed.

Lemma round4_grid (z : Z) : round4 (IZR z / 10 ^ 4) = IZR z / 10 ^ 4.
Proof.
  unfold round4.
  replace (IZR z / 10 ^ 4 * 10 ^ 4) with (IZR z) by (simpl; field).
  now rewrite rint_IZR.
Qed.

Lemma round4_one : round4 1 = 1.
Proof.
  replace 1 with (IZR 10000 / 10 ^ 4) at 1 by (simpl; lra).
  rewrite round4_grid. simpl. lra.
Qed.

Lemma round4_zero : round4 0 = 0.
Proof.
  replace 0 with (IZR 0 / 10 ^ 4) at 1 by (simpl; lra).
  rewrite round4_grid. simpl. lra.
Qed.

(** ** The order of the rows *)

Lemma sum_perm (l l' : list R) : Permutation l l' -> sum l = sum l'.
Proof.
  induction 1 as [| a l l' _ IH | a b l | l l' l'' _ IH1 _ IH2].
  - reflexivity.
  - rewrite !sum_cons, IH. reflexivity.
  - rewrite !sum_cons. ring.
  - now rewrite IH1.
Qed.

Lemma sum_map_perm {A} (f : A -> R) (l l' : list A) :
  Permutation l l' -> sum (map f l) = sum (map f l').
Proof. intros P. apply sum_perm. now apply Permutation_map. Qed.

Lemma mean_perm (x x' : list R) : Permutation x x' -> mean x = mean x'.
Proof.
  intros P. unfold mean. now rewrite (sum_perm x x' P), (Permutation_length P).
Qed.

Lemma Sxx_perm (x x' : list R) : Permutation x x' -> Sxx x = Sxx x'.
Proof.
  intros P. unfold Sxx. rewrite (mean_perm x x' P). now apply sum_map_perm.
Qed.

Lemma is_nonzero_const_perm (x x' : list R) :
  Permutation x x' -> is_nonzero_const x = is_nonzero_const x'.
Proof.
  assert (H : forall a b, Permutation a b ->
                is_nonzero_const a = true -> is_nonzero_const b = true).
  { intros a b P Ha. apply is_nonzero_const_spec in Ha.
    destruct Ha as (c & Hc & Hne & Hall).
    apply is_nonzero_const_spec. exists c. split; [exact Hc |]. split.
    - intros ->. apply Permutation_sym, Permutation_nil in P. contradiction.
    - intros v Hv. apply Hall. eapply Permutation_in; [| exact Hv].
      now apply Permutation_sym. }
  intros P.
  destruct (is_nonzero_const x) eqn:E1; destruct (is_nonzero_const x') eqn:E2;
    try reflexivity.
  - rewrite (H x x' P E1) in E2. discriminate.
  - rewrite (H x' x (Permutation_sym P) E2) in E1. discriminate.
Qed.

Lemma zip_excess (rfr : R) (df : list Row) :
  zip (X_of rfr df) (y_of rfr df)
  = map (fun row => (Market_Return row - risk_free_rate_monthly rfr * 100,
                     Stock_Return row - risk_free_rate_monthly rfr * 100)) df.
Proof.
  rewrite X_of_pairs, y_of_pairs, zip_fst_snd.
  unfold shift_pairs, pairs_of. rewrite map_map. reflexivity.
Qed.

Lemma X_of_perm (rfr : R) (df df' : list Row) :
  Permutation df df' -> Permutation (X_of rfr df) (X_of rfr df').
Proof. intros P. unfold X_of. now apply Permutation_map. Qed.

Lemma y_of_perm (rfr : R) (df df' : list Row) :
  Permutation df df' -> Permutation (y_of rfr df) (y_of rfr df').
Proof. intros P. unfold y_of. now apply Permutation_map. Qed.

(** X10: the fitted model does not depend on the order of the rows of
    [returns_df]: on a reordering of the rows the fit raises the same
    exception or gives the same parameters and the same R-squared. *)
Theorem fit_ignores_row_order (rfr : R) (df df' : list Row) :
  Permutation df df' -> fit_model rfr df' = fit_model rfr df.
Proof.
  intros P.
  pose proof (y_of_perm rfr df df' P) as Py.
  unfold fit_model, add_constant, OLS_fit.
  destruct (y_of rfr df') as [| y0' ys'] eqn:Ey';
    destruct (y_of rfr df) as [| y0 ys] eqn:Ey.
  - reflexivity.
  - apply Permutation_sym, Permutation_nil in Py. discriminate.
  - apply Permutation_nil in Py. discriminate.
  - rewrite <- Ey, <- Ey'. rewrite <- Ey, <- Ey' in Py.
    clear Ey Ey' y0 ys y0' ys'.
    pose proof (X_of_perm rfr df df' P) as PX.
    assert (EmX : mean (X_of rfr df') = mean (X_of rfr df))
      by (symmetry; now apply mean_perm).
    assert (Emy : mean (y_of rfr df') = mean (y_of rfr df))
      by (symmetry; now apply mean_perm).
    assert (ESxx : Sxx (X_of rfr df') = Sxx (X_of rfr df))
      by (symmetry; now apply Sxx_perm).
    assert (Etss : centered_tss (y_of rfr df') = centered_tss (y_of rfr df))
      by (symmetry; now apply (Sxx_perm (y_of rfr df) (y_of rfr df'))).
    assert (Ec : is_nonzero_const (X_of rfr df') = is_nonzero_const (X_of rfr df))
      by (symmetry; now apply is_nonzero_const_perm).
    assert (ESxy : Sxy (X_of rfr df') (y_of rfr df')
                   = Sxy (X_of rfr df) (y_of rfr df)).
    { unfold Sxy. rewrite EmX, Emy, !zip_excess, !map_map.
      symmetry. now apply sum_map_perm. }
    assert (Essr : forall a b,
               ssr_line a b (X_of rfr df') (y_of rfr df')
               = ssr_line a b (X_of rfr df) (y_of rfr df)).
    { intros a b. rewrite !ssr_line_rows. symmetry. now apply sum_map_perm. }
    assert (Esq : sum (map (fun v => v ^ 2) (X_of rfr df'))
                  = sum (map (fun v => v ^ 2) (X_of rfr df)))
      by (symmetry; now apply sum_map_perm).
    assert (Exy : sum (map (fun p => fst p * snd p)
                         (zip (X_of rfr df') (y_of rfr df')))
                  = sum (map (fun p => fst p * snd p)
                           (zip (X_of rfr df) (y_of rfr df)))).
    { rewrite !zip_excess, !map_map. symmetry. now apply sum_map_perm. }
    rewrite Ec.
    destruct (is_nonzero_const (X_of rfr df)).
    + unfold rsquared_of. rewrite Esq, Exy, Etss, !Essr. reflexivity.
    + rewrite ESxx.
      destruct (Req_dec_T (Sxx (X_of rfr df)) 0);
        unfold rsquared_of; rewrite ?ESxy, ?ESxx, EmX, Emy, Etss, !Essr;
        reflexivity.
Qed.

Lemma fit_ignores_row_order_witness :
  fit_model 6 (rev sample_returns_df) = fit_model 6 sample_returns_df.
Proof.
  apply fit_ignores_row_order. apply Permutation_rev.
Defined.

(** ** Size of the periodic rate *)

Lemma bernoulli_twelve (x : R) : 0 < x -> 1 + 12 * x <= (1 + x) ^ 12.
Proof.
  intros Hx. pose proof (poly 12 x Hx) as B.
  replace (INR 12) with 12 in B by (simpl; ring). exact B.
Qed.

Lemma risk_free_rate_monthly_upper (r : R) :
  0 <= r -> risk_free_rate_monthly r * 100 <= r / 12.
Proof.
  intros Hr.
  destruct (Rle_dec (risk_free_rate_monthly r) (r / 1200)) as [H | H]; [lra |].
  exfalso. apply Rnot_le_lt in H.
  destruct (Req_dec_T r 0) as [-> | Hnz].
  { rewrite risk_free_rate_monthly_0 in H. lra. }
  assert (Hx : 0 < r / 1200) by lra.
  assert (Hq : 0 <= 1 + r / 1200) by lra.
  assert (Hlt : 1 + r / 1200 < 1 + risk_free_rate_monthly r) by lra.
  assert (E : 1 + 12 * (r / 1200) = 1 + r / 100) by field.
  pose proof (bernoulli_twelve (r / 1200) Hx) as B.
  pose proof (pow_lt_strict _ _ 11 Hq Hlt) as Hpow.
  change (S 11) with 12%nat in Hpow.
  rewrite (risk_free_rate_monthly_root r Hr) in Hpow.
  rewrite E in B.
  apply (Rlt_irrefl (1 + r / 100)).
  eapply Rle_lt_trans; [exact B | exact Hpow].
Qed.

Lemma risk_free_rate_monthly_le (r1 r2 : R) :
  0 <= r1 -> r1 <= r2 -> risk_free_rate_monthly r1 <= risk_free_rate_monthly r2.
Proof.
  intros H1 H12. unfold risk_free_rate_monthly.
  assert (Rpower (1 + r1 / 100) (1 / 12) <= Rpower (1 + r2 / 100) (1 / 12));
    [| lra].
  apply Rle_Rpower_l; lra.
Qed.

Lemma risk_free_rate_monthly_lt (r1 r2 : R) :
  0 <= r1 -> r1 < r2 -> risk_free_rate_monthly r1 < risk_free_rate_monthly r2.
Proof.
  intros H1 H12. unfold risk_free_rate_monthly.
  assert (Rpower (1 + r1 / 100) (1 / 12) < Rpower (1 + r2 / 100) (1 / 12));
    [| lra].
  apply Rlt_Rpower_l; lra.
Qed.

(** X11: the periodic rate is 0 at an annual rate of 0 and grows
    strictly with the annual rate; what is subtracted from every return,
    the periodic rate times 100, lies between 0 and a twelfth of the
    annual rate, so the excess returns of a higher rate are lower. *)
Theorem periodic_rate_bounds (r1 r2 : R) :
  0 <= r1 -> r1 <= r2 ->
  risk_free_rate_monthly 0 = 0
  /\ risk_free_rate_monthly r1 <= risk_free_rate_monthly r2
  /\ (r1 < r2 -> risk_free_rate_monthly r1 < risk_free_rate_monthly r2)
  /\ 0 <= risk_free_rate_monthly r2 * 100 <= r2 / 12
  /\ (forall row, Market_Return row - risk_free_rate_monthly r2 * 100
                  <= Market_Return row - risk_free_rate_monthly r1 * 100).
Proof.
  intros H1 H12.
  pose proof (risk_free_rate_monthly_le r1 r2 H1 H12) as Hle.
  pose proof (risk_free_rate_monthly_nonneg r2 ltac:(lra)) as Hnn.
  pose proof (risk_free_rate_monthly_upper r2 ltac:(lra)) as Hup.
  split; [exact risk_free_rate_monthly_0 |]. split; [exact Hle |].
  split; [intros Hlt; now apply risk_free_rate_monthly_lt |].
  split; [lra |]. intros row. lra.
Qed.

Lemma periodic_rate_bounds_witness :
  risk_free_rate_monthly 6 < risk_free_rate_monthly 20
  /\ risk_free_rate_monthly 20 * 100 <= 20 / 12.
Proof.
  destruct (periodic_rate_bounds 6 20) as (_ & _ & Hlt & [_ Hup] & _);
    [lra | lra |].
  split; [apply Hlt; lra | exact Hup].
Defined.

(** ** More on rounding *)

Lemma rint_floor_bounds (x : R) : (Zfloor x <= rint x <= Zfloor x + 1)%Z.
Proof.
  unfold rint.
  destruct (Rlt_dec (x - IZR (Zfloor x)) (1 / 2)); [lia |].
  destruct (Rlt_dec (1 / 2) (x - IZR (Zfloor x))); [lia |].
  destruct (Z.even (Zfloor x)); lia.
Qed.

Lemma rint_error (x : R) : IZR (rint x) - 1 / 2 <= x <= IZR (rint x) + 1 / 2.
Proof.
  pose proof (Zfloor_bound x) as [Hlo Hhi]. unfold rint.
  destruct (Rlt_dec (x - IZR (Zfloor x)) (1 / 2)) as [H1 | H1]; [lra |].
  destruct (Rlt_dec (1 / 2) (x - IZR (Zfloor x))) as [H2 | H2].
  - rewrite plus_IZR. lra.
  - destruct (Z.even (Zfloor x)); [lra | rewrite plus_IZR; lra].
Qed.

Lemma rint_mono (x y : R) : x <= y -> (rint x <= rint y)%Z.
Proof.
  intros Hxy.
  pose proof (Zfloor_le x y Hxy) as Hf.
  pose proof (rint_floor_bounds x) as [_ Hx].
  pose proof (rint_floor_bounds y) as [Hy _].
  destruct (Z.eq_dec (Zfloor x) (Zfloor y)) as [E | NE]; [| lia].
  unfold rint. rewrite E.
  destruct (Rlt_dec (x - IZR (Zfloor y)) (1 / 2)) as [X1 | X1];
    destruct (Rlt_dec (y - IZR (Zfloor y)) (1 / 2)) as [Y1 | Y1];
    try lia; try (exfalso; lra).
  - destruct (Rlt_dec (1 / 2) (y - IZR (Zfloor y))); [lia |].
    destruct (Z.even (Zfloor y)); lia.
  - destruct (Rlt_dec (1 / 2) (x - IZR (Zfloor y))) as [X2 | X2];
      destruct (Rlt_dec (1 / 2) (y - IZR (Zfloor y))) as [Y2 | Y2];
      try lia; try (exfalso; lra).
    destruct (Z.even (Zfloor y)); lia.
Qed.

Lemma pow_10_4 : 10 ^ 4 = 10000.
Proof. simpl. ring. Qed.

Lemma round4_error (x : R) : Rabs (round4 x - x) <= 1 / 20000.
Proof.
  unfold round4. rewrite pow_10_4.
  pose proof (rint_error (x * 10000)) as [Hlo Hhi].
  apply Rabs_le. split; lra.
Qed.

Lemma round4_mono (x y : R) : x <= y -> round4 x <= round4 y.
Proof.
  intros Hxy. unfold round4. rewrite pow_10_4.
  assert (H : (rint (x * 10000) <= rint (y * 10000))%Z)
    by (apply rint_mono; lra).
  apply IZR_le in H. lra.
Qed.

(** X12: [round(x, 4)] returns a multiple of 0.0001 that is within
    0.00005 of x. *)
Theorem round4_on_grid_near (x : R) :
  (exists z : Z, round4 x = IZR z / 10 ^ 4)
  /\ Rabs (round4 x - x) <= 1 / 20000.
Proof.
  split; [now exists (rint (x * 10 ^ 4)) |].
  unfold round4. rewrite pow_10_4.
  pose proof (rint_error (x * 10000)) as [Hlo Hhi].
  apply Rabs_le. split; lra.
Qed.

(** X13: rounding is idempotent and monotone: a displayed value rounds
    to itself, and of two values the greater never displays as the
    smaller. *)
Theorem round4_idempotent_monotone (x y : R) :
  round4 (round4 x) = round4 x
  /\ (x <= y -> round4 x <= round4 y).
Proof.
  split.
  - unfold round4 at 2 3. unfold round4 at 1.
    replace (IZR (rint (x * 10 ^ 4)) / 10 ^ 4 * 10 ^ 4)
      with (IZR (rint (x * 10 ^ 4))) by (rewrite pow_10_4; field).
    now rewrite rint_IZR.
  - intros Hxy. unfold round4. rewrite pow_10_4.
    assert (H : (rint (x * 10000) <= rint (y * 10000))%Z)
      by (apply rint_mono; lra).
    apply IZR_le in H. lra.
Qed.

Lemma round4_idempotent_monotone_witness :
  round4 1 <= round4 1.00001.
Proof. apply (round4_idempotent_monotone 1 1.00001). lra. Defined.

Lemma beta_label_gt (b : R) : 1 < b -> beta_interpretation b = "🔥 **Aggressive**".
Proof.
  intros H. unfold beta_interpretation.
  destruct (Rlt_dec 1 b); [reflexivity | contradiction].
Qed.

Lemma beta_label_lt (b : R) : b < 1 -> beta_interpretation b = "❄️ **Defensive**".
Proof.
  intros H. unfold beta_interpretation.
  destruct (Rlt_dec 1 b); [exfalso; lra |].
  destruct (Rlt_dec b 1); [reflexivity | contradiction].
Qed.

Lemma beta_label_eq : beta_interpretation 1 = "➡️ **Neutral**".
Proof.
  unfold beta_interpretation.
  destruct (Rlt_dec 1 1); [exfalso; lra | reflexivity].
Qed.

Lemma alpha_label_gt (a : R) :
  0 < a -> alpha_interpretation a = "📈 **Outperforming**".
Proof.
  intros H. unfold alpha_interpretation.
  destruct (Rlt_dec 0 a); [reflexivity | contradiction].
Qed.

Lemma alpha_label_lt (a : R) :
  a < 0 -> alpha_interpretation a = "📉 **Underperforming**".
Proof.
  intros H. unfold alpha_interpretation.
  destruct (Rlt_dec 0 a); [exfalso; lra |].
  destruct (Rlt_dec a 0); [reflexivity | contradiction].
Qed.

Lemma alpha_label_eq : alpha_interpretation 0 = "➡️ **Neutral**".
Proof.
  unfold alpha_interpretation.
  destruct (Rlt_dec 0 0); [exfalso; lra | reflexivity].
Qed.

Lemma Rabs_round4_gap (v t : R) : round4 v = t -> Rabs (v - t) <= 1 / 20000.
Proof.
  intros <-. rewrite Rabs_minus_sym. apply round4_error.
Qed.

(** X14: the label of the displayed (rounded) Beta or Alpha can differ
    from the label the page shows, which is that of the unrounded
    value, only by being Neutral: rounding never turns Aggressive into
    Defensive or Outperforming into Underperforming, and the two labels
    differ only within 0.00005 of the threshold. *)
Theorem rounding_only_neutralises (v : R) :
  (beta_interpretation (round4 v) <> beta_interpretation v ->
   beta_interpretation (round4 v) = "➡️ **Neutral**"
   /\ v <> 1 /\ Rabs (v - 1) <= 1 / 20000)
  /\ (alpha_interpretation (round4 v) <> alpha_interpretation v ->
      alpha_interpretation (round4 v) = "➡️ **Neutral**"
      /\ v <> 0 /\ Rabs (v - 0) <= 1 / 20000).
Proof.
  split; intros Hdiff.
  - destruct (Rtotal_order v 1) as [Hlt | [Heq | Hgt]].
    + pose proof (round4_mono v 1 ltac:(lra)) as Hm. rewrite round4_one in Hm.
      destruct (Req_dec_T (round4 v) 1) as [E | NE].
      * rewrite E. split; [exact beta_label_eq |]. split; [lra |].
        now apply Rabs_round4_gap.
      * exfalso. apply Hdiff.
        rewrite (beta_label_lt v Hlt). apply beta_label_lt. lra.
    + exfalso. apply Hdiff. rewrite Heq, round4_one. reflexivity.
    + pose proof (round4_mono 1 v ltac:(lra)) as Hm. rewrite round4_one in Hm.
      destruct (Req_dec_T (round4 v) 1) as [E | NE].
      * rewrite E. split; [exact beta_label_eq |]. split; [lra |].
        now apply Rabs_round4_gap.
      * exfalso. apply Hdiff.
        rewrite (beta_label_gt v Hgt). apply beta_label_gt. lra.
  - destruct (Rtotal_order v 0) as [Hlt | [Heq | Hgt]].
    + pose proof (round4_mono v 0 ltac:(lra)) as Hm. rewrite round4_zero in Hm.
      destruct (Req_dec_T (round4 v) 0) as [E | NE].
      * rewrite E. split; [exact alpha_label_eq |]. split; [lra |].
        now apply Rabs_round4_gap.
      * exfalso. apply Hdiff.
        rewrite (alpha_label_lt v Hlt). apply alpha_label_lt. lra.
    + exfalso. apply Hdiff. rewrite Heq, round4_zero. reflexivity.
    + pose proof (round4_mono 0 v ltac:(lra)) as Hm. rewrite round4_zero in Hm.
      destruct (Req_dec_T (round4 v) 0) as [E | NE].
      * rewrite E. split; [exact alpha_label_eq |]. split; [lra |].
        now apply Rabs_round4_gap.
      * exfalso. apply Hdiff.
        rewrite (alpha_label_gt v Hgt). apply alpha_label_gt. lra.
Qed.

Lemma rounding_only_neutralises_witness :
  beta_interpretation (round4 1.00001) = "➡️ **Neutral**"
  /\ Rabs (1.00001 - 1) <= 1 / 20000.
Proof.
  destruct (rounding_only_neutralises 1.00001) as [Hb _].
  destruct Hb as (Hn & _ & Hgap).
  - rewrite round4_near_one, beta_label_eq, (beta_label_gt 1.00001) by lra.
    discriminate.
  - split; [exact Hn | exact Hgap].
Defined.

(** ** R-squared *)

Lemma ssr_at_fit (l : list (R * R)) :
  let x := map fst l in
  let y := map snd l in
  let beta := Sxy x y / Sxx x in
  let alpha := mean y - beta * mean x in
  Sxx x <> 0 ->
  ssr_line alpha beta x y = centered_tss y - Sxy x y ^ 2 / Sxx x.
Proof.
  intros x y beta alpha HS.
  pose proof (ssr_line_decomposition l (mean y) 0 HS) as D. cbv zeta in D.
  unfold y in D at 1. rewrite <- (centered_tss_as_line l) in D.
  subst alpha beta x y.
  set (x := map fst l) in *. set (y := map snd l) in *.
  set (beta := Sxy x y / Sxx x) in *.
  set (alpha := mean y - beta * mean x) in *.
  assert (E : mean y - alpha + (0 - beta) * mean x = 0) by (unfold alpha; ring).
  rewrite E in D.
  assert (B : (0 - beta) ^ 2 * Sxx x = Sxy x y ^ 2 / Sxx x)
    by (unfold beta; field; exact HS).
  rewrite B in D. lra.
Qed.

Lemma rsquared_full_rank (rfr : R) (df : list Row) :
  Sxx (map Market_Return df) <> 0 ->
  rsquared (full_rank_model rfr df)
  = (if Req_dec_T (centered_tss (map Stock_Return df)) 0 then None
     else Some (Sxy (map Market_Return df) (map Stock_Return df) ^ 2
                / (Sxx (map Market_Return df)
                   * centered_tss (map Stock_Return df)))).
Proof.
  intros HS.
  assert (Hdf : df <> []) by (intros ->; apply HS; reflexivity).
  set (c := risk_free_rate_monthly rfr * 100).
  set (l := shift_pairs c (pairs_of df)).
  assert (EX : X_of rfr df = map fst l) by apply X_of_pairs.
  assert (Ey : y_of rfr df = map snd l) by apply y_of_pairs.
  assert (ESxx : Sxx (map fst l) = Sxx (map Market_Return df)).
  { unfold l. now rewrite Sxx_shift, <- Market_Return_pairs. }
  assert (ESxy : Sxy (map fst l) (map snd l)
                 = Sxy (map Market_Return df) (map Stock_Return df)).
  { unfold l. now rewrite Sxy_shift, <- Market_Return_pairs, <- Stock_Return_pairs. }
  assert (Etss : centered_tss (map snd l) = centered_tss (map Stock_Return df)).
  { unfold l. now rewrite centered_tss_shift, <- Stock_Return_pairs. }
  assert (HSl : Sxx (map fst l) <> 0) by (rewrite ESxx; exact HS).
  pose proof (ssr_at_fit l HSl) as Hssr. cbv zeta in Hssr.
  assert (Eb : Sxy (map fst l) (map snd l) / Sxx (map fst l) = raw_slope df).
  { rewrite <- EX, <- Ey. apply raw_slope_excess. }
  assert (Ea : mean (map snd l) - raw_slope df * mean (map fst l)
               = raw_intercept c df).
  { rewrite <- EX, <- Ey. now apply raw_intercept_excess. }
  rewrite Eb, Ea in Hssr.
  unfold full_rank_model. fold c. cbn [rsquared]. rewrite EX, Ey, Hssr.
  unfold rsquared_of. rewrite Etss, ESxy, ESxx.
  destruct (Req_dec_T (centered_tss (map Stock_Return df)) 0) as [Z | NZ];
    [reflexivity |].
  f_equal. field. split; assumption.
Qed.

(** X15: when neither the market returns nor the stock returns are all
    equal, the fit succeeds at every risk-free rate and its R-squared
    is the squared covariation of the raw stock and market returns over
    the product of their spreads: it does not depend on the risk-free
    rate. *)
Theorem rsquared_ignores_rate (df : list Row) :
  (exists r1 r2, In r1 df /\ In r2 df /\ Market_Return r1 <> Market_Return r2) ->
  (exists r1 r2, In r1 df /\ In r2 df /\ Stock_Return r1 <> Stock_Return r2) ->
  forall rfr : R,
  exists model,
    fit_model rfr df = Ok model
    /\ rsquared model
       = Some (Sxy (map Market_Return df) (map Stock_Return df) ^ 2
               / (Sxx (map Market_Return df)
                  * centered_tss (map Stock_Return df))).
Proof.
  intros (r1 & r2 & H1 & H2 & Hne) (q1 & q2 & Q1 & Q2 & Hq) rfr.
  pose proof (market_not_constant df r1 r2 H1 H2 Hne) as HS.
  assert (HT : centered_tss (map Stock_Return df) <> 0).
  { change (Sxx (map Stock_Return df) <> 0).
    apply (Sxx_two_distinct _ (Stock_Return q1) (Stock_Return q2));
      [now apply in_map | now apply in_map | exact Hq]. }
  exists (full_rank_model rfr df).
  split; [apply (fit_model_full_rank rfr df HS) |].
  rewrite (rsquared_full_rank rfr df HS).
  destruct (Req_dec_T (centered_tss (map Stock_Return df)) 0) as [Z | _];
    [contradiction | reflexivity].
Qed.

Lemma rsquared_ignores_rate_witness :
  exists m0 m20,
    fit_model 0 sample_returns_df = Ok m0
    /\ fit_model 20 sample_returns_df = Ok m20
    /\ rsquared m0 = rsquared m20
    /\ rsquared m0 <> None.
Proof.
  assert (H : exists r1 r2, In r1 sample_returns_df /\ In r2 sample_returns_df
                            /\ Market_Return r1 <> Market_Return r2).
  { exists (mk_row 1%Z ((102 / 100 - 1) * 100) ((1010 / 1000 - 1) * 100)),
      (mk_row 2%Z ((101 / 102 - 1) * 100) ((1005 / 1010 - 1) * 100)).
    split; [now left |]. split; [right; now left |]. simpl. lra. }
  assert (Q : exists r1 r2, In r1 sample_returns_df /\ In r2 sample_returns_df
                            /\ Stock_Return r1 <> Stock_Return r2).
  { exists (mk_row 1%Z ((102 / 100 - 1) * 100) ((1010 / 1000 - 1) * 100)),
      (mk_row 2%Z ((101 / 102 - 1) * 100) ((1005 / 1010 - 1) * 100)).
    split; [now left |]. split; [right; now left |]. simpl. lra. }
  destruct (rsquared_ignores_rate sample_returns_df H Q 0) as (m0 & F0 & R0).
  destruct (rsquared_ignores_rate sample_returns_df H Q 20) as (m20 & F20 & R20).
  exists m0, m20. split; [exact F0 |]. split; [exact F20 |].
  split; [now rewrite R0, R20 | rewrite R0; discriminate].
Defined.

(** X17: the fit raises exactly when [returns_df] has no row.  On at
    least one row Beta can always be read, and reading Alpha raises
    [KeyError: 'const'] exactly when the excess market returns of all
    rows are one and the same non-zero number; otherwise Alpha can be
    read. *)
Theorem alpha_missing_iff_flat_market (rfr : R) (df : list Row) :
  (fit_model rfr df = Raise (ValueError zero_size_msg) <-> df = [])
  /\ (df <> [] ->
      exists model beta,
        fit_model rfr df = Ok model
        /\ params_getitem (params model) "Market_Return" = Ok beta
        /\ (params_getitem (params model) "const" = Raise (KeyError "const")
            <-> exists k, k <> 0
                /\ forall row, In row df ->
                     Market_Return row - risk_free_rate_monthly rfr * 100 = k)
        /\ ((exists alpha, params_getitem (params model) "const" = Ok alpha)
            <-> ~ exists k, k <> 0
                  /\ forall row, In row df ->
                       Market_Return row - risk_free_rate_monthly rfr * 100 = k)).
Proof.
  assert (Hspec : df <> [] ->
            (is_nonzero_const (X_of rfr df) = true
             <-> exists k, k <> 0
                 /\ forall row, In row df ->
                      Market_Return row - risk_free_rate_monthly rfr * 100 = k)).
  { intros Hne. rewrite is_nonzero_const_spec. split.
    - intros (k & Hk & _ & Hall). exists k. split; [exact Hk |].
      intros row Hrow. apply Hall. unfold X_of.
      now apply (in_map (fun r => Market_Return r
                                  - risk_free_rate_monthly rfr * 100)).
    - intros (k & Hk & Hall). exists k. split; [exact Hk |]. split.
      + unfold X_of. destruct df; [congruence | discriminate].
      + intros v Hv. unfold X_of in Hv. apply in_map_iff in Hv.
        destruct Hv as (row & <- & Hrow). now apply Hall. }
  split.
  - split; [| intros ->; apply fit_model_nil].
    intros F. destruct df as [| row df]; [reflexivity |].
    destruct (fit_model_nonempty rfr (row :: df)) as (m & b & F' & _);
      [discriminate |]. rewrite F' in F. discriminate.
  - intros Hne. specialize (Hspec Hne).
    destruct (fit_model_nonempty rfr df Hne) as (model & beta & F & B & Ct & Cf).
    exists model, beta. split; [exact F |]. split; [exact B |].
    destruct (is_nonzero_const (X_of rfr df)) eqn:E.
    + pose proof (Ct eq_refl) as K. split.
      * split; [intros _; now apply Hspec | intros _; exact K].
      * split.
        -- intros [alpha A]. rewrite K in A. discriminate.
        -- intros N. exfalso. apply N. now apply Hspec.
    + destruct (Cf eq_refl) as [alpha A]. split.
      * split; [intros K; rewrite A in K; discriminate |].
        intros H. apply Hspec in H. discriminate.
      * split; [intros _ H; apply Hspec in H; discriminate |].
        intros _. now exists alpha.
Qed.

Lemma alpha_missing_iff_flat_market_witness :
  exists model,
    fit_model 0 flat_df = Ok model
    /\ params_getitem (params model) "const" = Raise (KeyError "const").
Proof.
  destruct (alpha_missing_iff_flat_market 0 flat_df) as [_ H].
  destruct H as (model & beta & F & _ & [_ K] & _); [discriminate |].
  exists model. split; [exact F |]. apply K.
  exists 1. split; [lra |].
  rewrite risk_free_rate_monthly_0.
  intros row [<- | [<- | []]]; simpl; lra.
Defined.

(** X18: when both price columns are fetched and the excess market
    returns of the rows of [returns_df] are one and the same non-zero
    number, the page is the header, the empty "Statistical Results"
    heading, the error message with the text ['const'], and the hint:
    no metric and no chart. *)
Theorem flat_market_page
    (yf_download : Provider) (inp : Inputs)
    (stock_data market_data : Frame) (stock_adj market_adj : PriceSeries) (k : R) :
  fetch_data yf_download (stock_symbol inp) (start_date inp) (end_date inp)
  = Ok stock_data ->
  fetch_data yf_download (market_indices (selected_index inp))
    (start_date inp) (end_date inp) = Ok market_data ->
  getitem stock_data "Adj Close" = Ok stock_adj ->
  getitem market_data "Adj Close" = Ok market_adj ->
  returns_df_of stock_adj market_adj <> [] ->
  k <> 0 ->
  (forall row, In row (returns_df_of stock_adj market_adj) ->
     Market_Return row - risk_free_rate_monthly (risk_free_rate inp) * 100 = k) ->
  render yf_download inp
  = (page_header
       ++ [St_columns 2;
           St_subheader [Lit (stock_symbol inp); Lit " Statistical Results"];
           St_error [Lit "An error occurred: "; Lit "'const'"];
           St_write [Lit hint]],
     Ok tt).
Proof.
  intros H1 H2 H3 H4 Hne Hk Hflat.
  set (df := returns_df_of stock_adj market_adj) in *.
  assert (C : is_nonzero_const (X_of (risk_free_rate inp) df) = true).
  { apply is_nonzero_const_spec. exists k. split; [exact Hk |]. split.
    - unfold X_of. destruct df; [congruence | discriminate].
    - intros v Hv. unfold X_of in Hv. apply in_map_iff in Hv.
      destruct Hv as (row & <- & Hrow). now apply Hflat. }
  destruct (fit_model_nonempty (risk_free_rate inp) df Hne)
    as (model & beta & F & B & Ct & _).
  rewrite script_run.
  rewrite (body_alpha_raises _ _ stock_data market_data H1 H2 stock_adj H3
             market_adj H4 model F beta B _ _ (Ct C)).
  unfold results_heading, error_report. rewrite <- app_assoc. reflexivity.
Qed.

Lemma flat_market_page_witness :
  render (two_series_provider "AAPL" three_day_stock steady_market)
         (sample_inputs 0)
  = (page_header
       ++ [St_columns 2;
           St_subheader [Lit "AAPL"; Lit " Statistical Results"];
           St_error [Lit "An error occurred: "; Lit "'const'"];
           St_write [Lit hint]],
     Ok tt).
Proof.
  apply (flat_market_page
           (two_series_provider "AAPL" three_day_stock steady_market)
           (sample_inputs 0)
           [("Adj Close", three_day_stock)] [("Adj Close", steady_market)]
           three_day_stock steady_market 1 eq_refl eq_refl eq_refl eq_refl).
  - discriminate.
  - lra.
  - cbn [risk_free_rate sample_inputs]. rewrite risk_free_rate_monthly_0.
    intros row H.
    change (In row [mk_row 1%Z ((102 / 100 - 1) * 100) ((101 / 100 - 1) * 100);
                    mk_row 2%Z ((101 / 102 - 1) * 100)
                               ((102.01 / 101 - 1) * 100)]) in H.
    destruct H as [<- | [<- | []]]; simpl; lra.
Defined.

(** ** The memoised fetch *)

Lemma key_eqb_refl (k : CacheKey) : key_eqb k k = true.
Proof.
  unfold key_eqb. now rewrite String.eqb_refl, !Z.eqb_refl.
Qed.

Lemma key_eqb_eq (k k' : CacheKey) : key_eqb k k' = true -> k = k'.
Proof.
  destruct k as [s [a b]], k' as [s' [a' b']]. unfold key_eqb. simpl.
  rewrite !andb_true_iff. intros [Hs [Ha Hb]].
  apply String.eqb_eq in Hs. apply Z.eqb_eq in Ha. apply Z.eqb_eq in Hb.
  now subst.
Qed.

(** X19: once a fetch has returned a frame it is stored under its
    symbol and dates: every later fetch with the same arguments returns
    that frame and leaves the cache as it is, whatever the provider
    would answer by then, and entries of other arguments are not
    touched.  A fetch that raises stores nothing. *)
Theorem cache_serves_first_result
    (yf_download : Provider) (c c1 : Cache)
    (symbol : string) (start stop : date) (o : outcome Frame) :
  cached_fetch_data yf_download c symbol start stop = (c1, o) ->
  (forall k, key_eqb k (symbol, (start, stop)) = false ->
             cache_lookup c1 k = cache_lookup c k)
  /\ (forall f, o = Ok f ->
        cache_lookup c1 (symbol, (start, stop)) = Some f
        /\ forall later : Provider,
             cached_fetch_data later c1 symbol start stop = (c1, Ok f))
  /\ (forall e, o = Raise e ->
        c1 = c /\ cache_lookup c (symbol, (start, stop)) = None).
Proof.
  unfold cached_fetch_data.
  destruct (cache_lookup c (symbol, (start, stop))) as [f0 |] eqn:L.
  - intros E. injection E as <- <-.
    split; [reflexivity |]. split; [| discriminate].
    intros f E. injection E as <-. split; [exact L |].
    intros later. now rewrite L.
  - destruct (fetch_data yf_download symbol start stop) as [f0 | e0] eqn:F;
      intros E; injection E as <- <-.
    + split; [| split; [| discriminate]].
      * intros k Hk. simpl. now rewrite Hk.
      * intros f E. injection E as <-.
        assert (L1 : cache_lookup (((symbol, (start, stop)), f0) :: c)
                       (symbol, (start, stop)) = Some f0).
        { simpl. now rewrite key_eqb_refl. }
        split; [exact L1 |]. intros later. now rewrite L1.
    + split; [reflexivity |]. split; [discriminate |].
      intros e E. split; reflexivity.
Qed.

Lemma cache_serves_first_result_witness :
  cached_fetch_data failing_provider
    [(("AAPL", (0%Z, 3%Z)), [("Adj Close", sample_stock)])] "AAPL" 0%Z 3%Z
  = ([(("AAPL", (0%Z, 3%Z)), [("Adj Close", sample_stock)])],
     Ok [("Adj Close", sample_stock)]).
Proof.
  destruct (cache_serves_first_result
              (two_series_provider "AAPL" sample_stock sample_market)
              [] [(("AAPL", (0%Z, 3%Z)), [("Adj Close", sample_stock)])]
              "AAPL" 0%Z 3%Z (Ok [("Adj Close", sample_stock)]) eq_refl)
    as (_ & Hhit & _).
  destruct (Hhit _ eq_refl) as [_ Hlater]. apply Hlater.
Defined.

(** X20: on a cache whose entries are what the provider returns, the
    memoised fetch gives exactly the outcome of the plain fetch, and
    the cache it leaves is again such a cache: memoisation does not
    change what a pass computes. *)
Theorem cached_fetch_transparent
    (yf_download : Provider) (c : Cache) (symbol : string) (start stop : date) :
  cache_agrees yf_download c ->
  snd (cached_fetch_data yf_download c symbol start stop)
  = fetch_data yf_download symbol start stop
  /\ cache_agrees yf_download
       (fst (cached_fetch_data yf_download c symbol start stop)).
Proof.
  intros Hc. unfold cached_fetch_data.
  destruct (cache_lookup c (symbol, (start, stop))) as [f0 |] eqn:L.
  - split; [symmetry; now apply Hc | exact Hc].
  - destruct (fetch_data yf_download symbol start stop) as [f0 | e0] eqn:F;
      (split; [reflexivity |]); [| exact Hc].
    intros s a b f. simpl.
    destruct (key_eqb (s, (a, b)) (symbol, (start, stop))) eqn:K.
    + apply key_eqb_eq in K. injection K as -> -> ->.
      intros E. injection E as <-. exact F.
    + apply Hc.
Qed.

Lemma cached_fetch_transparent_witness :
  cache_lookup [(("AAPL", (0%Z, 3%Z)), [("Adj Close", sample_stock)])]
    ("AAPL", (0%Z, 3%Z)) = Some [("Adj Close", sample_stock)]
  /\ snd (cached_fetch_data
            (two_series_provider "AAPL" sample_stock sample_market)
            [(("AAPL", (0%Z, 3%Z)), [("Adj Close", sample_stock)])]
            "AAPL" 0%Z 3%Z)
     = fetch_data (two_series_provider "AAPL" sample_stock sample_market)
         "AAPL" 0%Z 3%Z
  /\ snd (cached_fetch_data
            (two_series_provider "AAPL" sample_stock sample_market)
            [(("AAPL", (0%Z, 3%Z)), [("Adj Close", sample_stock)])]
            "^GSPC" 0%Z 3%Z)
     = Ok [("Adj Close", sample_market)].
Proof.
  assert (A : cache_agrees
                (two_series_provider "AAPL" sample_stock sample_market)
                [(("AAPL", (0%Z, 3%Z)), [("Adj Close", sample_stock)])]).
  { intros s a b f. simpl.
    destruct (key_eqb (s, (a, b)) ("AAPL", (0%Z, 3%Z))) eqn:K; [| discriminate].
    apply key_eqb_eq in K. injection K as -> -> ->.
    intros E. injection E as <-. reflexivity. }
  split; [reflexivity |]. split.
  - apply (cached_fetch_transparent _ _ "AAPL" 0%Z 3%Z A).
  - destruct (cached_fetch_transparent _ _ "^GSPC" 0%Z 3%Z A) as [E _].
    rewrite E. reflexivity.
Defined.
